(** * RemoteAssistant: session continuity core

    A shallow embedding of [session-manager.ts] (class [SessionManager]),
    of [claude-executor.ts] ([execCommand] and class [ClaudeExecutor], but
    for [getSystemStats], which computes with floating-point numbers) and,
    of [telegram-bot.ts], of the [/clear] handler, of start-up and of
    [sendLongMessage]; followed by the properties of the specification that
    concern them, and by further properties of the code.

    Modelling conventions.
    - JavaScript strings and file texts are [string]s: sequences of code
      units below 256.  [fs.writeFile]/[fs.readFile] with ['utf-8'] are the
      identity on such texts.
    - Numbers that the program handles ([Date.now()] readings, exit codes,
      [maxMessagesPerSession], [lastN]) are integers, modelled in [Z].
    - A [Map<string, _>] is a [gmap string _].
    - The session directory is flat; user ids name files in it (the chat
      front end passes decimal Telegram ids or ['unknown']).  The listing
      keeps the order in which [fs.readdir] reports the entries.
    - Everything the environment decides is read from oracles held in the
      [World]: clock readings, storage faults, fresh UUIDs, and what the
      spawned process does.
    - A file-system call that the environment fails raises.  A failed
      [fs.writeFile] may have opened the file before it failed: the oracle
      [io_cut] says whether it had, and how much of the text it wrote; the
      record is then left empty or cut short.
    - Methods are state transformers that return [Ok] or [Raise]; the state
      reached when an exception is raised is kept, as mutations are not
      rolled back in JavaScript.  A third outcome, [Unsound], marks the one
      place where the program trusts a type annotation that the data may
      not honour: a stored record that parses to a value other than [null]
      that is not a session as [JSON.stringify] writes one.  The program
      goes on with that value in its map; a map of [Session]s cannot hold
      it, so the model stops there and says so. *)

From stdpp Require Import gmap strings list fin_maps.
From Stdlib Require Import ZArith Ascii String Lia Sorted.
From Stdlib Require Import DecimalString DecimalZ.
From Stdlib Require DecimalPos.

Local Open Scope string_scope.

(** ** JavaScript built-ins used by the program *)

Module Js.

(** [Array.prototype.slice(start)] with a single (integer) argument. *)
Definition slice {A} (start : Z) (l : list A) : list A :=
  let len := Z.of_nat (List.length l) in
  let k := if (start <? 0)%Z then Z.max (len + start) 0 else Z.min start len in
  drop (Z.to_nat k) l.

(** Truthiness of a string, of a number, of an optional value. *)
Definition truthy_string (s : string) : bool :=
  match s with EmptyString => false | String _ _ => true end.

Definition truthy_number (n : Z) : bool := negb (n =? 0)%Z.

(** [a || b] on strings. *)
Definition or_string (a b : string) : string :=
  if truthy_string a then a else b.

(** [String(n)] for an integer. *)
Definition string_of_Z (n : Z) : string :=
  NilZero.string_of_int (Z.to_int n).

(** [Array.prototype.join(sep)] on strings. *)
Fixpoint join (sep : string) (l : list string) : string :=
  match l with
  | [] => EmptyString
  | [x] => x
  | x :: rest => x ++ sep ++ join sep rest
  end.

(** [String.prototype.endsWith]. *)
Definition endsWith (s suffix : string) : bool :=
  let n := String.length s in
  let k := String.length suffix in
  (k <=? n)%nat && String.eqb (substring (n - k) k s) suffix.

(** White space and line terminators below 256, as [trim] strips them. *)
Definition is_space (c : ascii) : bool :=
  let n := nat_of_ascii c in
  ((9 <=? n) && (n <=? 13) || (n =? 32) || (n =? 160))%nat.

Fixpoint trimStart (s : string) : string :=
  match s with
  | String c s' => if is_space c then trimStart s' else s
  | EmptyString => EmptyString
  end.

(** Drops trailing white space: a character is kept when something that
    is kept follows it or when it is not white space. *)
Fixpoint trimEnd (s : string) : string :=
  match s with
  | String c s' =>
      match trimEnd s' with
      | EmptyString => if is_space c then EmptyString else String c EmptyString
      | r => String c r
      end
  | EmptyString => EmptyString
  end.

Definition trim (s : string) : string := trimEnd (trimStart s).

(** [s.replace(/c/g, r)] for a single character [c]. *)
Fixpoint replaceAll (c : ascii) (r : string) (s : string) : string :=
  match s with
  | String d s' => (if Ascii.eqb c d then r else String d EmptyString) ++ replaceAll c r s'
  | EmptyString => EmptyString
  end.

(** [s.split(sep)] for a single character [sep]. *)
Fixpoint split (sep : ascii) (s : string) : list string :=
  match s with
  | EmptyString => [EmptyString]
  | String c s' =>
      if Ascii.eqb c sep then EmptyString :: split sep s'
      else
        match split sep s' with
        | piece :: rest => String c piece :: rest
        | [] => [String c EmptyString]
        end
  end.

End Js.

(** ** Data model ([session-manager.ts]) *)

Inductive Role := user | assistant.

Record Message := {
  role : Role;
  content : string;
  timestamp : Z;
}.

Record Session := {
  userId : string;
  messages : list Message;
  createdAt : Z;
  lastActivityAt : Z;
}.

#[global] Instance Role_eq_dec : EqDecision Role.
Proof. solve_decision. Defined.
#[global] Instance Message_eq_dec : EqDecision Message.
Proof. solve_decision. Defined.
#[global] Instance Session_eq_dec : EqDecision Session.
Proof. solve_decision. Defined.

(** ** JSON texts: [JSON.stringify(session, null, 2)] and [JSON.parse] *)

Module JSON.

Definition dquote : ascii := "034"%char.
Definition backslash : ascii := "092"%char.
Definition newline : string := String "010"%char EmptyString.
Definition str1 (c : ascii) : string := String c EmptyString.

(** *** Printing *)

Definition hexdigit (n : nat) : ascii :=
  if (n <? 10)%nat then ascii_of_nat (48 + n) else ascii_of_nat (87 + n).

(** One character of a quoted string, as [JSON.stringify] writes it. *)
Definition escape_char (c : ascii) : string :=
  let n := nat_of_ascii c in
  if Ascii.eqb c dquote then String backslash (str1 dquote)
  else if Ascii.eqb c backslash then String backslash (str1 backslash)
  else if (n =? 8)%nat then String backslash "b"
  else if (n =? 9)%nat then String backslash "t"
  else if (n =? 10)%nat then String backslash "n"
  else if (n =? 12)%nat then String backslash "f"
  else if (n =? 13)%nat then String backslash "r"
  else if (n <? 32)%nat then
    String backslash ("u00" ++ String (hexdigit (n / 16)) (str1 (hexdigit (n mod 16))))
  else str1 c.

Fixpoint escape (s : string) : string :=
  match s with
  | String c s' => escape_char c ++ escape s'
  | EmptyString => EmptyString
  end.

Definition quote (s : string) : string :=
  String dquote (escape s ++ str1 dquote).

(** A property name followed by the separator that an indented
    [JSON.stringify] writes. *)
Definition key (name : string) : string := quote name ++ ": ".

Definition role_name (r : Role) : string :=
  match r with user => "user" | assistant => "assistant" end.

(** A message, as an element of the [messages] array (nesting depth 2). *)
Definition stringify_message (m : Message) : string :=
  "{" ++ newline ++
  "      " ++ key "role" ++ quote (role_name (role m)) ++ "," ++ newline ++
  "      " ++ key "content" ++ quote (content m) ++ "," ++ newline ++
  "      " ++ key "timestamp" ++ Js.string_of_Z (timestamp m) ++ newline ++
  "    }".

Definition stringify_messages (ms : list Message) : string :=
  match ms with
  | [] => "[]"
  | _ =>
      "[" ++ newline ++
      "    " ++ Js.join ("," ++ newline ++ "    ") (map stringify_message ms) ++ newline ++
      "  ]"
  end.

(** [JSON.stringify(session, null, 2)] for a [Session] whose properties
    were created in the order of the object literals of the program. *)
Definition stringify (s : Session) : string :=
  "{" ++ newline ++
  "  " ++ key "userId" ++ quote (userId s) ++ "," ++ newline ++
  "  " ++ key "messages" ++ stringify_messages (messages s) ++ "," ++ newline ++
  "  " ++ key "createdAt" ++ Js.string_of_Z (createdAt s) ++ "," ++ newline ++
  "  " ++ key "lastActivityAt" ++ Js.string_of_Z (lastActivityAt s) ++ newline ++
  "}".

(** *** Parsing *)

(** The values of JSON texts.  Strings are sequences of UTF-16 code
    units, since an escape can denote any of them.  A number written with
    a fraction or an exponent keeps its literal. *)
#[local] Unset Elimination Schemes.
Inductive json :=
| JNull
| JBool (b : bool)
| JNum (n : Z)
| JReal (literal : string)
| JStr (s : list N)
| JArr (l : list json)
| JObj (l : list (list N * json)).
#[local] Set Elimination Schemes.

Definition is_ws (c : ascii) : bool :=
  let n := nat_of_ascii c in
  ((n =? 32) || (n =? 9) || (n =? 10) || (n =? 13))%nat.

Fixpoint skip_ws (s : string) : string :=
  match s with
  | String c s' => if is_ws c then skip_ws s' else s
  | EmptyString => EmptyString
  end.

Definition is_digit (c : ascii) : bool :=
  let n := nat_of_ascii c in ((48 <=? n) && (n <=? 57))%nat.

Definition hexval (c : ascii) : option N :=
  let n := nat_of_ascii c in
  if ((48 <=? n) && (n <=? 57))%nat then Some (N.of_nat (n - 48))
  else if ((97 <=? n) && (n <=? 102))%nat then Some (N.of_nat (n - 87))
  else if ((65 <=? n) && (n <=? 70))%nat then Some (N.of_nat (n - 55))
  else None.

Definition hex4 (a b c d : ascii) : option N :=
  match hexval a, hexval b, hexval c, hexval d with
  | Some x, Some y, Some z, Some w => Some (((x * 16 + y) * 16 + z) * 16 + w)%N
  | _, _, _, _ => None
  end.

(** The code unit a one-letter escape stands for. *)
Definition simple_escape (c : ascii) : option N :=
  if Ascii.eqb c dquote then Some 34%N
  else if Ascii.eqb c backslash then Some 92%N
  else if Ascii.eqb c "/" then Some 47%N
  else if Ascii.eqb c "b" then Some 8%N
  else if Ascii.eqb c "f" then Some 12%N
  else if Ascii.eqb c "n" then Some 10%N
  else if Ascii.eqb c "r" then Some 13%N
  else if Ascii.eqb c "t" then Some 9%N
  else None.

Definition cons_chars (x : N) (r : option (list N * string)) : option (list N * string) :=
  match r with
  | Some (cs, rest) => Some (x :: cs, rest)
  | None => None
  end.

(** The characters of a string literal, read after its opening quote up
    to and including its closing quote. *)
Fixpoint parse_chars (s : string) : option (list N * string) :=
  match s with
  | EmptyString => None
  | String c r =>
      if Ascii.eqb c dquote then Some ([], r)
      else if Ascii.eqb c backslash then
        match r with
        | String e r1 =>
            if Ascii.eqb e "u" then
              match r1 with
              | String h1 (String h2 (String h3 (String h4 r2))) =>
                  match hex4 h1 h2 h3 h4 with
                  | Some x => cons_chars x (parse_chars r2)
                  | None => None
                  end
              | _ => None
              end
            else
              match simple_escape e with
              | Some x => cons_chars x (parse_chars r1)
              | None => None
              end
        | EmptyString => None
        end
      else if (nat_of_ascii c <? 32)%nat then None
      else cons_chars (N_of_ascii c) (parse_chars r)
  end.

(** The longest prefix of digits, and what follows it. *)
Fixpoint span_digits (s : string) : string * string :=
  match s with
  | String c s' =>
      if is_digit c then let (ds, rest) := span_digits s' in (String c ds, rest)
      else (EmptyString, s)
  | EmptyString => (EmptyString, EmptyString)
  end.

(** The optional fraction: [None] on a dot that no digit follows. *)
Definition parse_frac (s : string) : option (string * string) :=
  match s with
  | String "." r =>
      match span_digits r with
      | (EmptyString, _) => None
      | (fs, rest) => Some (String "." fs, rest)
      end
  | _ => Some (EmptyString, s)
  end.

(** The optional exponent: [None] on an exponent mark that no digit
    follows. *)
Definition parse_exp (s : string) : option (string * string) :=
  match s with
  | String c r =>
      if Ascii.eqb c "e" || Ascii.eqb c "E" then
        let (sign, r1) :=
          match r with
          | String "+" r' => ("+", r')
          | String "-" r' => ("-", r')
          | _ => (EmptyString, r)
          end in
        match span_digits r1 with
        | (EmptyString, _) => None
        | (es, rest) => Some (String c (sign ++ es), rest)
        end
      else Some (EmptyString, s)
  | EmptyString => Some (EmptyString, s)
  end.

Definition Z_of_digits (neg : bool) (ds : string) : Z :=
  match NilZero.uint_of_string ds with
  | Some u => Z.of_int (if neg then Decimal.Neg u else Decimal.Pos u)
  | None => 0%Z
  end.

Definition parse_number (s : string) : option (json * string) :=
  let (neg, s1) :=
    match s with
    | String "-" r => (true, r)
    | _ => (false, s)
    end in
  match span_digits s1 with
  | (EmptyString, _) => None
  | (String "0" (String _ _), _) => None
  | (ds, s2) =>
      match parse_frac s2 with
      | None => None
      | Some (frac, s3) =>
          match parse_exp s3 with
          | None => None
          | Some (exp, s4) =>
              match frac, exp with
              | EmptyString, EmptyString => Some (JNum (Z_of_digits neg ds), s4)
              | _, _ => Some (JReal ((if neg then "-" else EmptyString) ++ ds ++ frac ++ exp), s4)
              end
          end
      end
  end.

(** [expect w s]: [s] without its prefix [w]. *)
Fixpoint expect (w s : string) : option string :=
  match w with
  | EmptyString => Some s
  | String c w' =>
      match s with
      | String d s' => if Ascii.eqb c d then expect w' s' else None
      | EmptyString => None
      end
  end.

Definition literal (w : string) (v : json) (s : string) : option (json * string) :=
  match expect w s with
  | Some rest => Some (v, rest)
  | None => None
  end.

(** A value, the elements of an array after its bracket, the members of
    an object after its brace.  The recursion is on [fuel]; [parse] below
    supplies enough of it for any text. *)
Fixpoint parse_value (fuel : nat) (s : string) : option (json * string) :=
  match fuel with
  | O => None
  | S fuel =>
      match skip_ws s with
      | EmptyString => None
      | String c r =>
          if Ascii.eqb c "{" then
            match skip_ws r with
            | String "}" r' => Some (JObj [], r')
            | _ =>
                match parse_members fuel r with
                | Some (ms, r') => Some (JObj ms, r')
                | None => None
                end
            end
          else if Ascii.eqb c "[" then
            match skip_ws r with
            | String "]" r' => Some (JArr [], r')
            | _ =>
                match parse_elements fuel r with
                | Some (vs, r') => Some (JArr vs, r')
                | None => None
                end
            end
          else if Ascii.eqb c dquote then
            match parse_chars r with
            | Some (cs, r') => Some (JStr cs, r')
            | None => None
            end
          else if Ascii.eqb c "t" then literal "rue" (JBool true) r
          else if Ascii.eqb c "f" then literal "alse" (JBool false) r
          else if Ascii.eqb c "n" then literal "ull" JNull r
          else parse_number (String c r)
      end
  end
with parse_elements (fuel : nat) (s : string) : option (list json * string) :=
  match fuel with
  | O => None
  | S fuel =>
      match parse_value fuel s with
      | None => None
      | Some (v, r) =>
          match skip_ws r with
          | String "," r' =>
              match parse_elements fuel r' with
              | Some (vs, r'') => Some (v :: vs, r'')
              | None => None
              end
          | String "]" r' => Some ([v], r')
          | _ => None
          end
      end
  end
with parse_members (fuel : nat) (s : string) : option (list (list N * json) * string) :=
  match fuel with
  | O => None
  | S fuel =>
      match skip_ws s with
      | String c r =>
          if Ascii.eqb c dquote then
            match parse_chars r with
            | None => None
            | Some (k, r1) =>
                match skip_ws r1 with
                | String ":" r2 =>
                    match parse_value fuel r2 with
                    | None => None
                    | Some (v, r3) =>
                        match skip_ws r3 with
                        | String "," r4 =>
                            match parse_members fuel r4 with
                            | Some (ms, r5) => Some ((k, v) :: ms, r5)
                            | None => None
                            end
                        | String "}" r4 => Some ([(k, v)], r4)
                        | _ => None
                        end
                    end
                | _ => None
                end
            end
          else None
      | EmptyString => None
      end
  end.

(** [JSON.parse]: [None] stands for the [SyntaxError] it throws.  Nesting
    a value costs two units of fuel and a further element or member one,
    each for at least one character of the text. *)
Definition parse (text : string) : option json :=
  match parse_value (2 * String.length text + 2) text with
  | Some (v, rest) =>
      match skip_ws rest with
      | EmptyString => Some v
      | String _ _ => None
      end
  | None => None
  end.

(** *** Parsed values that are sessions *)

Definition code_units (s : string) : list N :=
  map N_of_ascii (list_ascii_of_string s).

Fixpoint narrow (cs : list N) : option string :=
  match cs with
  | [] => Some EmptyString
  | c :: cs' =>
      if (c <? 256)%N then
        match narrow cs' with
        | Some s => Some (String (ascii_of_N c) s)
        | None => None
        end
      else None
  end.

Definition is_key (name : string) (k : list N) : bool :=
  bool_decide (k = code_units name).

Definition as_role (cs : list N) : option Role :=
  if is_key "user" cs then Some user
  else if is_key "assistant" cs then Some assistant
  else None.

Definition as_message (j : json) : option Message :=
  match j with
  | JObj [(k1, JStr r); (k2, JStr c); (k3, JNum t)] =>
      if is_key "role" k1 && is_key "content" k2 && is_key "timestamp" k3 then
        match as_role r, narrow c with
        | Some r', Some c' => Some {| role := r'; content := c'; timestamp := t |}
        | _, _ => None
        end
      else None
  | _ => None
  end.

Fixpoint as_messages (l : list json) : option (list Message) :=
  match l with
  | [] => Some []
  | j :: l' =>
      match as_message j, as_messages l' with
      | Some m, Some ms => Some (m :: ms)
      | _, _ => None
      end
  end.

(** The [Session] that a parsed value is, when it has exactly the shape
    that [stringify] writes; the unchecked annotation
    [const session: Session = JSON.parse(content)] is sound for these. *)
Definition as_session (j : json) : option Session :=
  match j with
  | JObj [(k1, JStr u); (k2, JArr ms); (k3, JNum c); (k4, JNum a)] =>
      if is_key "userId" k1 && is_key "messages" k2 &&
         is_key "createdAt" k3 && is_key "lastActivityAt" k4 then
        match narrow u, as_messages ms with
        | Some u', Some ms' =>
            Some {| userId := u'; messages := ms'; createdAt := c; lastActivityAt := a |}
        | _, _ => None
        end
      else None
  | _ => None
  end.

End JSON.


(** ** The environment *)

(** A JavaScript [Error]: its [message], and the [stdout] property that
    [execCommand] attaches to some of its rejections. *)
Record Error := {
  message : string;
  stdout : option string;
}.

Definition mkError (msg : string) : Error := {| message := msg; stdout := None |}.

(** What a spawned child process does, as [execCommand] observes it: an
    ['error'] event, the expiry of the timer before the process closes
    (with the output produced until then), or a ['close'] event with the
    exit code ([None]: the process was ended by a signal) and the output. *)
Inductive ProcOutcome :=
| SpawnError (msg : string)
| TimedOut (out err : string)
| Closed (code : option Z) (out err : string).

(** Lines written with [console.log], [console.error]. *)
Inductive LogEntry :=
| LogLoaded (n : nat)
| LogNoSessions
| LogResuming (handle userId : string)
| LogCreating (handle userId : string)
| LogExecuting (workDir : string)
| LogQuery (query : string)
| LogExecutionError (e : Error)
| LogCleared (handle : option string) (userId : string).

Record World := {
  (** the session directory: [None] when it does not exist, else its
      entries (name, text) in [readdir] order *)
  disk : option (list (string * string));
  (** the [n]-th reading of [Date.now()], and how many were taken *)
  clock : nat -> Z;
  ticks : nat;
  (** whether the [n]-th file-system call fails ([Some msg]) of its own,
      and how many calls were made *)
  io_fault : nat -> option string;
  io_calls : nat;
  (** what a failed [n]-th call had done to the file when it is a write:
      [None], nothing, the call fails before the file is opened; [Some k],
      the file was opened, which empties it, and [k] code units of the
      text were written before the failure *)
  io_cut : nat -> option nat;
  (** the [n]-th value of [crypto.randomUUID()] *)
  uuid : nat -> string;
  uuids : nat;
  (** what the [n]-th spawned process does, given its command line *)
  shell : nat -> string -> ProcOutcome;
  spawns : nat;
  console : list LogEntry;
}.

(** ** Objects *)

Record SessionManager := {
  sessionDir : string;
  sessions : gmap string Session;
  maxMessagesPerSession : Z;
}.

Record ClaudeExecutor := {
  workDir : string;
  (** whether the optional [sessionManager] reference is set; it refers to
      the one manager of the process *)
  sessionManager : bool;
  userSessionIds : gmap string string;
}.

Record ClaudeResponse := {
  success : bool;
  output : string;
  error : option string;
}.

(** The state of the process: the two objects and the environment. *)
Record State := {
  manager : SessionManager;
  executor : ClaudeExecutor;
  world : World;
}.

(** ** Computations *)

(** [Unsound] is the outcome of a run that took a parsed value of another
    shape for a [Session]: the typed model does not follow the program
    further.  It is not an exception, and no handler catches it. *)
Inductive Result (A : Type) :=
| Ok (a : A)
| Raise (e : Error)
| Unsound.
Arguments Ok {A} a.
Arguments Raise {A} e.
Arguments Unsound {A}.

Definition M (A : Type) : Type := State -> Result A * State.

Definition ret {A} (a : A) : M A := fun st => (Ok a, st).

Definition raise {A} (e : Error) : M A := fun st => (Raise e, st).

Definition unsound {A} : M A := fun st => (Unsound, st).

Definition bind {A B} (m : M A) (k : A -> M B) : M B :=
  fun st =>
    match m st with
    | (Ok a, st') => k a st'
    | (Raise e, st') => (Raise e, st')
    | (Unsound, st') => (Unsound, st')
    end.

(** [try { m } catch (e) { h e }] *)
Definition try_catch {A} (m : M A) (h : Error -> M A) : M A :=
  fun st =>
    match m st with
    | (Raise e, st') => h e st'
    | r => r
    end.

Notation "x <- m ;; k" := (bind m (fun x => k))
  (at level 100, m at next level, right associativity).
Notation "m ;;; k" := (bind m (fun _ => k))
  (at level 100, right associativity).

Definition get : M State := fun st => (Ok st, st).
Definition put (st : State) : M unit := fun _ => (Ok tt, st).
Definition modify (f : State -> State) : M unit := fun st => (Ok tt, f st).

(** [for (const x of l) body(x)] *)
Fixpoint for_of {A} (l : list A) (body : A -> M unit) : M unit :=
  match l with
  | [] => ret tt
  | x :: l' => body x ;;; for_of l' body
  end.

Definition set_world (f : World -> World) (st : State) : State :=
  {| manager := manager st; executor := executor st; world := f (world st) |}.

Definition set_manager (f : SessionManager -> SessionManager) (st : State) : State :=
  {| manager := f (manager st); executor := executor st; world := world st |}.

Definition set_executor (f : ClaudeExecutor -> ClaudeExecutor) (st : State) : State :=
  {| manager := manager st; executor := f (executor st); world := world st |}.

Definition with_disk (d : option (list (string * string))) (w : World) : World :=
  {| disk := d; clock := clock w; ticks := ticks w;
     io_fault := io_fault w; io_calls := io_calls w;
     io_cut := io_cut w;
     uuid := uuid w; uuids := uuids w; shell := shell w; spawns := spawns w;
     console := console w |}.

(** *** Environment calls *)

(** [Date.now()] *)
Definition now : M Z :=
  fun st =>
    let w := world st in
    (Ok (clock w (ticks w)),
     set_world (fun w =>
       {| disk := disk w; clock := clock w; ticks := S (ticks w);
          io_fault := io_fault w; io_calls := io_calls w;
          io_cut := io_cut w;
          uuid := uuid w; uuids := uuids w; shell := shell w; spawns := spawns w;
          console := console w |}) st).

(** [crypto.randomUUID()] *)
Definition randomUUID : M string :=
  fun st =>
    let w := world st in
    (Ok (uuid w (uuids w)),
     set_world (fun w =>
       {| disk := disk w; clock := clock w; ticks := ticks w;
          io_fault := io_fault w; io_calls := io_calls w;
          io_cut := io_cut w;
          uuid := uuid w; uuids := S (uuids w); shell := shell w; spawns := spawns w;
          console := console w |}) st).

Definition log (e : LogEntry) : M unit :=
  modify (set_world (fun w =>
    {| disk := disk w; clock := clock w; ticks := ticks w;
       io_fault := io_fault w; io_calls := io_calls w;
       io_cut := io_cut w;
       uuid := uuid w; uuids := uuids w; shell := shell w; spawns := spawns w;
       console := (console w ++ [e])%list |})).

(** The child process that [spawn(command, ...)] starts. *)
Definition spawn (command : string) : M ProcOutcome :=
  fun st =>
    let w := world st in
    (Ok (shell w (spawns w) command),
     set_world (fun w =>
       {| disk := disk w; clock := clock w; ticks := ticks w;
          io_fault := io_fault w; io_calls := io_calls w;
          io_cut := io_cut w;
          uuid := uuid w; uuids := uuids w; shell := shell w; spawns := S (spawns w);
          console := console w |}) st).

(** *** The file system ([fs/promises]) *)

Module fs.

(** Every call is counted; the fault oracle may fail it. *)
Definition call : M unit :=
  fun st =>
    let w := world st in
    let st' := set_world (fun w =>
      {| disk := disk w; clock := clock w; ticks := ticks w;
         io_fault := io_fault w; io_calls := S (io_calls w);
         io_cut := io_cut w;
         uuid := uuid w; uuids := uuids w; shell := shell w; spawns := spawns w;
         console := console w |}) st in
    match io_fault w (io_calls w) with
    | Some msg => (Raise (mkError msg), st')
    | None => (Ok tt, st')
    end.

Definition ENOENT : Error := mkError "ENOENT: no such file or directory".

Fixpoint lookup_file (name : string) (d : list (string * string)) : option string :=
  match d with
  | [] => None
  | (n, text) :: d' => if String.eqb n name then Some text else lookup_file name d'
  end.

(** An existing entry keeps its place; a new one comes last. *)
Definition store_file (name text : string) (d : list (string * string)) : list (string * string) :=
  match lookup_file name d with
  | Some _ =>
      map (fun entry => if String.eqb (fst entry) name then (fst entry, text) else entry) d
  | None => (d ++ [(name, text)])%list
  end.

Definition remove_file (name : string) (d : list (string * string)) : list (string * string) :=
  List.filter (fun entry => negb (String.eqb (fst entry) name)) d.

(** [fs.mkdir(dir, { recursive: true })] *)
Definition mkdir : M unit :=
  call ;;;
  modify (fun st =>
    match disk (world st) with
    | None => set_world (with_disk (Some [])) st
    | Some _ => st
    end).

(** [fs.readdir(dir)] *)
Definition readdir : M (list string) :=
  call ;;;
  st <- get ;;
  match disk (world st) with
  | None => raise ENOENT
  | Some d => ret (map fst d)
  end.

(** [fs.readFile(file, 'utf-8')] *)
Definition readFile (name : string) : M string :=
  call ;;;
  st <- get ;;
  match disk (world st) with
  | None => raise ENOENT
  | Some d =>
      match lookup_file name d with
      | None => raise ENOENT
      | Some text => ret text
      end
  end.

(** [fs.writeFile(file, text, 'utf-8')].  The file is opened, which
    creates or empties it, and the text is written.  A call that the
    environment fails after it has opened the file leaves the record cut
    short; one that it fails before leaves the directory as it was. *)
Definition writeFile (name text : string) : M unit :=
  st0 <- get ;;
  try_catch call
    (fun e =>
       match io_cut (world st0) (io_calls (world st0)), disk (world st0) with
       | Some k, Some d =>
           modify (set_world (with_disk (Some (store_file name (substring 0 k text) d))))
       | _, _ => ret tt
       end ;;;
       raise e) ;;;
  st <- get ;;
  match disk (world st) with
  | None => raise ENOENT
  | Some d => put (set_world (with_disk (Some (store_file name text d))) st)
  end.

(** [fs.unlink(file)] *)
Definition unlink (name : string) : M unit :=
  call ;;;
  st <- get ;;
  match disk (world st) with
  | None => raise ENOENT
  | Some d =>
      match lookup_file name d with
      | None => raise ENOENT
      | Some _ => put (set_world (with_disk (Some (remove_file name d))) st)
      end
  end.

End fs.

(** ** [class SessionManager] ([session-manager.ts]) *)

Record Stats := {
  totalSessions : nat;
  totalMessages : nat;
}.

Module SessionManager.

(** [new SessionManager(sessionDir, maxMessagesPerSession = 50)] *)
Definition new (dir : string) (max : option Z) : SessionManager :=
  {| sessionDir := dir; sessions := ∅; maxMessagesPerSession := default 50%Z max |}.

(** [path.join(this.sessionDir, `${userId}.json`)], as an entry of the
    session directory. *)
Definition sessionFile (userId : string) : string := userId ++ ".json".

(** [this.sessions.get], [.set], [.delete] *)
Definition sessions_get (userId : string) : M (option Session) :=
  st <- get ;; ret (sessions (manager st) !! userId).

Definition sessions_set (userId : string) (session : Session) : M unit :=
  modify (set_manager (fun m =>
    {| sessionDir := sessionDir m;
       sessions := <[userId := session]> (sessions m);
       maxMessagesPerSession := maxMessagesPerSession m |})).

Definition sessions_delete (userId : string) : M unit :=
  modify (set_manager (fun m =>
    {| sessionDir := sessionDir m;
       sessions := delete userId (sessions m);
       maxMessagesPerSession := maxMessagesPerSession m |})).

(** An assignment to a property of the session object that the map holds
    for [userId]: the object is shared, the map sees the change. *)
Definition mutate (userId : string) (f : Session -> Session) : M unit :=
  modify (set_manager (fun m =>
    {| sessionDir := sessionDir m;
       sessions := alter f userId (sessions m);
       maxMessagesPerSession := maxMessagesPerSession m |})).

Definition set_messages (ms : list Message) (s : Session) : Session :=
  {| userId := userId s; messages := ms;
     createdAt := createdAt s; lastActivityAt := lastActivityAt s |}.

Definition set_lastActivityAt (t : Z) (s : Session) : Session :=
  {| userId := userId s; messages := messages s;
     createdAt := createdAt s; lastActivityAt := t |}.

(** [private async saveSession(userId)] *)
Definition saveSession (userId : string) : M unit :=
  o <- sessions_get userId ;;
  match o with
  | None => ret tt
  | Some session => fs.writeFile (sessionFile userId) (JSON.stringify session)
  end.

(** [async getSession(userId)] *)
Definition getSession (userId : string) : M Session :=
  o <- sessions_get userId ;;
  match o with
  | Some session => ret session
  | None =>
      t1 <- now ;;
      t2 <- now ;;
      let session :=
        {| userId := userId; messages := []; createdAt := t1; lastActivityAt := t2 |} in
      sessions_set userId session ;;;
      saveSession userId ;;;
      ret session
  end.

(** [async addMessage(userId, role, content)] *)
Definition addMessage (userId : string) (role : Role) (content : string) : M unit :=
  session <- getSession userId ;;
  t <- now ;;
  let pushed :=
    (messages session ++ [{| role := role; content := content; timestamp := t |}])%list in
  mutate userId (set_messages pushed) ;;;
  st <- get ;;
  let max := maxMessagesPerSession (manager st) in
  (if (max <? Z.of_nat (List.length pushed))%Z
   then mutate userId (set_messages (Js.slice (- max) pushed))
   else ret tt) ;;;
  t' <- now ;;
  mutate userId (set_lastActivityAt t') ;;;
  saveSession userId.

(** [async getHistory(userId, lastN?)] *)
Definition getHistory (userId : string) (lastN : option Z) : M (list Message) :=
  session <- getSession userId ;;
  match lastN with
  | Some n =>
      if Js.truthy_number n then ret (Js.slice (- n) (messages session))
      else ret (messages session)
  | None => ret (messages session)
  end.

(** [async clearSession(userId)] *)
Definition clearSession (userId : string) : M unit :=
  sessions_delete userId ;;;
  try_catch (fs.unlink (sessionFile userId)) (fun _ => ret tt).

Definition render (msg : Message) : string :=
  (match role msg with user => "User" | assistant => "Assistant" end)
  ++ ": " ++ content msg.

(** [async getConversationContext(userId, lastN = 10)] *)
Definition getConversationContext (userId : string) (lastN : option Z) : M string :=
  history <- getHistory userId (Some (default 10%Z lastN)) ;;
  if (List.length history =? 0)%nat then ret EmptyString
  else
    let context := Js.join (JSON.newline ++ JSON.newline) (map render history) in
    ret ("Previous conversation:" ++ JSON.newline ++ context
         ++ JSON.newline ++ JSON.newline ++ "Current query:").

(** [const session: Session = JSON.parse(content)] and the read of
    [session.userId] that follows it.  [JSON.parse] throws on a text that
    is no JSON, and reading [userId] throws on [null].  A value with the
    members of a session in the order of [JSON.stringify] is that session.
    Of any other value (a number, an object with other members, or with
    the members in another order, which JavaScript keeps and writes back)
    the program stores whatever it parsed under whatever [userId] reads;
    the typed map of the model has no place for it, and the run is marked
    [Unsound]. *)
Definition parse_session (content : string) : M Session :=
  match JSON.parse content with
  | None => raise (mkError "SyntaxError: the text is not JSON")
  | Some j =>
      match JSON.as_session j with
      | Some session => ret session
      | None =>
          match j with
          | JSON.JNull => raise (mkError "TypeError: cannot read properties of null")
          | _ => unsound
          end
      end
  end.

(** The body of the loop of [loadSessions], for one directory entry. *)
Definition load_entry (file : string) : M unit :=
  if negb (Js.endsWith file ".json") then ret tt
  else
    content <- fs.readFile file ;;
    session <- parse_session content ;;
    sessions_set (userId session) session.

(** [private async loadSessions()] *)
Definition loadSessions : M unit :=
  try_catch
    (files <- fs.readdir ;;
     for_of files load_entry ;;;
     st <- get ;;
     log (LogLoaded (size (sessions (manager st)))))
    (fun _ => log LogNoSessions).

(** [async initialize()] *)
Definition initialize : M unit :=
  fs.mkdir ;;;
  loadSessions.

(** [getStats()] *)
Definition getStats : M Stats :=
  st <- get ;;
  ret {| totalSessions := size (sessions (manager st));
         totalMessages :=
           map_fold (fun _ session total => (total + List.length (messages session))%nat)
                    0%nat (sessions (manager st)) |}.

End SessionManager.

(** ** [claude-executor.ts] *)

Module ClaudeExecutor.

(** [new ClaudeExecutor(workDir, sessionManager?)] *)
Definition new (dir : string) (withManager : bool) : ClaudeExecutor :=
  {| workDir := dir; sessionManager := withManager; userSessionIds := ∅ |}.

(** The exit code as a template literal prints it. *)
Definition exit_code_name (code : option Z) : string :=
  match code with
  | Some c => Js.string_of_Z c
  | None => "null"
  end.

(** [code === 0] *)
Definition is_zero (code : option Z) : bool :=
  match code with
  | Some c => (c =? 0)%Z
  | None => false
  end.

(** [function execCommand(command, { cwd, timeout, env })], for the
    non-zero timeouts that the executor passes: the timer is armed. *)
Definition execCommand (command : string) (timeout : Z) : M (string * string) :=
  o <- spawn command ;;
  match o with
  | SpawnError msg => raise (mkError msg)
  | TimedOut _ _ =>
      raise (mkError ("Command timed out after " ++ Js.string_of_Z timeout ++ "ms"))
  | Closed code out err =>
      if is_zero code || Js.truthy_string out || Js.truthy_string err
      then ret (out, err)
      else raise {| message := "Command failed with exit code " ++ exit_code_name code;
                    stdout := Some out |}
  end.

(** [private generateSessionId()] *)
Definition generateSessionId : M string := randomUUID.

(** [private escapeQuery(query)] *)
Definition escapeQuery (query : string) : string :=
  Js.replaceAll "$" (String JSON.backslash "$")
    (Js.replaceAll "`" (String JSON.backslash "`")
      (Js.replaceAll JSON.dquote (String JSON.backslash (JSON.str1 JSON.dquote)) query)).

(** A text between double quotes, as the command templates have it. *)
Definition quoted (s : string) : string :=
  String JSON.dquote (s ++ JSON.str1 JSON.dquote).

(** [this.userSessionIds.set], [.delete] *)
Definition set_userSessionId (userId handle : string) : M unit :=
  modify (set_executor (fun e =>
    {| workDir := workDir e; sessionManager := sessionManager e;
       userSessionIds := <[userId := handle]> (userSessionIds e) |})).

Definition delete_userSessionId (userId : string) : M unit :=
  modify (set_executor (fun e =>
    {| workDir := workDir e; sessionManager := sessionManager e;
       userSessionIds := delete userId (userSessionIds e) |})).

(** The handle under which the query runs: [existingSessionId] when it is
    truthy. *)
Definition existing (o : option string) : option string :=
  match o with
  | Some h => if Js.truthy_string h then Some h else None
  | None => None
  end.

(** [async executeQuery(query, userId)] *)
Definition executeQuery (query userId : string) : M ClaudeResponse :=
  try_catch
    (st <- get ;;
     command <-
       match existing (userSessionIds (executor st) !! userId) with
       | Some existingSessionId =>
           log (LogResuming existingSessionId userId) ;;;
           ret ("claude --resume " ++ quoted existingSessionId
                ++ " -p " ++ quoted (escapeQuery query))
       | None =>
           newSessionId <- generateSessionId ;;
           log (LogCreating newSessionId userId) ;;;
           set_userSessionId userId newSessionId ;;;
           ret ("claude --session-id " ++ quoted newSessionId
                ++ " -p " ++ quoted (escapeQuery query))
       end ;;
     log (LogExecuting (workDir (executor st))) ;;;
     log (LogQuery (substring 0 50 query)) ;;;
     r <- execCommand command 300000 ;;
     let (out, err) := r in
     let output := Js.or_string (Js.trim out) (Js.trim err) in
     (if sessionManager (executor st)
      then SessionManager.addMessage userId user query ;;;
           SessionManager.addMessage userId assistant output
      else ret tt) ;;;
     ret {| success := true;
            output := Js.or_string output
                        (Js.or_string err "Command executed successfully (no output)");
            error := None |})
    (fun e =>
       log (LogExecutionError e) ;;;
       ret {| success := false;
              output := Js.or_string (default EmptyString (stdout e)) EmptyString;
              error := Some (Js.or_string (message e) "Unknown error occurred") |}).

(** [clearSession(userId)] *)
Definition clearSession (userId : string) : M unit :=
  st <- get ;;
  let oldSessionId := userSessionIds (executor st) !! userId in
  delete_userSessionId userId ;;;
  log (LogCleared oldSessionId userId).

(** [async initialize()].  The executor's [sessionDir] is the directory
    that [index.ts] gives to the manager: [path.join(process.cwd(),
    'sessions')]. *)
Definition initialize : M unit :=
  try_catch fs.mkdir (fun e => log (LogExecutionError e)).

(** [async executeBashCommand(command)].  Of the console line that
    announces the command, the working directory is recorded. *)
Definition executeBashCommand (command : string) : M ClaudeResponse :=
  try_catch
    (st <- get ;;
     log (LogExecuting (workDir (executor st))) ;;;
     r <- execCommand command 60000 ;;
     let (out, err) := r in
     ret {| success := true;
            output := Js.or_string out (Js.or_string err "Command executed successfully");
            error := None |})
    (fun e =>
       log (LogExecutionError e) ;;;
       ret {| success := false;
              output := Js.or_string (default EmptyString (stdout e)) EmptyString;
              error := Some (Js.or_string (message e) "Command failed") |}).

(** [async checkClaudeAvailability()] *)
Definition checkClaudeAvailability : M bool :=
  try_catch
    (execCommand "claude --version" 5000 ;;; ret true)
    (fun _ => ret false).

(** [async getTrainingLogs(logFile, lines = 50)] *)
Definition getTrainingLogs (logFile : string) (lines : option Z) : M string :=
  result <- executeBashCommand
              ("tail -n " ++ Js.string_of_Z (default 50%Z lines) ++ " " ++ quoted logFile) ;;
  ret (Js.or_string (output result) "No logs found").

(** [async getTmuxLogs(sessionName, lines = 50)] *)
Definition getTmuxLogs (sessionName : string) (lines : option Z) : M string :=
  checkResult <- executeBashCommand
                   ("tmux list-sessions 2>/dev/null | grep -q "
                    ++ quoted ("^" ++ sessionName ++ ":")
                    ++ " && echo " ++ quoted "exists" ++ " || echo " ++ quoted "not found") ;;
  if String.eqb (Js.trim (output checkResult)) "not found"
  then
    listing <- executeBashCommand
                 ("tmux list-sessions 2>/dev/null || echo " ++ quoted "No tmux sessions found") ;;
    ret ("Tmux session " ++ quoted sessionName ++ " not found." ++ JSON.newline ++ JSON.newline
         ++ "Available sessions:" ++ JSON.newline ++ output listing)
  else
    result <- executeBashCommand
                ("tmux capture-pane -p -t " ++ quoted sessionName
                 ++ " -S -" ++ Js.string_of_Z (default 50%Z lines)
                 ++ " 2>/dev/null || echo " ++ quoted "Failed to capture tmux output") ;;
    ret (Js.or_string (output result) "No output captured").

(** [async checkProcesses(processName)] *)
Definition checkProcesses (processName : string) : M string :=
  result <- executeBashCommand
              ("ps aux | grep " ++ quoted processName
               ++ " | grep -v grep || echo " ++ quoted "No processes found") ;;
  ret (output result).

End ClaudeExecutor.

(** ** [telegram-bot.ts]: the [/clear] command, start-up, long messages *)

Module RemoteAssistantBot.

(** The body of the handler, for an authorized sender, up to the
    confirmation message. *)
Definition onClear (userId : string) : M unit :=
  SessionManager.clearSession userId ;;;
  ClaudeExecutor.clearSession userId.

(** [async initialize()], up to the registration of the handlers. *)
Definition initialize : M unit :=
  ClaudeExecutor.initialize ;;;
  SessionManager.initialize.

(** [const MAX_LENGTH = 4000] of [sendLongMessage]. *)
Definition MAX_LENGTH : nat := 4000.

(** The body of the loop over the lines of [sendLongMessage], on the pair
    of [chunks] and [currentChunk]. *)
Definition chunk_step (acc : list string * string) (line : string) : list string * string :=
  let (chunks, currentChunk) := acc in
  if (MAX_LENGTH <? String.length (currentChunk ++ line ++ JSON.newline))%nat
  then ((chunks ++ [currentChunk])%list, line ++ JSON.newline)
  else (chunks, currentChunk ++ line ++ JSON.newline).

(** The chunks that [sendLongMessage] makes of a text that is too long. *)
Definition chunks_of (text : string) : list string :=
  let (chunks, currentChunk) :=
    fold_left chunk_step (Js.split "010"%char text) ([], EmptyString) in
  if Js.truthy_string currentChunk then (chunks ++ [currentChunk])%list else chunks.

(** [private async sendLongMessage(chatId, text, parseMode?)]: the texts
    handed to [bot.sendMessage], in order.  The header of a part, whose
    text has a character outside the 8-bit strings, is kept apart from the
    chunk that follows it: [Some (k, n)] stands for the header of part [k]
    of [n], [None] for the empty header. *)
Definition sendLongMessage (text : string) : list (option (nat * nat) * string) :=
  if (String.length text <=? MAX_LENGTH)%nat then [(None, text)]
  else
    let chunks := chunks_of text in
    imap (fun i chunk =>
            (if (i =? 0)%nat then None else Some ((i + 1)%nat, List.length chunks), chunk))
         chunks.

End RemoteAssistantBot.

(** * Properties *)

(** ** Vocabulary *)

(** The last [n] elements of a list, in their order. *)
Definition last_n {A} (n : nat) (l : list A) : list A :=
  drop (List.length l - n) l.

(** The truncation of [addMessage]: the test and the slice together. *)
Definition truncate {A} (max : Z) (l : list A) : list A :=
  if (max <? Z.of_nat (List.length l))%Z then Js.slice (- max) l else l.

(** What a call to [addMessage] appends: a role and a text. *)
Definition turn (m : Message) : Role * string := (role m, content m).

(** The messages held in memory for a user; none when there is no session. *)
Definition stored (st : State) (userId : string) : list Message :=
  match sessions (manager st) !! userId with
  | Some session => messages session
  | None => []
  end.

(** The session that [getSession] creates in a given environment. *)
Definition fresh_session (userId : string) (w : World) : Session :=
  {| userId := userId; messages := [];
     createdAt := clock w (ticks w); lastActivityAt := clock w (S (ticks w)) |}.

(** Whether a call to [getSession] would raise. *)
Definition creation_fails (st : State) (userId : string) : bool :=
  match fst (SessionManager.getSession userId st) with
  | Ok _ => false
  | _ => true
  end.

(** A sequence of [addMessage] calls for one user.  Each call is awaited,
    whether it returns or raises, before the next one is made. *)
Fixpoint addMessages (userId : string) (calls : list (Role * string)) (st : State) : State :=
  match calls with
  | [] => st
  | (r, c) :: rest => addMessages userId rest (snd (SessionManager.addMessage userId r c st))
  end.

(** The value that a computation returned. *)
Definition returned {A} (r : Result A) : option A :=
  match r with
  | Ok a => Some a
  | _ => None
  end.

(** The text stored in the session directory under a name. *)
Definition record (w : World) (name : string) : option string :=
  match disk w with
  | Some d => fs.lookup_file name d
  | None => None
  end.

(** The next file-system call is not failed by the environment. *)
Definition next_io_ok (st : State) : Prop :=
  io_fault (world st) (io_calls (world st)) = None.

(** The directory is [d], and no file-system call to come is failed by
    the environment. *)
Definition healthy (d : list (string * string)) (st : State) : Prop :=
  disk (world st) = Some d /\
  forall k, io_fault (world st) (io_calls (world st) + k) = None.

(** The text that [getConversationContext] builds from the selected
    messages, following the wording of the specification. *)
Definition context_text (selected : list Message) : string :=
  "Previous conversation:" ++ JSON.newline ++
  Js.join (JSON.newline ++ JSON.newline)
    (map (fun m => match role m with
                   | user => "User: " ++ content m
                   | assistant => "Assistant: " ++ content m
                   end) selected) ++
  JSON.newline ++ JSON.newline ++ "Current query:".

(** The ways in which an invocation fails according to the specification:
    spawn error, timeout, non-zero exit. *)
Definition claimed_failure (o : ProcOutcome) : Prop :=
  match o with
  | SpawnError _ => True
  | TimedOut _ _ => True
  | Closed code _ _ => ClaudeExecutor.is_zero code = false
  end.

(** The ways in which [execCommand] rejects: spawn error, timeout, and a
    non-zero exit of a process that wrote nothing. *)
Definition invocation_fails (o : ProcOutcome) : Prop :=
  match o with
  | SpawnError _ => True
  | TimedOut _ _ => True
  | Closed code out err =>
      ClaudeExecutor.is_zero code = false /\ out = EmptyString /\ err = EmptyString
  end.

(** The error description of a failed invocation of [executeQuery]. *)
Definition failure_description (o : ProcOutcome) : string :=
  Js.or_string
    match o with
    | SpawnError msg => msg
    | TimedOut _ _ => "Command timed out after 300000ms"
    | Closed code _ _ => "Command failed with exit code " ++ ClaudeExecutor.exit_code_name code
    end
    "Unknown error occurred".

(** The handles after [executeQuery]: a truthy handle is kept; otherwise
    the next UUID is stored for the user. *)
Definition handles_after (st : State) (uid : string) : gmap string string :=
  match ClaudeExecutor.existing (userSessionIds (executor st) !! uid) with
  | Some _ => userSessionIds (executor st)
  | None => <[uid := uuid (world st) (uuids (world st))]> (userSessionIds (executor st))
  end.

(** *** Records and their texts *)

(** The session that a text is the record of. *)
Definition decode (text : string) : option Session :=
  match JSON.parse text with
  | Some j => JSON.as_session j
  | None => None
  end.

(** The values that the records of a message and of a session parse to. *)
Definition message_json (m : Message) : JSON.json :=
  JSON.JObj
    [ (JSON.code_units "role", JSON.JStr (JSON.code_units (JSON.role_name (role m))));
      (JSON.code_units "content", JSON.JStr (JSON.code_units (content m)));
      (JSON.code_units "timestamp", JSON.JNum (timestamp m)) ].

Definition session_json (s : Session) : JSON.json :=
  JSON.JObj
    [ (JSON.code_units "userId", JSON.JStr (JSON.code_units (userId s)));
      (JSON.code_units "messages", JSON.JArr (map message_json (messages s)));
      (JSON.code_units "createdAt", JSON.JNum (createdAt s));
      (JSON.code_units "lastActivityAt", JSON.JNum (lastActivityAt s)) ].

(** Texts made of white space. *)
Fixpoint all_ws (s : string) : bool :=
  match s with
  | EmptyString => true
  | String c s' => JSON.is_ws c && all_ws s'
  end.

(** What may follow an integer in a record: a comma or a line break. *)
Definition number_stop (rest : string) : Prop :=
  match rest with
  | EmptyString => True
  | String c _ => c = ","%char \/ c = "010"%char
  end.

(** How an integer literal starts: with a digit or the sign. *)
Definition number_start (s : string) : Prop :=
  match s with
  | EmptyString => False
  | String c _ => JSON.is_digit c = true \/ c = "-"%char
  end.

(** Decimal numerals without a superfluous leading zero. *)
Definition canonical (u : Decimal.uint) : Prop :=
  match u with
  | Decimal.Nil => False
  | Decimal.D0 Decimal.Nil => True
  | Decimal.D0 _ => False
  | _ => True
  end.

(** What the loop of [loadSessions] needs of a directory entry: a [.json]
    entry decodes; the entry of the user decodes to the session, any other
    to a session of another user. *)
Definition loadable (d : list (string * string)) (uid : string) (s : Session) (name : string) : Prop :=
  Js.endsWith name ".json" = true ->
  exists text s',
    fs.lookup_file name d = Some text /\ decode text = Some s' /\
    (name = SessionManager.sessionFile uid -> s' = s) /\
    (name <> SessionManager.sessionFile uid -> userId s' <> uid).

(** *** Calls and what they keep *)

(** The calls that the chat front end makes on the manager and on the
    executor.  Each is awaited before the next one is made. *)
Inductive Call :=
| GetSession (userId : string)
| AddMessage (userId : string) (role : Role) (content : string)
| GetHistory (userId : string) (lastN : option Z)
| GetConversationContext (userId : string) (lastN : option Z)
| ClearSession (userId : string)
| GetStats
| ExecuteQuery (query userId : string)
| OnClear (userId : string).

(** The state that a call leaves, whether it returns or raises. *)
Definition perform (c : Call) (st : State) : State :=
  match c with
  | GetSession uid => snd (SessionManager.getSession uid st)
  | AddMessage uid r c => snd (SessionManager.addMessage uid r c st)
  | GetHistory uid n => snd (SessionManager.getHistory uid n st)
  | GetConversationContext uid n => snd (SessionManager.getConversationContext uid n st)
  | ClearSession uid => snd (SessionManager.clearSession uid st)
  | GetStats => snd (SessionManager.getStats st)
  | ExecuteQuery q uid => snd (ClaudeExecutor.executeQuery q uid st)
  | OnClear uid => snd (RemoteAssistantBot.onClear uid st)
  end.

Definition perform_all (cs : list Call) (st : State) : State :=
  fold_left (fun st c => perform c st) cs st.

(** The user that a call is made for. *)
Definition subject (c : Call) : option string :=
  match c with
  | GetSession uid | AddMessage uid _ _ | GetHistory uid _ | GetConversationContext uid _
  | ClearSession uid | ExecuteQuery _ uid | OnClear uid => Some uid
  | GetStats => None
  end.

(** What the process holds for a user: the session in memory, the record,
    the external handle. *)
Definition holding (st : State) (uid : string) : option Session * option string * option string :=
  (sessions (manager st) !! uid,
   record (world st) (SessionManager.sessionFile uid),
   userSessionIds (executor st) !! uid).

(** The directory after a write of [text] under [name] that the environment
    fails. *)
Definition failed_write (w : World) (name text : string) : option (list (string * string)) :=
  match io_cut w (io_calls w), disk w with
  | Some k, Some d => Some (fs.store_file name (substring 0 k text) d)
  | _, _ => disk w
  end.

(** What a call of the manager changes besides the sessions and the
    environment: nothing. *)
Definition same_objects (st st' : State) : Prop :=
  sessionDir (manager st') = sessionDir (manager st) /\
  maxMessagesPerSession (manager st') = maxMessagesPerSession (manager st) /\
  executor st' = executor st.

(** The manager, the directory, the clock and the storage are the same. *)
Definition same_store (st st' : State) : Prop :=
  manager st' = manager st /\
  disk (world st') = disk (world st) /\
  clock (world st') = clock (world st) /\
  ticks (world st') = ticks (world st) /\
  io_fault (world st') = io_fault (world st) /\
  io_calls (world st') = io_calls (world st).

(** Nothing of the sessions, the records, the handles, the clock, the
    storage and the UUIDs has changed: at most processes were run and
    lines written to the console. *)
Definition untouched (st st' : State) : Prop :=
  same_store st st' /\ executor st' = executor st /\
  uuids (world st') = uuids (world st) /\ uuid (world st') = uuid (world st) /\
  shell (world st') = shell (world st).

(** Sessions are held under their own user id. *)
Definition keyed (ss : gmap string Session) : Prop :=
  forall uid s, ss !! uid = Some s -> userId s = uid.

(** No session holds more messages than the bound [m] of the manager. *)
Definition bounded (m : Z) (st : State) : Prop :=
  maxMessagesPerSession (manager st) = m /\
  forall uid s, sessions (manager st) !! uid = Some s ->
    (Z.of_nat (List.length (messages s)) <= m)%Z.

(** The number of messages that [getStats] counts. *)
Definition count_messages (ss : gmap string Session) : nat :=
  map_fold (fun _ session total => (total + List.length (messages session))%nat) 0%nat ss.

(** A directory that holds the sessions of a map and nothing else that
    loads: every session is held under its user id and has a record that
    decodes to it, and every [.json] entry is the record of a session of
    the map. *)
Definition represents (d : list (string * string)) (ss : gmap string Session) : Prop :=
  (forall uid s, ss !! uid = Some s ->
     userId s = uid /\
     exists text, fs.lookup_file (SessionManager.sessionFile uid) d = Some text /\
                  decode text = Some s) /\
  (forall name text, In (name, text) d -> Js.endsWith name ".json" = true ->
     exists uid s, name = SessionManager.sessionFile uid /\
                   ss !! uid = Some s /\ decode text = Some s).

(** The directory holds the sessions in memory, and no file-system call
    to come is failed by the environment. *)
Definition in_sync (st : State) : Prop :=
  exists d, healthy d st /\ represents d (sessions (manager st)).

(** A session whose stamps are in order: the messages from the oldest to
    the newest, all of them between the creation and the last activity. *)
Definition chronological (s : Session) : Prop :=
  (createdAt s <= lastActivityAt s)%Z /\
  StronglySorted Z.le (map timestamp (messages s)) /\
  Forall (fun m => (createdAt s <= timestamp m <= lastActivityAt s)%Z) (messages s).

(** The clock never goes back, the sessions in memory are in order and
    none was active after the next reading of the clock. *)
Definition timely (st : State) : Prop :=
  (forall i j, (i <= j)%nat -> (clock (world st) i <= clock (world st) j)%Z) /\
  forall uid s, sessions (manager st) !! uid = Some s ->
    chronological s /\ (lastActivityAt s <= clock (world st) (ticks (world st)))%Z.

(** *** Commands and responses *)

(** The characters that [escapeQuery] escapes. *)
Definition special (c : ascii) : bool :=
  Ascii.eqb c JSON.dquote || Ascii.eqb c "`" || Ascii.eqb c "$".

(** A pass over the text that puts a backslash before each of them. *)
Fixpoint escape_specials (s : string) : string :=
  match s with
  | EmptyString => EmptyString
  | String c s' =>
      if special c then String JSON.backslash (String c (escape_specials s'))
      else String c (escape_specials s')
  end.

(** Every special character of the text comes right after a backslash. *)
Fixpoint guarded_after (prev : ascii) (s : string) : bool :=
  match s with
  | EmptyString => true
  | String c s' => (negb (special c) || Ascii.eqb prev JSON.backslash) && guarded_after c s'
  end.

Definition guarded (s : string) : bool := guarded_after " " s.

Fixpoint count_special (s : string) : nat :=
  match s with
  | EmptyString => 0
  | String c s' => ((if special c then 1 else 0) + count_special s')%nat
  end.

Fixpoint has_backslash (s : string) : bool :=
  match s with
  | EmptyString => false
  | String c s' => Ascii.eqb c JSON.backslash || has_backslash s'
  end.

(** How a POSIX shell reads a text between double quotes.  A backslash
    that precedes [$], a backquote, a double quote or a backslash quotes
    that character; before a line break it is a line continuation; any
    other backslash stands for itself.  [None]: the text has an active
    character, that is an unquoted [$] or backquote (an expansion, a
    command substitution), an unquoted double quote (the end of the
    string), or a backslash at its end (which quotes the closing double
    quote). *)
Fixpoint sh_dquoted (s : string) : option string :=
  match s with
  | EmptyString => Some EmptyString
  | String c s' =>
      if Ascii.eqb c JSON.backslash then
        match s' with
        | EmptyString => None
        | String e s'' =>
            if special e || Ascii.eqb e JSON.backslash then String e <$> sh_dquoted s''
            else if Ascii.eqb e "010" then sh_dquoted s''
            else String c <$> sh_dquoted s'
        end
      else if special c then None
      else String c <$> sh_dquoted s'
  end.

(** The two shapes of a response: a success with an output and no error,
    a failure with an error description and no output. *)
Definition well_formed (resp : ClaudeResponse) : Prop :=
  if success resp
  then output resp <> EmptyString /\ error resp = None
  else output resp = EmptyString /\ exists msg, error resp = Some msg /\ msg <> EmptyString.

(** Whether [execCommand] resolves, given what the process does. *)
Definition resolves (o : ProcOutcome) : bool :=
  match o with
  | Closed code out err =>
      ClaudeExecutor.is_zero code || Js.truthy_string out || Js.truthy_string err
  | _ => false
  end.

(** The command line that [executeQuery] builds in a given state. *)
Definition query_command (st : State) (query userId : string) : string :=
  match ClaudeExecutor.existing (userSessionIds (executor st) !! userId) with
  | Some existingSessionId =>
      "claude --resume " ++ ClaudeExecutor.quoted existingSessionId
      ++ " -p " ++ ClaudeExecutor.quoted (ClaudeExecutor.escapeQuery query)
  | None =>
      "claude --session-id " ++ ClaudeExecutor.quoted (uuid (world st) (uuids (world st)))
      ++ " -p " ++ ClaudeExecutor.quoted (ClaudeExecutor.escapeQuery query)
  end.

(** The response of [executeQuery] to a process that [execCommand]
    rejects: the [catch] block, on the error of the rejection. *)
Definition failure_response (o : ProcOutcome) : ClaudeResponse :=
  {| success := false; output := EmptyString; error := Some (failure_description o) |}.

(** The output of the response of [executeQuery] to a process that
    [execCommand] resolves. *)
Definition answer_of (o : ProcOutcome) : string :=
  match o with
  | Closed _ out err =>
      Js.or_string (Js.or_string (Js.trim out) (Js.trim err))
        (Js.or_string err "Command executed successfully (no output)")
  | _ => EmptyString
  end.

(** *** Long messages *)


(** Every line of the text, with its line break, fits into a message. *)
Definition lines_fit (text : string) : bool :=
  forallb (fun line => (String.length line <? RemoteAssistantBot.MAX_LENGTH)%nat)
          (Js.split "010"%char text).

(** A chunk that is not empty and not longer than a message may be. *)
Definition fits (chunk : string) : Prop :=
  (1 <= String.length chunk <= RemoteAssistantBot.MAX_LENGTH)%nat.

(** A text of [n] copies of [s]. *)
Fixpoint copies (n : nat) (s : string) : string :=
  match n with
  | O => EmptyString
  | S n' => s ++ copies n' s
  end.

(** *** Concrete environments *)

(** A world in which nothing fails: an empty session directory, a clock
    that advances by one at each reading, processes that exit with code 0
    after printing [ok]. *)
Definition quiet_world : World :=
  {| disk := Some [];
     clock := fun n => (1704067200000 + Z.of_nat n)%Z; ticks := 0;
     io_fault := fun _ => None; io_calls := 0;
     io_cut := fun _ => None;
     uuid := fun n => "uuid-" ++ Js.string_of_Z (Z.of_nat n); uuids := 0;
     shell := fun _ _ => Closed (Some 0%Z) "ok" EmptyString; spawns := 0;
     console := [] |}.

(** The same world with other processes, with other storage faults. *)
Definition with_shell (f : nat -> string -> ProcOutcome) (w : World) : World :=
  {| disk := disk w; clock := clock w; ticks := ticks w;
     io_fault := io_fault w; io_calls := io_calls w;
     io_cut := io_cut w;
     uuid := uuid w; uuids := uuids w; shell := f; spawns := spawns w;
     console := console w |}.

Definition with_io_fault (f : nat -> option string) (w : World) : World :=
  {| disk := disk w; clock := clock w; ticks := ticks w;
     io_fault := f; io_calls := io_calls w;
     io_cut := io_cut w;
     uuid := uuid w; uuids := uuids w; shell := shell w; spawns := spawns w;
     console := console w |}.

(** A session directory on a full disk: every file-system call fails. *)
Definition full_disk_world : World :=
  with_io_fault (fun _ => Some "ENOSPC: no space left on device") quiet_world.

(** The process as [index.ts] and the bot set it up: a manager for the
    [sessions] directory, an executor that refers to it. *)
Definition boot (max : Z) (w : World) : State :=
  {| manager := SessionManager.new "sessions" (Some max);
     executor := ClaudeExecutor.new "/work" true;
     world := w |}.

(** A restart: the objects are built anew, the directory stays. *)
Definition restart (st : State) : State :=
  {| manager := SessionManager.new (sessionDir (manager st))
                  (Some (maxMessagesPerSession (manager st)));
     executor := ClaudeExecutor.new (workDir (executor st)) (sessionManager (executor st));
     world := world st |}.

(** Two sessions. *)
Definition alice : Session :=
  {| userId := "1001";
     messages := [ {| role := user; content := "GPU usage?"; timestamp := 1704067200000 |};
                   {| role := assistant; content := "87%"; timestamp := 1704067203000 |} ];
     createdAt := 1704067200000; lastActivityAt := 1704067203000 |}.

Definition bob : Session :=
  {| userId := "2002";
     messages := [ {| role := user; content := "tail the log"; timestamp := 1704070000000 |} ];
     createdAt := 1704069999000; lastActivityAt := 1704070000001 |}.

(** A directory whose first record is cut short and whose second is whole. *)
Definition damaged_disk : list (string * string) :=
  [ ("1000.json", "{ " ++ JSON.key "userId"); ("1001.json", JSON.stringify alice) ].

(** A process in which user [1001] has the session of [alice] in memory. *)
Definition alice_state : State :=
  {| manager := {| sessionDir := "sessions"; sessions := {[ "1001" := alice ]};
                   maxMessagesPerSession := 50 |};
     executor := ClaudeExecutor.new "/work" true;
     world := quiet_world |}.

(** The same, with a directory that holds a file that is no record and
    the record of [bob]. *)
Definition shared_state : State :=
  {| manager := manager alice_state;
     executor := executor alice_state;
     world := with_disk (Some [ ("notes.txt", "not a record");
                                ("2002.json", JSON.stringify bob) ]) quiet_world |}.

(** A process in which [1001] and [2002] have their sessions in memory, over
    a directory that holds their records and a file that is no record. *)
Definition synced_disk : list (string * string) :=
  [ ("notes.txt", "not a record");
    ("1001.json", JSON.stringify alice);
    ("2002.json", JSON.stringify bob) ].

Definition synced_state (w : World) : State :=
  {| manager := {| sessionDir := "sessions";
                   sessions := {[ "1001" := alice; "2002" := bob ]};
                   maxMessagesPerSession := 50 |};
     executor := ClaudeExecutor.new "/work" true;
     world := with_disk (Some synced_disk) w |}.

(** A world whose first file-system call fails. *)
Definition unlink_fails_once : World :=
  with_io_fault (fun n => if (n =? 0)%nat then Some "EACCES: permission denied" else None)
                quiet_world.

(** The process of [alice_state] with another bound. *)
Definition alice_bounded (max : Z) : State :=
  {| manager := {| sessionDir := "sessions"; sessions := {[ "1001" := alice ]};
                   maxMessagesPerSession := max |};
     executor := ClaudeExecutor.new "/work" true;
     world := quiet_world |}.

(** The same world with other effects of its failed writes. *)
Definition with_io_cut (f : nat -> option nat) (w : World) : World :=
  {| disk := disk w; clock := clock w; ticks := ticks w;
     io_fault := io_fault w; io_calls := io_calls w;
     io_cut := f;
     uuid := uuid w; uuids := uuids w; shell := shell w; spawns := spawns w;
     console := console w |}.

(** The process of [alice_state] over a directory that holds the record of
    [alice], on a disk that fills up: every write fails after it has
    emptied the file. *)
Definition alice_disk_fills : State :=
  {| manager := manager alice_state;
     executor := executor alice_state;
     world := with_io_cut (fun _ => Some 0%nat)
                (with_disk (Some [ ("1001.json", JSON.stringify alice) ]) full_disk_world) |}.

(** Processes of which only the queries fail: a command line that starts
    with [claude --resume] or with [claude --session-id] exits with code 1
    and writes nothing; any other, [claude --version] among them, exits
    with code 0 after printing [ok]. *)
Definition picky_shell (n : nat) (command : string) : ProcOutcome :=
  if String.prefix "claude --resume " command || String.prefix "claude --session-id " command
  then Closed (Some 1%Z) EmptyString EmptyString
  else Closed (Some 0%Z) "ok" EmptyString.

(** Processes that print their own command line and exit with code 0. *)
Definition echo_shell (n : nat) (command : string) : ProcOutcome :=
  Closed (Some 0%Z) command EmptyString.

(** The executor that [index.ts] builds to look for the CLI: it has no
    session manager. *)
Definition availability_probe : State :=
  {| manager := SessionManager.new "sessions" None;
     executor := ClaudeExecutor.new "/work" false;
     world := quiet_world |}.

(** ** Running the model *)

Ltac run_m :=
  cbv beta iota zeta delta
    [bind ret get put modify raise unsound try_catch now log spawn randomUUID
     fs.writeFile fs.unlink fs.readFile fs.readdir fs.mkdir fs.call
     SessionManager.sessions_get SessionManager.sessions_set
     SessionManager.sessions_delete SessionManager.mutate
     ClaudeExecutor.set_userSessionId ClaudeExecutor.delete_userSessionId
     ClaudeExecutor.generateSessionId
     set_manager set_world set_executor with_disk
     manager executor world sessions sessionDir maxMessagesPerSession
     disk clock ticks io_fault io_calls io_cut uuid uuids shell spawns console
     workDir sessionManager userSessionIds fst snd].

Ltac destruct_state st :=
  let dir := fresh "dir" in
  let ss := fresh "ss" in
  let max := fresh "max" in
  let wd := fresh "wd" in
  let mgr := fresh "mgr" in
  let ids := fresh "ids" in
  let d := fresh "d" in
  let clk := fresh "clk" in
  let tk := fresh "tk" in
  let f := fresh "fault" in
  let n := fresh "calls" in
  let ct := fresh "cut" in
  let uu := fresh "uu" in
  let nuu := fresh "nuu" in
  let sh := fresh "sh" in
  let nsp := fresh "nsp" in
  let con := fresh "con" in
  destruct st as [[dir ss max] [wd mgr ids] [d clk tk f n ct uu nuu sh nsp con]].

(** ** Lists *)

Section Lists.
Context {A B : Type}.

Lemma last_n_length (n : nat) (l : list A) :
  (List.length (last_n n l) <= n)%nat.
Proof. unfold last_n. rewrite length_drop. lia. Qed.

Lemma last_n_all (n : nat) (l : list A) :
  (List.length l <= n)%nat -> last_n n l = l.
Proof.
  intros H. unfold last_n. replace (List.length l - n)%nat with 0%nat by lia.
  reflexivity.
Qed.

Lemma last_n_app (n : nat) (l r : list A) :
  last_n n (last_n n l ++ r) = last_n n (l ++ r).
Proof.
  unfold last_n. rewrite !length_app, length_drop, !drop_app, drop_drop, length_drop.
  destruct (Nat.le_gt_cases (List.length r) n) as [Hr|Hr];
    destruct (Nat.le_gt_cases (List.length l) n) as [Hl|Hl].
  - f_equal; f_equal; lia.
  - f_equal; f_equal; lia.
  - rewrite !(drop_ge l) by lia. f_equal; f_equal; lia.
  - rewrite !(drop_ge l) by lia. f_equal; f_equal; lia.
Qed.

Lemma last_n_map (f : A -> B) (n : nat) (l : list A) :
  map f (last_n n l) = last_n n (map f l).
Proof. unfold last_n. rewrite length_map. apply fmap_drop. Qed.

Lemma truncate_last_n (max : Z) (l : list A) :
  (0 < max)%Z -> truncate max l = last_n (Z.to_nat max) l.
Proof.
  intros Hmax. unfold truncate, last_n, Js.slice.
  destruct (Z.ltb_spec max (Z.of_nat (List.length l))) as [Hlt|Hge].
  - destruct (Z.ltb_spec (- max) 0) as [_|?]; [|lia].
    f_equal. lia.
  - replace (List.length l - Z.to_nat max)%nat with 0%nat by lia. reflexivity.
Qed.

(** With a bound of zero nothing is dropped: [slice(-0)] is [slice(0)]. *)
Lemma truncate_zero (l : list A) : truncate 0 l = l.
Proof.
  unfold truncate, Js.slice. simpl.
  destruct (0 <? Z.of_nat (List.length l))%Z; [|reflexivity].
  rewrite Z.min_l by lia. reflexivity.
Qed.

End Lists.

Lemma alter_present {A} (f : A -> A) (k : string) (m : gmap string A) (x : A) :
  m !! k = Some x -> alter f k m = <[k := f x]> m.
Proof.
  intros H. apply map_eq. intros j. destruct (decide (j = k)) as [->|Hne].
  - rewrite lookup_alter_eq, lookup_insert_eq, H. reflexivity.
  - rewrite lookup_alter_ne, lookup_insert_ne by done. reflexivity.
Qed.

(** ** [getSession] *)

Lemma getSession_present (st : State) (uid : string) (s : Session) :
  sessions (manager st) !! uid = Some s ->
  SessionManager.getSession uid st = (Ok s, st).
Proof.
  destruct_state st. intros H. simpl in H.
  unfold SessionManager.getSession. run_m. rewrite H. reflexivity.
Qed.

(** Without a session in memory, [getSession] registers a fresh one before
    it writes it: the registration stands whatever becomes of the write. *)
Lemma getSession_absent_sessions (st : State) (uid : string) :
  sessions (manager st) !! uid = None ->
  sessions (manager (snd (SessionManager.getSession uid st)))
  = <[uid := fresh_session uid (world st)]> (sessions (manager st)).
Proof.
  destruct_state st. intros H. simpl in H.
  unfold SessionManager.getSession, SessionManager.saveSession, fresh_session.
  run_m. rewrite H. rewrite lookup_insert_eq.
  destruct (fault calls); [destruct (cut calls); [destruct d|]; reflexivity|]. destruct d; reflexivity.
Qed.

Lemma getSession_absent_ok (st : State) (uid : string) (d : list (string * string)) :
  sessions (manager st) !! uid = None ->
  disk (world st) = Some d ->
  next_io_ok st ->
  fst (SessionManager.getSession uid st) = Ok (fresh_session uid (world st))
  /\ disk (world (snd (SessionManager.getSession uid st)))
     = Some (fs.store_file (SessionManager.sessionFile uid)
               (JSON.stringify (fresh_session uid (world st))) d).
Proof.
  destruct_state st. unfold next_io_ok. simpl. intros H -> Hio.
  unfold SessionManager.getSession, SessionManager.saveSession, fresh_session.
  run_m. rewrite H. rewrite lookup_insert_eq. rewrite Hio. split; reflexivity.
Qed.

Lemma getSession_absent_fault (st : State) (uid msg : string) :
  sessions (manager st) !! uid = None ->
  io_fault (world st) (io_calls (world st)) = Some msg ->
  fst (SessionManager.getSession uid st) = Raise (mkError msg).
Proof.
  destruct_state st. simpl. intros H Hio.
  unfold SessionManager.getSession, SessionManager.saveSession.
  run_m. rewrite H. rewrite lookup_insert_eq. rewrite Hio.
  destruct (cut calls); [destruct d|]; reflexivity.
Qed.

Lemma getSession_frame (st : State) (uid : string) :
  maxMessagesPerSession (manager (snd (SessionManager.getSession uid st)))
  = maxMessagesPerSession (manager st)
  /\ executor (snd (SessionManager.getSession uid st)) = executor st.
Proof.
  destruct_state st.
  unfold SessionManager.getSession, SessionManager.saveSession.
  run_m. destruct (_ !! uid) eqn:H; [split; reflexivity|].
  rewrite lookup_insert_eq.
  destruct (fault calls); [destruct (cut calls); [destruct d|]; split; reflexivity|]. destruct d; split; reflexivity.
Qed.

(** [getSession] never leaves the typed model. *)
Lemma getSession_sound (st : State) (uid : string) :
  fst (SessionManager.getSession uid st) <> Unsound.
Proof.
  destruct_state st.
  unfold SessionManager.getSession, SessionManager.saveSession.
  run_m. destruct (_ !! uid) eqn:H; [discriminate|].
  rewrite lookup_insert_eq.
  destruct (fault calls); [destruct (cut calls); [destruct d|]; discriminate|]. destruct d; discriminate.
Qed.

(** ** [addMessage] *)

(** With a session in memory: the message is appended and the list cut
    back, before the write and whatever its outcome. *)
Lemma addMessage_present (st : State) (uid : string) (r : Role) (c : string) (s : Session) :
  sessions (manager st) !! uid = Some s ->
  sessions (manager (snd (SessionManager.addMessage uid r c st)))
  = <[uid := {| userId := userId s;
                messages :=
                  truncate (maxMessagesPerSession (manager st))
                    (messages s ++
                     [{| role := r; content := c;
                         timestamp := clock (world st) (ticks (world st)) |}]);
                createdAt := createdAt s;
                lastActivityAt := clock (world st) (S (ticks (world st))) |}]>
      (sessions (manager st))
  /\ maxMessagesPerSession (manager (snd (SessionManager.addMessage uid r c st)))
     = maxMessagesPerSession (manager st).
Proof.
  destruct_state st. intros H. simpl in H.
  unfold SessionManager.addMessage, SessionManager.getSession,
    SessionManager.saveSession, truncate.
  run_m. rewrite H.
  rewrite (alter_present _ _ _ _ H).
  destruct (_ <? _)%Z.
  - rewrite (alter_present _ _ _ _ (lookup_insert_eq _ _ _)), insert_insert_eq.
    rewrite (alter_present _ _ _ _ (lookup_insert_eq _ _ _)), insert_insert_eq.
    rewrite lookup_insert_eq.
    destruct (fault calls); [destruct (cut calls); [destruct d|]; done|]. destruct d; done.
  - rewrite (alter_present _ _ _ _ (lookup_insert_eq _ _ _)), insert_insert_eq.
    rewrite lookup_insert_eq.
    destruct (fault calls); [destruct (cut calls); [destruct d|]; done|]. destruct d; done.
Qed.

(** The result of [addMessage] when the session is in memory: that of the
    write. *)
Lemma addMessage_present_result (st : State) (uid : string) (r : Role) (c : string) (s : Session) :
  sessions (manager st) !! uid = Some s ->
  fst (SessionManager.addMessage uid r c st)
  = match io_fault (world st) (io_calls (world st)) with
    | Some msg => Raise (mkError msg)
    | None =>
        match disk (world st) with
        | Some _ => Ok tt
        | None => Raise fs.ENOENT
        end
    end.
Proof.
  destruct_state st. intros H. simpl in H.
  unfold SessionManager.addMessage, SessionManager.getSession,
    SessionManager.saveSession.
  run_m. rewrite H.
  rewrite (alter_present _ _ _ _ H).
  destruct (_ <? _)%Z.
  - rewrite (alter_present _ _ _ _ (lookup_insert_eq _ _ _)), insert_insert_eq.
    rewrite (alter_present _ _ _ _ (lookup_insert_eq _ _ _)), insert_insert_eq.
    rewrite lookup_insert_eq.
    destruct (fault calls); [destruct (cut calls); [destruct d|]; done|]. destruct d; done.
  - rewrite (alter_present _ _ _ _ (lookup_insert_eq _ _ _)), insert_insert_eq.
    rewrite lookup_insert_eq.
    destruct (fault calls); [destruct (cut calls); [destruct d|]; done|]. destruct d; done.
Qed.

(** Without a session in memory: the fresh session is registered; the
    message is appended to it unless writing the fresh session failed. *)
Lemma addMessage_absent (st : State) (uid : string) (r : Role) (c : string) :
  sessions (manager st) !! uid = None ->
  sessions (manager (snd (SessionManager.addMessage uid r c st)))
  = <[uid := if creation_fails st uid then fresh_session uid (world st)
             else {| userId := uid;
                     messages :=
                       truncate (maxMessagesPerSession (manager st))
                         [{| role := r; content := c;
                             timestamp := clock (world st) (S (S (ticks (world st)))) |}];
                     createdAt := clock (world st) (ticks (world st));
                     lastActivityAt := clock (world st) (S (S (S (ticks (world st))))) |}]>
      (sessions (manager st))
  /\ maxMessagesPerSession (manager (snd (SessionManager.addMessage uid r c st)))
     = maxMessagesPerSession (manager st).
Proof.
  destruct_state st. intros H. simpl in H.
  unfold creation_fails, SessionManager.addMessage, SessionManager.getSession,
    SessionManager.saveSession, truncate, fresh_session.
  run_m. rewrite H. rewrite lookup_insert_eq.
  destruct (fault calls); [destruct (cut calls); [destruct d|]; done|]. destruct d as [d|]; [|done].
  rewrite (alter_present _ _ _ _ (lookup_insert_eq _ _ _)), insert_insert_eq.
  simpl List.length.
  destruct (_ <? _)%Z.
  - rewrite (alter_present _ _ _ _ (lookup_insert_eq _ _ _)), insert_insert_eq.
    rewrite (alter_present _ _ _ _ (lookup_insert_eq _ _ _)), insert_insert_eq.
    rewrite lookup_insert_eq.
    destruct (fault (S calls)); [destruct (cut (S calls))|]; done.
  - rewrite (alter_present _ _ _ _ (lookup_insert_eq _ _ _)), insert_insert_eq.
    rewrite lookup_insert_eq.
    destruct (fault (S calls)); [destruct (cut (S calls))|]; done.
Qed.

Lemma truncate_map {A B} (f : A -> B) (max : Z) (l : list A) :
  map f (truncate max l) = truncate max (map f l).
Proof.
  unfold truncate, Js.slice. rewrite length_map.
  destruct (_ <? _)%Z; [|reflexivity]. apply fmap_drop.
Qed.

Lemma truncate_nil {A} (max : Z) : truncate max (@nil A) = [].
Proof.
  unfold truncate, Js.slice.
  destruct (max <? _)%Z; [|reflexivity]. apply drop_nil.
Qed.

Lemma creation_fails_present (st : State) (uid : string) (s : Session) :
  sessions (manager st) !! uid = Some s -> creation_fails st uid = false.
Proof.
  intros H. unfold creation_fails. rewrite (getSession_present _ _ _ H). reflexivity.
Qed.

(** One call: the messages held afterwards. *)
Lemma addMessage_stored (st : State) (uid : string) (r : Role) (c : string) :
  exists new : list Message,
    map turn new = (if creation_fails st uid then [] else [(r, c)]) /\
    stored (snd (SessionManager.addMessage uid r c st)) uid
    = truncate (maxMessagesPerSession (manager st)) (stored st uid ++ new) /\
    is_Some (sessions (manager (snd (SessionManager.addMessage uid r c st))) !! uid) /\
    maxMessagesPerSession (manager (snd (SessionManager.addMessage uid r c st)))
    = maxMessagesPerSession (manager st).
Proof.
  unfold stored at 1 2.
  destruct (sessions (manager st) !! uid) as [s|] eqn:H.
  - destruct (addMessage_present st uid r c s H) as [E Hmax].
    rewrite (creation_fails_present _ _ _ H), E, lookup_insert_eq.
    eexists [_]. split; [|split; [reflexivity|split; [eauto|exact Hmax]]]. reflexivity.
  - destruct (addMessage_absent st uid r c H) as [E Hmax].
    rewrite E, lookup_insert_eq.
    destruct (creation_fails st uid).
    + exists []. split; [reflexivity|]. split; [|split; [eauto|exact Hmax]].
      simpl. symmetry. apply truncate_nil.
    + eexists [_]. split; [|split; [reflexivity|split; [eauto|exact Hmax]]]. reflexivity.
Qed.

(** A sequence of calls on a session that is in memory. *)
Lemma addMessages_present (uid : string) (calls : list (Role * string)) :
  forall st : State,
    is_Some (sessions (manager st) !! uid) ->
    (0 < maxMessagesPerSession (manager st))%Z ->
    let n := Z.to_nat (maxMessagesPerSession (manager st)) in
    exists new : list Message,
      map turn new = calls /\
      last_n n (stored (addMessages uid calls st) uid) = last_n n (stored st uid ++ new) /\
      (calls <> [] -> (List.length (stored (addMessages uid calls st) uid) <= n)%nat) /\
      is_Some (sessions (manager (addMessages uid calls st)) !! uid).
Proof.
  induction calls as [|[r c] rest IH]; intros st Hs Hmax n.
  - exists []. simpl. rewrite app_nil_r. split; [reflexivity|]. split; [reflexivity|].
    split; [done|exact Hs].
  - simpl addMessages.
    destruct (addMessage_stored st uid r c) as (new1 & Hturn & Hst & Hs1 & Hmax1).
    destruct Hs as [s Hs]. rewrite (creation_fails_present _ _ _ Hs) in Hturn.
    rewrite truncate_last_n in Hst by exact Hmax. fold n in Hst.
    destruct (IH _ Hs1) as (new' & Hturn' & Hlast & Hlen & Hs').
    { rewrite Hmax1. exact Hmax. }
    rewrite Hmax1 in Hlast, Hlen. fold n in Hlast, Hlen.
    exists (new1 ++ new')%list. split; [|split; [|split]].
    + rewrite map_app, Hturn, Hturn'. reflexivity.
    + rewrite Hlast, Hst, last_n_app, app_assoc. reflexivity.
    + intros _. destruct rest as [|call rest'].
      * simpl. rewrite Hst. apply last_n_length.
      * apply Hlen. discriminate.
    + exact Hs'.
Qed.

(** C1.  Whatever the storage does, after a non-empty sequence of
    [addMessage] calls for one user (with a positive
    [maxMessagesPerSession]) the session holds at most
    [maxMessagesPerSession] messages, and they are the last ones of the
    messages held before followed by the appended ones, in that order.  A
    first call that has to create the session, and fails to write it, raises
    before it appends: its turn is not among the appended ones. *)
Theorem addMessage_keeps_most_recent (st : State) (uid : string) (calls : list (Role * string)) :
  (0 < maxMessagesPerSession (manager st))%Z ->
  calls <> [] ->
  let max := maxMessagesPerSession (manager st) in
  let st' := addMessages uid calls st in
  let appended := if creation_fails st uid then tail calls else calls in
  is_Some (sessions (manager st') !! uid) /\
  (Z.of_nat (List.length (stored st' uid)) <= max)%Z /\
  exists new : list Message,
    map turn new = appended /\
    stored st' uid = last_n (Z.to_nat max) (stored st uid ++ new).
Proof.
  intros Hmax Hne max st' appended.
  destruct calls as [|[r c] rest]; [done|]. clear Hne.
  subst st'. simpl addMessages.
  destruct (addMessage_stored st uid r c) as (new1 & Hturn & Hst & Hs1 & Hmax1).
  rewrite truncate_last_n in Hst by exact Hmax. fold max in Hst.
  destruct (addMessages_present uid rest _ Hs1) as (new' & Hturn' & Hlast & Hlen & Hs').
  { rewrite Hmax1. exact Hmax. }
  rewrite Hmax1 in Hlast, Hlen. fold max in Hlast, Hlen.
  assert (Hle : (List.length (stored (addMessages uid rest
                   (snd (SessionManager.addMessage uid r c st))) uid)
                 <= Z.to_nat max)%nat).
  { destruct rest as [|call rest'].
    - simpl. rewrite Hst. apply last_n_length.
    - apply Hlen. discriminate. }
  split; [exact Hs'|]. split; [lia|].
  exists (new1 ++ new')%list. split.
  - rewrite map_app, Hturn, Hturn'. subst appended.
    destruct (creation_fails st uid); reflexivity.
  - rewrite <- (last_n_all (Z.to_nat max) _ Hle).
    rewrite Hlast, Hst, last_n_app, app_assoc. reflexivity.
Qed.

(** ** [getHistory] and [getConversationContext] *)

Lemma slice_last_n {A} (n : Z) (l : list A) :
  (0 < n)%Z -> Js.slice (- n) l = last_n (Z.to_nat n) l.
Proof.
  intros Hn. unfold Js.slice, last_n.
  destruct (Z.ltb_spec (- n) 0) as [_|?]; [|lia].
  f_equal. lia.
Qed.

Lemma last_n_nonempty {A} (n : nat) (l : list A) :
  (0 < n)%nat -> l <> [] -> last_n n l <> [].
Proof.
  intros Hn Hl E. apply (f_equal (@List.length A)) in E.
  unfold last_n in E. rewrite length_drop in E. simpl in E.
  destruct l; [done|]. simpl in E. lia.
Qed.

Lemma render_text (m : Message) :
  SessionManager.render m
  = match role m with
    | user => "User: " ++ content m
    | assistant => "Assistant: " ++ content m
    end.
Proof. unfold SessionManager.render. destruct (role m); reflexivity. Qed.

Lemma string_app_assoc (a b c : string) : (a ++ b) ++ c = a ++ b ++ c.
Proof.
  induction a as [|x a IH]; [reflexivity|].
  change (String x ((a ++ b) ++ c) = String x (a ++ b ++ c)). rewrite IH. reflexivity.
Qed.

(** C9.  [getHistory(userId, 0)] returns every stored message: a [lastN]
    of [0] is falsy and is treated as an omitted argument. *)
Theorem getHistory_zero_returns_all (st : State) (uid : string) (s : Session) :
  sessions (manager st) !! uid = Some s ->
  SessionManager.getHistory uid (Some 0%Z) st = (Ok (messages s), st) /\
  SessionManager.getHistory uid (Some 0%Z) st = SessionManager.getHistory uid None st.
Proof.
  intros H. unfold SessionManager.getHistory, bind.
  rewrite (getSession_present _ _ _ H). split; reflexivity.
Qed.

(** The messages that [getHistory] selects from a session in memory. *)
Lemma getHistory_present (st : State) (uid : string) (lastN : option Z) (s : Session) :
  sessions (manager st) !! uid = Some s ->
  SessionManager.getHistory uid lastN st
  = (Ok (match lastN with
         | Some n => if (n =? 0)%Z then messages s else Js.slice (- n) (messages s)
         | None => messages s
         end), st).
Proof.
  intros H. unfold SessionManager.getHistory, bind.
  rewrite (getSession_present _ _ _ H).
  destruct lastN as [n|]; [|reflexivity].
  unfold Js.truthy_number. destruct (n =? 0)%Z; reflexivity.
Qed.

(** C5.  For a session in memory and a non-negative [lastN] (10 when
    omitted): with no message the context is the empty string; otherwise it
    is the header [Previous conversation:], the selected messages (all of
    them for 0, else the last [lastN]) oldest first, each rendered as
    [User: <content>] or [Assistant: <content>] and separated by a blank
    line, and the trailer [Current query:].  The state is unchanged. *)
Theorem getConversationContext_text (st : State) (uid : string) (lastN : option Z) (s : Session) :
  sessions (manager st) !! uid = Some s ->
  (0 <= default 10 lastN)%Z ->
  let n := default 10%Z lastN in
  let selected := if (n =? 0)%Z then messages s else last_n (Z.to_nat n) (messages s) in
  (messages s = [] ->
     SessionManager.getConversationContext uid lastN st = (Ok EmptyString, st)) /\
  (messages s <> [] ->
     selected <> [] /\
     SessionManager.getConversationContext uid lastN st = (Ok (context_text selected), st) /\
     (exists rest, context_text selected = "Previous conversation:" ++ rest) /\
     (exists front, context_text selected = front ++ "Current query:")).
Proof.
  intros H Hn n selected.
  assert (Hsel : SessionManager.getHistory uid (Some n) st = (Ok selected, st)).
  { rewrite (getHistory_present _ _ _ _ H). subst selected.
    destruct (Z.eqb_spec n 0) as [|Hne]; [reflexivity|].
    rewrite slice_last_n by (subst n; lia). reflexivity. }
  unfold SessionManager.getConversationContext, bind. fold n. rewrite Hsel.
  split.
  - intros Hnil. subst selected. rewrite Hnil.
    destruct (n =? 0)%Z; reflexivity.
  - intros Hne.
    assert (Hs : selected <> []).
    { subst selected. destruct (Z.eqb_spec n 0) as [|Hn0]; [exact Hne|].
      apply last_n_nonempty; [subst n; lia|exact Hne]. }
    split; [exact Hs|]. split; [|split].
    + destruct selected as [|m ms]; [done|]. simpl List.length. simpl Nat.eqb. cbv iota.
      unfold ret, context_text.
      rewrite (map_ext SessionManager.render _ render_text). reflexivity.
    + unfold context_text. eexists. reflexivity.
    + unfold context_text. eexists.
      rewrite <- !string_app_assoc. reflexivity.
Qed.

(** ** Reads that create sessions *)

Lemma lookup_store_file (name text : string) (d : list (string * string)) :
  fs.lookup_file name (fs.store_file name text d) = Some text.
Proof.
  unfold fs.store_file. destruct (fs.lookup_file name d) as [old|] eqn:H.
  - induction d as [|[n t] d IH]; [discriminate|]. simpl in *.
    destruct (String.eqb n name) eqn:E; simpl; rewrite E; [reflexivity|].
    apply IH. exact H.
  - induction d as [|[n t] d IH]; simpl.
    + rewrite String.eqb_refl. reflexivity.
    + simpl in H. destruct (String.eqb n name); [discriminate|]. apply IH. exact H.
Qed.

Lemma getStats_totalSessions (st : State) :
  totalSessions <$> returned (fst (SessionManager.getStats st))
  = Some (size (sessions (manager st))).
Proof. reflexivity. Qed.

(** C10.  [getHistory] and [getConversationContext], called for a user
    without a session, register a fresh empty session in memory, so that
    [getStats().totalSessions] grows by one; and, when the directory exists
    and the write is not failed, they store its record and return an empty
    history, an empty context. *)
Theorem reads_create_sessions (st : State) (uid : string) (lastN : option Z) :
  sessions (manager st) !! uid = None ->
  let fresh := fresh_session uid (world st) in
  let st1 := snd (SessionManager.getHistory uid lastN st) in
  let st2 := snd (SessionManager.getConversationContext uid lastN st) in
  sessions (manager st1) = <[uid := fresh]> (sessions (manager st)) /\
  sessions (manager st2) = <[uid := fresh]> (sessions (manager st)) /\
  totalSessions <$> returned (fst (SessionManager.getStats st1))
  = S <$> (totalSessions <$> returned (fst (SessionManager.getStats st))) /\
  totalSessions <$> returned (fst (SessionManager.getStats st2))
  = S <$> (totalSessions <$> returned (fst (SessionManager.getStats st))) /\
  (is_Some (disk (world st)) -> next_io_ok st ->
   fst (SessionManager.getHistory uid lastN st) = Ok [] /\
   fst (SessionManager.getConversationContext uid lastN st) = Ok EmptyString /\
   record (world st1) (SessionManager.sessionFile uid) = Some (JSON.stringify fresh) /\
   record (world st2) (SessionManager.sessionFile uid) = Some (JSON.stringify fresh)).
Proof.
  intros H fresh st1 st2.
  pose proof (getSession_absent_sessions st uid H) as Hs.
  assert (E1 : st1 = snd (SessionManager.getSession uid st)).
  { subst st1. unfold SessionManager.getHistory, bind.
    destruct (SessionManager.getSession uid st) as [[s| |] st'] eqn:G; [|reflexivity..].
    destruct lastN as [n|]; [|reflexivity].
    destruct (Js.truthy_number n); reflexivity. }
  assert (E2 : st2 = snd (SessionManager.getSession uid st)).
  { subst st2. unfold SessionManager.getConversationContext, SessionManager.getHistory, bind.
    destruct (SessionManager.getSession uid st) as [[s| |] st'] eqn:G; [|reflexivity..].
    destruct (Js.truthy_number _); simpl;
      destruct (List.length _ =? 0)%nat; reflexivity. }
  rewrite !getStats_totalSessions, E1, E2, Hs. fold fresh.
  split; [reflexivity|]. split; [reflexivity|].
  assert (Hsize : size (<[uid := fresh]> (sessions (manager st))) = S (size (sessions (manager st)))).
  { apply map_size_insert_None. exact H. }
  split; [simpl; congruence|]. split; [simpl; congruence|].
  intros [d Hd] Hio.
  destruct (getSession_absent_ok st uid d H Hd Hio) as [Hr Hdisk]. fold fresh in Hr, Hdisk.
  unfold record. rewrite Hdisk, lookup_store_file.
  unfold SessionManager.getConversationContext, SessionManager.getHistory, bind.
  destruct (SessionManager.getSession uid st) as [r st'] eqn:G. simpl in Hr. subst r.
  split; [|split; [|split; reflexivity]].
  - destruct lastN as [n|]; [|reflexivity].
    unfold fresh, fresh_session, Js.slice; simpl.
    destruct (Js.truthy_number n); [|reflexivity].
    rewrite drop_nil. reflexivity.
  - unfold fresh, fresh_session, Js.slice; simpl.
    destruct (Js.truthy_number _); [|reflexivity].
    rewrite drop_nil. reflexivity.
Qed.

(** ** Clearing *)

Lemma lookup_remove_file (name : string) (d : list (string * string)) :
  fs.lookup_file name (fs.remove_file name d) = None.
Proof.
  unfold fs.remove_file. induction d as [|[n t] d IH]; [reflexivity|].
  simpl. destruct (String.eqb n name) eqn:E; simpl; [exact IH|].
  rewrite E. exact IH.
Qed.

(** [SessionManager.clearSession] returns, whatever the storage does, and
    writes nothing to the console. *)
Lemma clearSession_returns (st : State) (uid : string) :
  fst (SessionManager.clearSession uid st) = Ok tt /\
  console (world (snd (SessionManager.clearSession uid st))) = console (world st).
Proof.
  destruct_state st. unfold SessionManager.clearSession. run_m.
  destruct (fault calls); [split; reflexivity|].
  destruct d as [d|]; [|split; reflexivity].
  destruct (fs.lookup_file _ d); split; reflexivity.
Qed.

(** C8.  The [/clear] command (the manager's [clearSession], then the
    executor's) always returns; afterwards the user has no session in
    memory and no external handle; the durable record is gone unless the
    environment failed the [unlink] call; the next [getSession] registers a
    fresh session without messages, stamped with the clock readings taken
    then, and returns it when its write succeeds; clearing again returns as
    well. *)
Theorem onClear_clears (st : State) (uid : string) :
  let st' := snd (RemoteAssistantBot.onClear uid st) in
  fst (RemoteAssistantBot.onClear uid st) = Ok tt /\
  sessions (manager st') !! uid = None /\
  userSessionIds (executor st') !! uid = None /\
  (next_io_ok st -> record (world st') (SessionManager.sessionFile uid) = None) /\
  sessions (manager (snd (SessionManager.getSession uid st'))) !! uid
  = Some (fresh_session uid (world st')) /\
  messages (fresh_session uid (world st')) = [] /\
  (is_Some (disk (world st')) -> next_io_ok st' ->
   fst (SessionManager.getSession uid st') = Ok (fresh_session uid (world st'))) /\
  fst (RemoteAssistantBot.onClear uid st') = Ok tt.
Proof.
  assert (Hret : forall s, fst (RemoteAssistantBot.onClear uid s) = Ok tt).
  { intros s. destruct_state s.
    unfold RemoteAssistantBot.onClear, SessionManager.clearSession,
      ClaudeExecutor.clearSession. run_m.
    destruct (fault calls); [reflexivity|].
    destruct d as [d|]; [|reflexivity].
    destruct (fs.lookup_file _ d); reflexivity. }
  intros st'.
  assert (Hs : sessions (manager st') !! uid = None).
  { subst st'. destruct_state st.
    unfold RemoteAssistantBot.onClear, SessionManager.clearSession,
      ClaudeExecutor.clearSession. run_m.
    destruct (fault calls); [apply lookup_delete_eq|].
    destruct d as [d|]; [|apply lookup_delete_eq].
    destruct (fs.lookup_file _ d); apply lookup_delete_eq. }
  split; [apply Hret|]. split; [exact Hs|]. split; [|split; [|split; [|split; [reflexivity|split]]]].
  - subst st'. destruct_state st.
    unfold RemoteAssistantBot.onClear, SessionManager.clearSession,
      ClaudeExecutor.clearSession. run_m.
    destruct (fault calls); [apply lookup_delete_eq|].
    destruct d as [d|]; [|apply lookup_delete_eq].
    destruct (fs.lookup_file _ d); apply lookup_delete_eq.
  - subst st'. destruct_state st. unfold next_io_ok, record. simpl. intros Hio.
    unfold RemoteAssistantBot.onClear, SessionManager.clearSession,
      ClaudeExecutor.clearSession. run_m. rewrite Hio.
    destruct d as [d|]; [|reflexivity].
    destruct (fs.lookup_file _ d) eqn:E; [apply lookup_remove_file|exact E].
  - rewrite (getSession_absent_sessions _ _ Hs). apply lookup_insert_eq.
  - intros [d Hd] Hio. apply (getSession_absent_ok _ _ d Hs Hd Hio).
  - apply Hret.
Qed.

(** ** The executor *)

Ltac case_step :=
  match goal with
  | |- context [match ?x with _ => _ end] =>
      lazymatch x with
      | context [match _ with _ => _ end] => fail
      | _ => destruct x eqn:?
      end
  end; run_m.

(** [addMessage] does not touch the executor and stays in the typed
    model. *)
Lemma addMessage_executor (st : State) (uid : string) (r : Role) (c : string) :
  executor (snd (SessionManager.addMessage uid r c st)) = executor st /\
  fst (SessionManager.addMessage uid r c st) <> Unsound.
Proof.
  destruct_state st.
  unfold SessionManager.addMessage, SessionManager.getSession, SessionManager.saveSession.
  run_m. repeat case_step; try (split; [reflexivity|discriminate]).
  all: rewrite ?lookup_alter_eq, ?lookup_insert_eq in *; simpl in *; congruence.
Qed.

Ltac use_frame :=
  repeat match goal with
  | H : SessionManager.addMessage ?u ?r ?c ?s = (?res, ?s1) |- _ =>
      let F := fresh "F" in
      let G := fresh "G" in
      pose proof (addMessage_executor s u r c) as [F G];
      rewrite H in F, G; simpl in F, G; clear H;
      try (exfalso; apply G; reflexivity);
      destruct s1 as [? ? ?]; simpl in F; subst
  end.

(** C6, as the code has it.  [executeQuery] always returns a response.
    Whether the invocation fails or succeeds, a user who held a handle
    keeps it, and a user who held none holds the handle generated for this
    invocation: it is stored before the process is started and a failure does
    not remove it. *)
Theorem executeQuery_handles (st : State) (q uid : string) :
  exists (resp : ClaudeResponse) (st' : State),
    ClaudeExecutor.executeQuery q uid st = (Ok resp, st') /\
    userSessionIds (executor st') = handles_after st uid.
Proof.
  destruct_state st.
  unfold handles_after, ClaudeExecutor.executeQuery, ClaudeExecutor.execCommand. run_m.
  repeat case_step; use_frame; eexists _, _; split; reflexivity.
Qed.

(** C6, counterexample: a user without a handle, a process that fails to
    spawn; the invocation fails and the user holds a handle afterwards. *)
Lemma failed_first_query_keeps_new_handle :
  let st := boot 50 (with_shell (fun _ _ => SpawnError "spawn /bin/sh ENOENT") quiet_world) in
  let run := ClaudeExecutor.executeQuery "status?" "42" st in
  userSessionIds (executor st) !! "42" = None /\
  success <$> returned (fst run) = Some false /\
  userSessionIds (executor (snd run)) !! "42" = Some "uuid-0".
Proof.
  vm_compute. repeat split; reflexivity.
Qed.
Lemma invocation_fails_resolves (o : ProcOutcome) :
  invocation_fails o <-> resolves o = false.
Proof.
  destruct o as [msg|out err|code out err]; simpl; [tauto..|].
  destruct (ClaudeExecutor.is_zero code), out, err; simpl; split; try tauto; try discriminate.
  all: intros (? & ? & ?); discriminate.
Qed.

(** The response of [executeQuery] follows the process that is started
    with the command line of the query, and no other: when [execCommand]
    rejects that process the response is the failure response and the
    sessions and the directory are as they were; a response that reports a
    success carries the answer of that process. *)
Lemma executeQuery_outcome (st : State) (q uid : string) :
  let o := shell (world st) (spawns (world st)) (query_command st q uid) in
  exists (resp : ClaudeResponse) (st' : State),
    ClaudeExecutor.executeQuery q uid st = (Ok resp, st') /\
    (resolves o = false -> resp = failure_response o /\ same_store st st') /\
    (success resp = true -> resolves o = true /\ output resp = answer_of o).
Proof.
  destruct_state st.
  unfold query_command, failure_response, failure_description, answer_of, resolves, same_store,
    ClaudeExecutor.executeQuery, ClaudeExecutor.execCommand.
  run_m.
  destruct (ClaudeExecutor.existing _) eqn:He; run_m;
    match goal with
    | |- context [sh nsp ?c] => destruct (sh nsp c) as [msg|out err|code out err] eqn:Hs
    end; run_m.
  all: try (eexists _, _; split; [reflexivity|]; split;
            [intros _; split; [reflexivity|repeat split]|discriminate]).
  all: destruct (_ || _)%bool eqn:B; run_m.
  all: try (apply orb_false_elim in B as [B1 B3]; apply orb_false_elim in B1 as [B1 B2];
            destruct out; [|discriminate B2];
            eexists _, _; split; [reflexivity|]; split;
            [intros _; split; [reflexivity|repeat split]|discriminate]).
  all: repeat case_step; use_frame.
  all: eexists _, _; (split; [reflexivity|]); (split; [discriminate|]); simpl;
       first [discriminate | intros _; split; reflexivity].
Qed.

(** C2, as the code has it.  When the process that [executeQuery] starts,
    the one of the command line of the query, fails to spawn, runs into the
    timeout, or exits with a non-zero (or no) code without having written
    anything, [executeQuery] returns a response with [success = false] and
    the error description of that process, and neither the sessions in
    memory nor the session directory change.  Nothing is asked of what any
    other command line would do. *)
Theorem executeQuery_failure (st : State) (q uid : string) :
  invocation_fails (shell (world st) (spawns (world st)) (query_command st q uid)) ->
  exists (resp : ClaudeResponse) (st' : State),
    ClaudeExecutor.executeQuery q uid st = (Ok resp, st') /\
    success resp = false /\
    output resp = EmptyString /\
    error resp
    = Some (failure_description
              (shell (world st) (spawns (world st)) (query_command st q uid))) /\
    manager st' = manager st /\
    disk (world st') = disk (world st).
Proof.
  intros Hfail. apply invocation_fails_resolves in Hfail.
  destruct (executeQuery_outcome st q uid) as (resp & st' & Hrun & Hrej & _).
  destruct (Hrej Hfail) as (-> & Hm & Hd & _).
  eexists _, st'. split; [exact Hrun|]. repeat split; [exact Hm|exact Hd].
Qed.

(** C2, counterexample: a process that exits with code 1 after writing to
    its standard output.  The response reports a success, and the turn is
    appended to the history.  And a process that runs into the timeout after
    writing to its standard output: the response reports the failure, with
    an empty output. *)
Lemma nonzero_exit_with_output_succeeds :
  let st := boot 50 (with_shell (fun _ _ => Closed (Some 1%Z) "partial" EmptyString) quiet_world) in
  let run := ClaudeExecutor.executeQuery "status?" "42" st in
  let st' := boot 50 (with_shell (fun _ _ => TimedOut "partial" EmptyString) quiet_world) in
  let run' := ClaudeExecutor.executeQuery "status?" "42" st' in
  (forall cmd, claimed_failure (shell (world st) (spawns (world st)) cmd)) /\
  stored st "42" = [] /\
  fst run = Ok {| success := true; output := "partial"; error := None |} /\
  map turn (stored (snd run) "42") = [(user, "status?"); (assistant, "partial")] /\
  fst run' = Ok {| success := false; output := EmptyString;
                   error := Some "Command timed out after 300000ms" |}.
Proof.
  split; [intros cmd; reflexivity|]. vm_compute. repeat split; reflexivity.
Qed.

(** ** Storage failures *)

(** C3, counterexample.  On a full disk [getSession] for a new user raises the
    error of [writeFile], and so does [addMessage]; the session is in
    memory all the same, and a later [addMessage] appends to it before it
    raises.  [executeQuery] then reports as failed a query whose process
    succeeded.  [clearSession] returns and writes nothing to the console. *)
Theorem write_failure_reaches_caller :
  let st := boot 50 full_disk_world in
  let enospc := mkError "ENOSPC: no space left on device" in
  let st1 := snd (SessionManager.getSession "42" st) in
  let st2 := snd (SessionManager.addMessage "42" user "hello" st1) in
  fst (SessionManager.getSession "42" st) = Raise enospc /\
  fst (SessionManager.addMessage "42" user "hello" st) = Raise enospc /\
  sessions (manager st1) !! "42" = Some (fresh_session "42" (world st)) /\
  fst (SessionManager.addMessage "42" user "hello" st1) = Raise enospc /\
  map turn (stored st2 "42") = [(user, "hello")] /\
  fst (ClaudeExecutor.executeQuery "status?" "42" st)
  = Ok {| success := false; output := EmptyString;
          error := Some "ENOSPC: no space left on device" |} /\
  fst (SessionManager.clearSession "42" st1) = Ok tt /\
  console (world (snd (SessionManager.clearSession "42" st1))) = [].
Proof. vm_compute. repeat split; reflexivity. Qed.

(** Under a bound that is not negative the truncation keeps the message
    that was appended last. *)
Lemma truncate_snoc {A} (max : Z) (l : list A) (x : A) :
  (0 <= max)%Z -> exists earlier, truncate max (l ++ [x]) = (earlier ++ [x])%list.
Proof.
  intros Hmax. unfold truncate, Js.slice. rewrite length_app. simpl List.length.
  destruct (Z.ltb_spec max (Z.of_nat (List.length l + 1))) as [Hlt|Hge];
    [|exists l; reflexivity].
  match goal with
  | |- context [drop ?k _] => exists (drop k l); apply drop_app_le
  end.
  destruct (Z.ltb_spec (- max) 0); lia.
Qed.

(** C3, as far as the code goes.  [clearSession] returns whatever the
    storage does, writes nothing to the console, and leaves no session in
    memory for the user.  [getSession] and [addMessage] change the memory
    before they write: whatever becomes of the write, the user has a session
    in memory afterwards, and a later [getSession] returns it without
    touching the storage.  After [addMessage] the history of that session
    is the history held before with the message appended, truncated as
    [addMessage] does; under a bound that is not negative it ends with the
    appended message.  There is one exception: when the call had to create
    the session and the write of the fresh session failed, [addMessage]
    raises before it appends, and the session in memory is the fresh one,
    without messages. *)
Theorem storage_failure_keeps_memory (st : State) (uid : string) (r : Role) (c : string) :
  let cleared := SessionManager.clearSession uid st in
  let got := SessionManager.getSession uid st in
  let added := SessionManager.addMessage uid r c st in
  (fst cleared = Ok tt /\
   console (world (snd cleared)) = console (world st) /\
   sessions (manager (snd cleared)) !! uid = None) /\
  (exists s,
     sessions (manager (snd got)) !! uid = Some s /\
     SessionManager.getSession uid (snd got) = (Ok s, snd got) /\
     (fst got = Ok s \/ exists e, fst got = Raise e)) /\
  (exists s,
     sessions (manager (snd added)) !! uid = Some s /\
     SessionManager.getSession uid (snd added) = (Ok s, snd added) /\
     (creation_fails st uid = false ->
      exists t,
        messages s
        = truncate (maxMessagesPerSession (manager st))
            (stored st uid ++ [{| role := r; content := c; timestamp := t |}]) /\
        ((0 <= maxMessagesPerSession (manager st))%Z ->
         exists earlier : list Message,
           messages s
           = (earlier ++ [{| role := r; content := c; timestamp := t |}])%list)) /\
     (creation_fails st uid = true ->
      sessions (manager st) !! uid = None /\
      s = fresh_session uid (world st) /\
      exists e, fst added = Raise e)).
Proof.
  intros cleared got added. split; [|split].
  - destruct (clearSession_returns st uid) as [Hr Hc].
    split; [exact Hr|]. split; [exact Hc|].
    subst cleared. destruct_state st. unfold SessionManager.clearSession. run_m.
    destruct (fault calls); [apply lookup_delete_eq|].
    destruct d as [d|]; [|apply lookup_delete_eq].
    destruct (fs.lookup_file _ d); apply lookup_delete_eq.
  - subst got. destruct (sessions (manager st) !! uid) as [s|] eqn:H.
    + rewrite (getSession_present _ _ _ H). exists s. simpl.
      split; [exact H|]. split; [apply getSession_present; exact H|left; reflexivity].
    + exists (fresh_session uid (world st)).
      assert (Hs : sessions (manager (snd (SessionManager.getSession uid st))) !! uid
                   = Some (fresh_session uid (world st))).
      { rewrite (getSession_absent_sessions _ _ H). apply lookup_insert_eq. }
      split; [exact Hs|]. split; [apply getSession_present; exact Hs|].
      clear Hs. destruct_state st. simpl in H.
      unfold SessionManager.getSession, SessionManager.saveSession, fresh_session.
      run_m. rewrite H, lookup_insert_eq.
      destruct (fault calls); [destruct (cut calls); [destruct d|]; right; eexists; reflexivity|].
      destruct d; [left; reflexivity|right; eexists; reflexivity].
  - subst added. unfold stored.
    destruct (sessions (manager st) !! uid) as [s|] eqn:H.
    + destruct (addMessage_present st uid r c s H) as [E _].
      eexists. split; [rewrite E; apply lookup_insert_eq|].
      split; [apply getSession_present; rewrite E; apply lookup_insert_eq|].
      split; [intros _; eexists; split; [reflexivity|apply truncate_snoc]|].
      unfold creation_fails. rewrite (getSession_present _ _ _ H). discriminate.
    + destruct (addMessage_absent st uid r c H) as [E _].
      eexists. split; [rewrite E; apply lookup_insert_eq|].
      split; [apply getSession_present; rewrite E; apply lookup_insert_eq|].
      split; [intros ->; eexists; split; [reflexivity|apply (truncate_snoc _ [])]|].
      intros Hf. rewrite Hf. split; [reflexivity|]. split; [reflexivity|].
      clear E. revert Hf. destruct_state st. simpl in H.
      unfold creation_fails, SessionManager.addMessage, SessionManager.getSession,
        SessionManager.saveSession.
      run_m. rewrite H, lookup_insert_eq.
      destruct (fault calls);
        [destruct (cut calls); [destruct d|]; intros _; eexists; reflexivity|].
      destruct d; [discriminate|intros _; eexists; reflexivity].
Qed.

(** ** Loading *)

(** C4, evaluated.  [initialize] returns on a directory that holds a
    damaged record, but no record listed after the damaged one is loaded:
    the whole record of [alice] is left out, and the console says that no
    sessions were found.  With the two records listed the other way round,
    [alice] is loaded. *)
Theorem damaged_record_stops_loading :
  let st := boot 50 (with_disk (Some damaged_disk) quiet_world) in
  let st' := boot 50 (with_disk (Some (rev damaged_disk)) quiet_world) in
  JSON.as_session <$> JSON.parse (JSON.stringify alice) = Some (Some alice) /\
  JSON.parse ("{ " ++ JSON.key "userId") = None /\
  fst (SessionManager.initialize st) = Ok tt /\
  sessions (manager (snd (SessionManager.initialize st))) !! "1001" = None /\
  size (sessions (manager (snd (SessionManager.initialize st)))) = 0%nat /\
  console (world (snd (SessionManager.initialize st))) = [LogNoSessions] /\
  fst (SessionManager.initialize st') = Ok tt /\
  sessions (manager (snd (SessionManager.initialize st'))) !! "1001" = Some alice.
Proof. vm_compute. repeat split; reflexivity. Qed.

(** What the specification says of loading that the code does: it never
    raises, and with an absent or empty directory no session is loaded. *)
Lemma loadSessions_never_raises (st : State) (e : Error) :
  fst (SessionManager.loadSessions st) <> Raise e.
Proof.
  unfold SessionManager.loadSessions, try_catch.
  match goal with |- context [match ?m with _ => _ end] => destruct m as [[a|e'|] st'] end;
    simpl; discriminate.
Qed.

Lemma loadSessions_nothing_to_load (st : State) :
  sessions (manager st) = ∅ ->
  disk (world st) = None \/ disk (world st) = Some [] ->
  fst (SessionManager.loadSessions st) = Ok tt /\
  sessions (manager (snd (SessionManager.loadSessions st))) = ∅ /\
  (next_io_ok st ->
   fst (SessionManager.initialize st) = Ok tt /\
   sessions (manager (snd (SessionManager.initialize st))) = ∅).
Proof.
  destruct_state st. unfold next_io_ok. simpl. intros -> Hd.
  unfold SessionManager.initialize, SessionManager.loadSessions. run_m.
  destruct Hd as [-> | ->]; simpl; run_m.
  - destruct (fault calls) eqn:Hf; (split; [reflexivity|]); (split; [reflexivity|]);
      intros Hio; [discriminate|].
    destruct (fault (S calls)); split; reflexivity.
  - destruct (fault calls) eqn:Hf; (split; [reflexivity|]); (split; [reflexivity|]);
      intros Hio; [discriminate|].
    destruct (fault (S calls)); split; reflexivity.
Qed.

(** ** Instances *)

(** Scenario A of the specification: a bound of 3, four calls. *)
Lemma addMessage_keeps_most_recent_witness :
  let st := boot 3 quiet_world in
  let calls := [(user, "a"); (assistant, "b"); (user, "c"); (assistant, "d")] in
  is_Some (sessions (manager (addMessages "42" calls st)) !! "42") /\
  (Z.of_nat (List.length (stored (addMessages "42" calls st) "42")) <= 3)%Z /\
  exists new : list Message,
    map turn new = calls /\
    stored (addMessages "42" calls st) "42" = last_n 3 (stored st "42" ++ new).
Proof.
  apply (addMessage_keeps_most_recent (boot 3 quiet_world) "42"
           [(user, "a"); (assistant, "b"); (user, "c"); (assistant, "d")]).
  - reflexivity.
  - discriminate.
Defined.

Lemma getHistory_zero_returns_all_witness :
  SessionManager.getHistory "1001" (Some 0%Z) alice_state = (Ok (messages alice), alice_state) /\
  SessionManager.getHistory "1001" (Some 0%Z) alice_state
  = SessionManager.getHistory "1001" None alice_state.
Proof.
  apply (getHistory_zero_returns_all alice_state "1001" alice). reflexivity.
Defined.

Lemma getConversationContext_text_witness :
  SessionManager.getConversationContext "1001" None alice_state
  = (Ok (context_text (messages alice)), alice_state).
Proof.
  apply (getConversationContext_text alice_state "1001" None alice).
  - reflexivity.
  - discriminate.
  - discriminate.
Defined.

Lemma reads_create_sessions_witness :
  let st := boot 50 quiet_world in
  totalSessions <$> returned (fst (SessionManager.getStats
                     (snd (SessionManager.getHistory "42" None st))))
  = S <$> (totalSessions <$> returned (fst (SessionManager.getStats st))).
Proof.
  apply (reads_create_sessions (boot 50 quiet_world) "42" None). reflexivity.
Defined.

Lemma executeQuery_failure_witness :
  let st := boot 50 (with_shell picky_shell quiet_world) in
  exists (resp : ClaudeResponse) (st' : State),
    ClaudeExecutor.executeQuery "status?" "42" st = (Ok resp, st') /\
    success resp = false /\
    output resp = EmptyString /\
    error resp
    = Some (failure_description
              (shell (world st) (spawns (world st)) (query_command st "status?" "42"))) /\
    manager st' = manager st /\
    disk (world st') = disk (world st).
Proof.
  apply (executeQuery_failure (boot 50 (with_shell picky_shell quiet_world)) "status?" "42").
  vm_compute. repeat split; reflexivity.
Defined.

(** ** The round trip through the session directory *)

Section RoundTrip.

Import JSON.

Lemma append_cons (c : ascii) (a b : string) : String c a ++ b = String c (a ++ b).
Proof. reflexivity. Qed.

Lemma append_nil (b : string) : EmptyString ++ b = b.
Proof. reflexivity. Qed.

Lemma parse_escape_char (c : ascii) (r : string) :
  parse_chars (escape_char c ++ r) = cons_chars (N_of_ascii c) (parse_chars r).
Proof.
  destruct c as [b0 b1 b2 b3 b4 b5 b6 b7].
  destruct b0, b1, b2, b3, b4, b5, b6, b7; reflexivity.
Qed.

Lemma parse_escape (s rest : string) :
  parse_chars (escape s ++ String dquote rest) = Some (code_units s, rest).
Proof.
  induction s as [|c s IH].
  - reflexivity.
  - change (escape (String c s)) with (escape_char c ++ escape s).
    rewrite string_app_assoc, parse_escape_char, IH. reflexivity.
Qed.

Lemma narrow_code_units (s : string) : narrow (code_units s) = Some s.
Proof.
  induction s as [|c s IH]; [reflexivity|].
  change (code_units (String c s)) with (N_of_ascii c :: code_units s).
  simpl narrow. rewrite IH.
  destruct (N.ltb_spec (N_of_ascii c) 256) as [_|H].
  - rewrite ascii_N_embedding. reflexivity.
  - pose proof (N_ascii_bounded c). lia.
Qed.

(** *** Integer literals *)

Lemma span_digits_stop (rest : string) :
  number_stop rest -> span_digits rest = (EmptyString, rest).
Proof.
  destruct rest as [|c r]; [reflexivity|]. intros [-> | ->]; reflexivity.
Qed.

Lemma span_digits_uint (u : Decimal.uint) (rest : string) :
  number_stop rest ->
  span_digits (NilEmpty.string_of_uint u ++ rest) = (NilEmpty.string_of_uint u, rest).
Proof.
  intros Hstop. induction u as [|u IH|u IH|u IH|u IH|u IH|u IH|u IH|u IH|u IH|u IH];
    [exact (span_digits_stop rest Hstop)|..];
    cbn [NilEmpty.string_of_uint]; rewrite append_cons;
    cbn [span_digits]; rewrite IH; reflexivity.
Qed.

Lemma parse_frac_stop (rest : string) :
  number_stop rest -> parse_frac rest = Some (EmptyString, rest).
Proof.
  destruct rest as [|c r]; [reflexivity|]. intros [-> | ->]; reflexivity.
Qed.

Lemma parse_exp_stop (rest : string) :
  number_stop rest -> parse_exp rest = Some (EmptyString, rest).
Proof.
  destruct rest as [|c r]; [reflexivity|]. intros [-> | ->]; reflexivity.
Qed.

Lemma nzhead_not_D0 (u v : Decimal.uint) : Decimal.nzhead u <> Decimal.D0 v.
Proof. induction u; simpl; try discriminate. exact IHu. Qed.

Lemma unorm_canonical (u : Decimal.uint) : canonical (Decimal.unorm u).
Proof.
  unfold Decimal.unorm. destruct (Decimal.nzhead u) as [|v| | | | | | | | |] eqn:E;
    try exact I.
  exfalso. exact (nzhead_not_D0 u v E).
Qed.

Lemma to_uint_canonical (p : positive) : canonical (Pos.to_uint p).
Proof.
  pose proof (DecimalPos.Unsigned.to_of (Pos.to_uint p)) as Hn.
  rewrite DecimalPos.Unsigned.of_to in Hn. simpl in Hn.
  rewrite Hn. apply unorm_canonical.
Qed.

Lemma parse_digits (neg : bool) (u : Decimal.uint) (rest : string) :
  canonical u ->
  number_stop rest ->
  parse_number ((if neg then "-" else EmptyString) ++ NilEmpty.string_of_uint u ++ rest)
  = Some (JNum (Z.of_int (if neg then Decimal.Neg u else Decimal.Pos u)), rest).
Proof.
  intros Hu Hstop.
  assert (Hparse : NilZero.uint_of_string (NilEmpty.string_of_uint u) = Some u).
  { destruct u; [done|..];
    match goal with |- _ = Some ?d => exact (NilZero.usu d ltac:(discriminate)) end. }
  destruct u as [|u|u|u|u|u|u|u|u|u|u]; try done.
  1: destruct u; try done.
  all: destruct neg; unfold parse_number;
    cbn [NilEmpty.string_of_uint]; rewrite ?append_cons, ?append_nil;
    cbn [span_digits is_digit nat_of_ascii Ascii.eqb Bool.eqb];
    rewrite ?span_digits_stop, ?span_digits_uint by exact Hstop;
    repeat match goal with
           | |- context [is_digit ?c] =>
               let v := eval vm_compute in (is_digit c) in change (is_digit c) with v
           end;
    cbv beta iota zeta; rewrite parse_frac_stop, parse_exp_stop by exact Hstop;
    unfold Z_of_digits; cbn [NilEmpty.string_of_uint] in Hparse; rewrite Hparse; reflexivity.
Qed.

Lemma parse_number_Z (z : Z) (rest : string) :
  number_stop rest ->
  parse_number (Js.string_of_Z z ++ rest) = Some (JNum z, rest).
Proof.
  intros Hstop. rewrite <- (DecimalZ.of_to z) at 2.
  unfold Js.string_of_Z. destruct z as [|p|p]; simpl Z.to_int.
  - apply (parse_digits false (Decimal.D0 Decimal.Nil) rest I Hstop).
  - pose proof (to_uint_canonical p) as Hc.
    replace (NilZero.string_of_int (Decimal.Pos (Pos.to_uint p)))
      with (NilEmpty.string_of_uint (Pos.to_uint p))
      by (simpl; destruct (Pos.to_uint p); [done|reflexivity..]).
    apply (parse_digits false _ rest Hc Hstop).
  - pose proof (to_uint_canonical p) as Hc.
    replace (NilZero.string_of_int (Decimal.Neg (Pos.to_uint p)))
      with ("-" ++ NilEmpty.string_of_uint (Pos.to_uint p))
      by (simpl; destruct (Pos.to_uint p); [done|reflexivity..]).
    rewrite string_app_assoc.
    apply (parse_digits true _ rest Hc Hstop).
Qed.

(** *** Values, members, elements *)

Lemma quote_app (s rest : string) :
  quote s ++ rest = String dquote (escape s ++ String dquote rest).
Proof. unfold quote. rewrite append_cons, string_app_assoc. reflexivity. Qed.

Lemma key_app (k rest : string) :
  key k ++ rest = String dquote (escape k ++ String dquote (String ":" (String " " rest))).
Proof. unfold key. rewrite string_app_assoc, quote_app. reflexivity. Qed.

#[local] Arguments escape : simpl never.
#[local] Arguments parse_chars : simpl never.
#[local] Arguments parse_number : simpl never.
#[local] Arguments Js.string_of_Z : simpl never.

Lemma parse_value_string (f : nat) (s rest : string) :
  parse_value (S f) (String " " (quote s ++ rest)) = Some (JStr (code_units s), rest).
Proof. rewrite quote_app. simpl. rewrite parse_escape. reflexivity. Qed.

Lemma string_of_Z_start (z : Z) (rest : string) : number_start (Js.string_of_Z z ++ rest).
Proof.
  unfold Js.string_of_Z.
  assert (H : forall u r, u <> Decimal.Nil -> number_start (NilEmpty.string_of_uint u ++ r)).
  { intros u r Hu. destruct u; [done|..]; left; reflexivity. }
  destruct z as [|p|p]; simpl Z.to_int.
  - left. reflexivity.
  - pose proof (DecimalPos.Unsigned.to_uint_nonnil p) as Hn.
    replace (NilZero.string_of_int (Decimal.Pos (Pos.to_uint p)))
      with (NilEmpty.string_of_uint (Pos.to_uint p))
      by (simpl; destruct (Pos.to_uint p); [done|reflexivity..]).
    apply H, Hn.
  - right. reflexivity.
Qed.

Lemma parse_value_number_start (f : nat) (s : string) :
  number_start s -> parse_value (S f) (String " " s) = parse_number s.
Proof.
  destruct s as [|c r]; [done|]. intros [H | ->]; [|reflexivity].
  destruct c as [b0 b1 b2 b3 b4 b5 b6 b7].
  destruct b0, b1, b2, b3, b4, b5, b6, b7; try discriminate H; reflexivity.
Qed.

Lemma parse_value_number (f : nat) (z : Z) (rest : string) :
  number_stop rest ->
  parse_value (S f) (String " " (Js.string_of_Z z ++ rest)) = Some (JNum z, rest).
Proof.
  intros Hstop. rewrite parse_value_number_start by apply string_of_Z_start.
  apply parse_number_Z, Hstop.
Qed.

#[local] Arguments parse_value : simpl never.
#[local] Arguments parse_members : simpl never.
#[local] Arguments parse_elements : simpl never.

Lemma skip_ws_idem (s : string) : skip_ws (skip_ws s) = skip_ws s.
Proof.
  induction s as [|c s IH]; [reflexivity|]. simpl.
  destruct (is_ws c) eqn:E; [exact IH|]. simpl. rewrite E. reflexivity.
Qed.

(** The equations of the parser. *)

Lemma parse_value_S (fuel : nat) (s : string) :
  parse_value (S fuel) s
  = match skip_ws s with
    | EmptyString => None
    | String c r =>
        if Ascii.eqb c "{" then
          match skip_ws r with
          | String "}" r' => Some (JObj [], r')
          | _ =>
              match parse_members fuel r with
              | Some (ms, r') => Some (JObj ms, r')
              | None => None
              end
          end
        else if Ascii.eqb c "[" then
          match skip_ws r with
          | String "]" r' => Some (JArr [], r')
          | _ =>
              match parse_elements fuel r with
              | Some (vs, r') => Some (JArr vs, r')
              | None => None
              end
          end
        else if Ascii.eqb c dquote then
          match parse_chars r with
          | Some (cs, r') => Some (JStr cs, r')
          | None => None
          end
        else if Ascii.eqb c "t" then literal "rue" (JBool true) r
        else if Ascii.eqb c "f" then literal "alse" (JBool false) r
        else if Ascii.eqb c "n" then literal "ull" JNull r
        else parse_number (String c r)
    end.
Proof. reflexivity. Qed.

Lemma parse_elements_S (fuel : nat) (s : string) :
  parse_elements (S fuel) s
  = match parse_value fuel s with
    | None => None
    | Some (v, r) =>
        match skip_ws r with
        | String "," r' =>
            match parse_elements fuel r' with
            | Some (vs, r'') => Some (v :: vs, r'')
            | None => None
            end
        | String "]" r' => Some ([v], r')
        | _ => None
        end
    end.
Proof. reflexivity. Qed.

Lemma parse_members_S (fuel : nat) (s : string) :
  parse_members (S fuel) s
  = match skip_ws s with
    | String c r =>
        if Ascii.eqb c dquote then
          match parse_chars r with
          | None => None
          | Some (k, r1) =>
              match skip_ws r1 with
              | String ":" r2 =>
                  match parse_value fuel r2 with
                  | None => None
                  | Some (v, r3) =>
                      match skip_ws r3 with
                      | String "," r4 =>
                          match parse_members fuel r4 with
                          | Some (ms, r5) => Some ((k, v) :: ms, r5)
                          | None => None
                          end
                      | String "}" r4 => Some ([(k, v)], r4)
                      | _ => None
                      end
                  end
              | _ => None
              end
          end
        else None
    | EmptyString => None
    end.
Proof. reflexivity. Qed.

Lemma parse_value_skip (f : nat) (s : string) :
  parse_value f (skip_ws s) = parse_value f s.
Proof. destruct f; [reflexivity|]. rewrite !parse_value_S, skip_ws_idem. reflexivity. Qed.

Lemma parse_members_skip (f : nat) (s : string) :
  parse_members f (skip_ws s) = parse_members f s.
Proof. destruct f; [reflexivity|]. rewrite !parse_members_S, skip_ws_idem. reflexivity. Qed.

Lemma parse_elements_skip (f : nat) (s : string) :
  parse_elements f (skip_ws s) = parse_elements f s.
Proof. destruct f; [reflexivity|]. rewrite !parse_elements_S, parse_value_skip. reflexivity. Qed.

Lemma object_open (f : nat) (s k rest : string) :
  skip_ws s = key k ++ rest ->
  parse_value (S f) (String "{" s)
  = match parse_members f (key k ++ rest) with
    | Some (ms, r') => Some (JObj ms, r')
    | None => None
    end.
Proof.
  intros H. rewrite <- H, parse_members_skip.
  rewrite key_app in H. rewrite parse_value_S. simpl. rewrite H. reflexivity.
Qed.

Lemma member_more (f : nat) (k rest : string) (v : json) (r3 r4 : string) :
  parse_value f (String " " rest) = Some (v, r3) ->
  skip_ws r3 = String "," r4 ->
  parse_members (S f) (key k ++ rest)
  = match parse_members f (skip_ws r4) with
    | Some (ms, r5) => Some ((code_units k, v) :: ms, r5)
    | None => None
    end.
Proof.
  intros Hv Hr. rewrite key_app, parse_members_skip, parse_members_S.
  simpl. rewrite parse_escape. simpl. rewrite Hv, Hr. reflexivity.
Qed.

Lemma member_last (f : nat) (k rest : string) (v : json) (r3 r4 : string) :
  parse_value f (String " " rest) = Some (v, r3) ->
  skip_ws r3 = String "}" r4 ->
  parse_members (S f) (key k ++ rest) = Some ([(code_units k, v)], r4).
Proof.
  intros Hv Hr. rewrite key_app, parse_members_S.
  simpl. rewrite parse_escape. simpl. rewrite Hv, Hr. reflexivity.
Qed.

Lemma element_more (f : nat) (s : string) (v : json) (r r' : string) :
  parse_value f s = Some (v, r) ->
  skip_ws r = String "," r' ->
  parse_elements (S f) s
  = match parse_elements f (skip_ws r') with
    | Some (vs, r'') => Some (v :: vs, r'')
    | None => None
    end.
Proof.
  intros Hv Hr. rewrite parse_elements_skip, parse_elements_S, Hv, Hr. reflexivity.
Qed.

Lemma element_last (f : nat) (s : string) (v : json) (r r' : string) :
  parse_value f s = Some (v, r) ->
  skip_ws r = String "]" r' ->
  parse_elements (S f) s = Some ([v], r').
Proof.
  intros Hv Hr. rewrite parse_elements_S, Hv, Hr. reflexivity.
Qed.

Lemma append1 (c : ascii) (s : string) : String c EmptyString ++ s = String c s.
Proof. reflexivity. Qed.

Lemma skip_ws_app (ws s : string) :
  all_ws ws = true -> skip_ws (ws ++ s) = skip_ws s.
Proof.
  induction ws as [|c ws IH]; [reflexivity|]. simpl all_ws. intros H.
  apply andb_prop in H as [Hc Hws]. rewrite append_cons. simpl. rewrite Hc. exact (IH Hws).
Qed.

Lemma skip_ws_key (k rest : string) : skip_ws (key k ++ rest) = key k ++ rest.
Proof. rewrite key_app. reflexivity. Qed.

Lemma number_stop_newline (s : string) : number_stop (newline ++ s).
Proof. right. reflexivity. Qed.

Lemma parse_value_message (f : nat) (m : Message) (rest : string) :
  (5 <= f)%nat ->
  parse_value f (stringify_message m ++ rest) = Some (message_json m, rest).
Proof.
  intros Hf. replace f with (S (S (S (S (S (f - 5)))))) by lia.
  unfold stringify_message. rewrite !string_app_assoc, !append1.
  erewrite (object_open _ _ "role"); [|reflexivity].
  erewrite member_more; [|apply parse_value_string|reflexivity].
  rewrite !skip_ws_app, skip_ws_key by reflexivity.
  erewrite member_more; [|apply parse_value_string|reflexivity].
  rewrite !skip_ws_app, skip_ws_key by reflexivity.
  erewrite member_last;
    [|apply parse_value_number, number_stop_newline|reflexivity].
  reflexivity.
Qed.

Lemma skip_ws_message (m : Message) (rest : string) :
  skip_ws (stringify_message m ++ rest) = stringify_message m ++ rest.
Proof. reflexivity. Qed.

Lemma parse_elements_messages (m : Message) (ms : list Message) :
  forall (f : nat) (rest : string),
    (List.length ms + 6 <= f)%nat ->
    parse_elements f
      (Js.join ("," ++ newline ++ "    ") (map stringify_message (m :: ms))
       ++ newline ++ "  ]" ++ rest)
    = Some (map message_json (m :: ms), rest).
Proof.
  revert m. induction ms as [|m' ms IH]; intros m f rest Hf; simpl in Hf.
  - replace f with (S (f - 1)) by lia. simpl Js.join.
    erewrite element_last; [reflexivity|apply parse_value_message; lia|reflexivity].
  - replace f with (S (f - 1)) by lia.
    change (Js.join ("," ++ newline ++ "    ") (map stringify_message (m :: m' :: ms)))
      with (stringify_message m ++ ("," ++ newline ++ "    ")
            ++ Js.join ("," ++ newline ++ "    ") (map stringify_message (m' :: ms))).
    rewrite !string_app_assoc.
    erewrite element_more; [|apply parse_value_message; lia|reflexivity].
    rewrite !skip_ws_app by reflexivity.
    rewrite parse_elements_skip, IH by lia. reflexivity.
Qed.

Lemma array_open (f : nat) (s s' : string) :
  skip_ws s = String "{" s' ->
  parse_value (S f) (String " " ("[" ++ s))
  = match parse_elements f s with
    | Some (vs, r') => Some (JArr vs, r')
    | None => None
    end.
Proof.
  intros H. rewrite append1, parse_value_S. simpl. rewrite H. reflexivity.
Qed.

Lemma join_messages_start (m : Message) (ms : list Message) (rest : string) :
  exists s', Js.join ("," ++ newline ++ "    ") (map stringify_message (m :: ms)) ++ rest
             = String "{" s'.
Proof.
  destruct ms as [|m' ms].
  - eexists. reflexivity.
  - change (Js.join ("," ++ newline ++ "    ") (map stringify_message (m :: m' :: ms)))
      with (stringify_message m ++ ("," ++ newline ++ "    ")
            ++ Js.join ("," ++ newline ++ "    ") (map stringify_message (m' :: ms))).
    eexists. reflexivity.
Qed.

Lemma parse_value_messages (ms : list Message) (f : nat) (rest : string) :
  (List.length ms + 7 <= f)%nat ->
  parse_value f (String " " (stringify_messages ms ++ rest))
  = Some (JArr (map message_json ms), rest).
Proof.
  intros Hf. replace f with (S (f - 1)) by lia.
  destruct ms as [|m ms].
  - reflexivity.
  - unfold stringify_messages. rewrite !string_app_assoc.
    destruct (join_messages_start m ms (newline ++ "  ]" ++ rest)) as [s' Hs'].
    erewrite array_open.
    + rewrite <- parse_elements_skip, !skip_ws_app by reflexivity.
      rewrite parse_elements_skip, parse_elements_messages by (simpl in Hf; lia).
      reflexivity.
    + rewrite !skip_ws_app by reflexivity. rewrite Hs'. reflexivity.
Qed.

Lemma parse_value_session (s : Session) (f : nat) (rest : string) :
  (List.length (messages s) + 10 <= f)%nat ->
  parse_value f (stringify s ++ rest) = Some (session_json s, rest).
Proof.
  intros Hf. replace f with (S (S (S (S (S (S (f - 6))))))) by lia.
  unfold stringify. rewrite !string_app_assoc, !append1.
  erewrite (object_open _ _ "userId"); [|reflexivity].
  erewrite member_more; [|apply parse_value_string|reflexivity].
  rewrite !skip_ws_app, skip_ws_key by reflexivity.
  erewrite member_more; [|apply parse_value_messages; lia|reflexivity].
  rewrite !skip_ws_app, skip_ws_key by reflexivity.
  erewrite member_more; [|apply parse_value_number; left; reflexivity|reflexivity].
  rewrite !skip_ws_app, skip_ws_key by reflexivity.
  erewrite member_last;
    [|apply parse_value_number, number_stop_newline|reflexivity].
  reflexivity.
Qed.

Lemma as_messages_json (ms : list Message) :
  as_messages (map message_json ms) = Some ms.
Proof.
  induction ms as [|m ms IH]; [reflexivity|].
  simpl map. simpl as_messages. rewrite IH.
  unfold message_json, as_message.
  replace (is_key "role" (code_units "role") && is_key "content" (code_units "content")
           && is_key "timestamp" (code_units "timestamp")) with true by reflexivity.
  rewrite narrow_code_units.
  destruct m as [[|] c t]; reflexivity.
Qed.

Lemma as_session_json (s : Session) : as_session (session_json s) = Some s.
Proof.
  unfold session_json, as_session.
  replace (is_key "userId" (code_units "userId") && is_key "messages" (code_units "messages")
           && is_key "createdAt" (code_units "createdAt")
           && is_key "lastActivityAt" (code_units "lastActivityAt")) with true by reflexivity.
  rewrite narrow_code_units, as_messages_json. destruct s; reflexivity.
Qed.

Lemma string_length_app (a b : string) :
  String.length (a ++ b) = (String.length a + String.length b)%nat.
Proof.
  induction a as [|c a IH]; [reflexivity|].
  rewrite append_cons. simpl. rewrite IH. reflexivity.
Qed.

Lemma string_app_nil_r (a : string) : a ++ EmptyString = a.
Proof.
  induction a as [|c a IH]; [reflexivity|]. rewrite append_cons, IH. reflexivity.
Qed.

Lemma join_messages_length (ms : list Message) :
  (List.length ms
   <= String.length (Js.join ("," ++ newline ++ "    ") (map stringify_message ms)))%nat.
Proof.
  induction ms as [|m ms IH]; [simpl; lia|].
  destruct ms as [|m' ms].
  - simpl Js.join. unfold stringify_message. rewrite append1. simpl. lia.
  - change (Js.join ("," ++ newline ++ "    ") (map stringify_message (m :: m' :: ms)))
      with (stringify_message m ++ ("," ++ newline ++ "    ")
            ++ Js.join ("," ++ newline ++ "    ") (map stringify_message (m' :: ms))).
    set (J := Js.join _ (map stringify_message (m' :: ms))) in *.
    assert (1 <= String.length (stringify_message m))%nat
      by (unfold stringify_message; rewrite append1; simpl String.length; lia).
    rewrite !string_length_app. simpl List.length in *. lia.
Qed.

Lemma stringify_length (s : Session) :
  (List.length (messages s) + 8 <= String.length (stringify s))%nat.
Proof.
  unfold stringify. rewrite !string_length_app.
  pose proof (join_messages_length (messages s)) as H.
  unfold stringify_messages. destruct (messages s) as [|m ms].
  - simpl String.length. simpl List.length. lia.
  - set (J := Js.join _ (map stringify_message (m :: ms))) in *.
    rewrite !string_length_app. simpl String.length. lia.
Qed.

(** The round trip of a session through its JSON text. *)
Lemma parse_stringify (s : Session) :
  JSON.parse (JSON.stringify s) = Some (session_json s).
Proof.
  unfold JSON.parse.
  rewrite <- (string_app_nil_r (stringify s)) at 2.
  rewrite parse_value_session; [reflexivity|].
  pose proof (stringify_length s). lia.
Qed.

(** *** Loading what was saved *)

Lemma decode_stringify (s : Session) : decode (JSON.stringify s) = Some s.
Proof. unfold decode. rewrite parse_stringify. apply as_session_json. Qed.

Lemma parse_session_decoded (text : string) (s : Session) (st : State) :
  decode text = Some s -> SessionManager.parse_session text st = (Ok s, st).
Proof.
  unfold decode, SessionManager.parse_session.
  destruct (JSON.parse text) as [j|]; [|discriminate]. intros ->. reflexivity.
Qed.

Lemma substring_skip (a b : string) (k : nat) :
  substring (String.length a) k (a ++ b) = substring 0 k b.
Proof. induction a as [|c a IH]; [reflexivity|]. rewrite append_cons. simpl. exact IH. Qed.

Lemma substring_all (b : string) : substring 0 (String.length b) b = b.
Proof. induction b as [|c b IH]; [reflexivity|]. simpl. rewrite IH. reflexivity. Qed.

Lemma endsWith_app (a b : string) : Js.endsWith (a ++ b) b = true.
Proof.
  unfold Js.endsWith. rewrite string_length_app.
  replace (String.length a + String.length b - String.length b)%nat
    with (String.length a) by lia.
  rewrite substring_skip, substring_all, String.eqb_refl.
  destruct (Nat.leb_spec (String.length b) (String.length a + String.length b)); [reflexivity|lia].
Qed.

Lemma load_entries (d : list (string * string)) (uid : string) (s : Session) (names : list string) :
  userId s = uid ->
  (forall name, In name names -> loadable d uid s name) ->
  forall st : State,
    healthy d st ->
    let r := for_of names SessionManager.load_entry st in
    fst r = Ok tt /\ healthy d (snd r) /\
    (sessions (manager st) !! uid = Some s \/ In (SessionManager.sessionFile uid) names ->
     sessions (manager (snd r)) !! uid = Some s).
Proof.
  intros Hid. induction names as [|name names IH]; intros Hall st Hst.
  - simpl. split; [reflexivity|]. split; [exact Hst|]. intros [H|[]]. exact H.
  - assert (Hstep : exists st1,
              SessionManager.load_entry name st = (Ok tt, st1) /\ healthy d st1 /\
              (sessions (manager st) !! uid = Some s \/ name = SessionManager.sessionFile uid ->
               sessions (manager st1) !! uid = Some s)).
    { unfold SessionManager.load_entry.
      destruct (Js.endsWith name ".json") eqn:E;
        [change (negb true) with false|change (negb false) with true]; cbv iota.
      - destruct (Hall name (or_introl eq_refl) E) as (text & s' & Hl & Hd & Hsame & Hother).
        destruct Hst as [Hdisk Hio].
        destruct_state st. simpl in Hdisk, Hio. subst d0.
        pose proof (Hio 0%nat) as H0. rewrite Nat.add_0_r in H0.
        run_m. rewrite H0, Hl.
        rewrite (parse_session_decoded _ _ _ Hd).
        eexists. split; [reflexivity|]. split.
        + split; [reflexivity|]. simpl. intros k.
          specialize (Hio (S k)). rewrite Nat.add_succ_r in Hio. exact Hio.
        + simpl. intros Hor.
          destruct (decide (name = SessionManager.sessionFile uid)) as [Heq|Hne].
          * rewrite (Hsame Heq), Hid. apply lookup_insert_eq.
          * rewrite lookup_insert_ne by (apply Hother; exact Hne).
            destruct Hor as [H|H]; [exact H|contradiction].
      - exists st. split; [reflexivity|]. split; [exact Hst|].
        intros [H|H]; [exact H|].
        subst name. unfold SessionManager.sessionFile in E.
        rewrite endsWith_app in E. discriminate. }
    destruct Hstep as (st1 & Hrun & Hst1 & Hs1).
    cbn [for_of]. unfold bind. rewrite Hrun.
    destruct (IH (fun n Hn => Hall n (or_intror Hn)) st1 Hst1) as (Hr & Hh & Hs).
    split; [exact Hr|]. split; [exact Hh|].
    intros [H|[H|H]]; apply Hs; auto.
Qed.

Lemma lookup_file_In (n : string) (d : list (string * string)) :
  In n (map fst d) -> exists t, fs.lookup_file n d = Some t /\ In (n, t) d.
Proof.
  induction d as [|[m t] d IH]; [intros []|]. simpl. intros H.
  destruct (String.eqb_spec m n) as [->|Hne].
  - exists t. split; [reflexivity|]. left. reflexivity.
  - destruct H as [H|H]; [contradiction|].
    destruct (IH H) as (t' & Hl & Hin). exists t'. split; [exact Hl|]. right. exact Hin.
Qed.

Lemma lookup_file_app (n : string) (d e : list (string * string)) :
  fs.lookup_file n (d ++ e)%list
  = match fs.lookup_file n d with
    | Some t => Some t
    | None => fs.lookup_file n e
    end.
Proof.
  induction d as [|[m t] d IH]; [reflexivity|]. simpl.
  destruct (String.eqb m n); [reflexivity|exact IH].
Qed.

Lemma lookup_file_replace (n name text : string) (d : list (string * string)) :
  n <> name ->
  fs.lookup_file n
    (map (fun entry => if String.eqb (fst entry) name then (fst entry, text) else entry) d)
  = fs.lookup_file n d.
Proof.
  intros Hne. induction d as [|[m t] d IH]; [reflexivity|]. simpl.
  destruct (String.eqb_spec m name) as [->|Hm]; simpl.
  - destruct (String.eqb_spec name n) as [E|_]; [congruence|exact IH].
  - destruct (String.eqb m n); [reflexivity|exact IH].
Qed.

Lemma store_file_entries (name text : string) (d : list (string * string)) (n : string) :
  In n (map fst (fs.store_file name text d)) ->
  n = name \/
  exists t, fs.lookup_file n (fs.store_file name text d) = Some t /\ In (n, t) d.
Proof.
  intros Hin. destruct (String.eqb_spec n name) as [->|Hne]; [left; reflexivity|right].
  unfold fs.store_file in *. destruct (fs.lookup_file name d) as [old|] eqn:Hl.
  - rewrite lookup_file_replace by exact Hne. apply lookup_file_In.
    rewrite map_map in Hin. rewrite in_map_iff in *.
    destruct Hin as ([m t] & Hm & Hin). exists (m, t). split; [|exact Hin].
    simpl in *. destruct (String.eqb m name); exact Hm.
  - rewrite lookup_file_app. rewrite map_app, in_app_iff in Hin.
    destruct Hin as [Hin|[Hin|[]]]; [|simpl in Hin; congruence].
    destruct (lookup_file_In n d Hin) as (t & Ht & Hi). exists t. rewrite Ht. auto.
Qed.

Lemma store_file_listed (name text : string) (d : list (string * string)) :
  In name (map fst (fs.store_file name text d)).
Proof.
  pose proof (lookup_store_file name text d) as H.
  induction (fs.store_file name text d) as [|[m t] e IH]; [discriminate|].
  simpl in *. destruct (String.eqb_spec m name) as [->|_]; [left; reflexivity|].
  right. exact (IH H).
Qed.

(** C7.  Once [saveSession] has written the record of a session held in
    memory under its own [userId], a restart ([initialize] on new objects,
    same directory) returns with that session in memory again: same
    [userId], same messages (role, content, timestamp) in the same order,
    same [createdAt] and [lastActivityAt].  The storage is assumed not to
    fail during the save and the load, and the other [.json] records of the
    directory to be records of other users. *)
Theorem save_load_roundtrip (st : State) (uid : string) (s : Session) (d : list (string * string)) :
  sessions (manager st) !! uid = Some s ->
  userId s = uid ->
  disk (world st) = Some d ->
  (forall k, io_fault (world st) (io_calls (world st) + k) = None) ->
  (forall name text,
     In (name, text) d -> Js.endsWith name ".json" = true ->
     name <> SessionManager.sessionFile uid ->
     exists s', decode text = Some s' /\ userId s' <> uid) ->
  let saved := SessionManager.saveSession uid st in
  let loaded := SessionManager.initialize (restart (snd saved)) in
  fst saved = Ok tt /\
  record (world (snd saved)) (SessionManager.sessionFile uid) = Some (JSON.stringify s) /\
  fst loaded = Ok tt /\
  sessions (manager (snd loaded)) !! uid = Some s.
Proof.
  intros Hs Hid Hd Hio Hothers.
  destruct_state st. simpl in Hs, Hd, Hio. subst d0.
  pose proof (Hio 0%nat) as H0. rewrite Nat.add_0_r in H0.
  pose proof (Hio 1%nat) as H1. rewrite Nat.add_1_r in H1.
  pose proof (Hio 2%nat) as H2. replace (calls + 2)%nat with (S (S calls)) in H2 by lia.
  unfold SessionManager.saveSession, SessionManager.initialize, SessionManager.loadSessions,
    restart, record, SessionManager.new.
  run_m. rewrite Hs. rewrite H0. run_m. rewrite H1, H2. run_m.
  split; [reflexivity|]. split; [apply lookup_store_file|].
  set (d' := fs.store_file (SessionManager.sessionFile uid) (JSON.stringify s) d).
  match goal with
  | |- context [for_of ?names SessionManager.load_entry ?st0] =>
      pose proof (load_entries d' uid s names Hid) as Hloop;
      specialize (fun H => Hloop H st0)
  end.
  destruct Hloop as (Hr & _ & Hload).
  { intros name Hin Hext.
    destruct (decide (name = SessionManager.sessionFile uid)) as [->|Hne].
    - exists (JSON.stringify s), s. split; [apply lookup_store_file|].
      split; [apply decode_stringify|]. split; [reflexivity|contradiction].
    - destruct (store_file_entries _ _ _ _ Hin) as [Heq|(t & Hl & Hi)]; [contradiction|].
      destruct (Hothers name t Hi Hext Hne) as (s' & Hdec & Hs').
      exists t, s'. split; [exact Hl|]. split; [exact Hdec|].
      split; [contradiction|]. intros _. exact Hs'. }
  { split; [reflexivity|]. simpl. intros k.
    specialize (Hio (3 + k)%nat). replace (calls + (3 + k))%nat with (S (S (S calls)) + k)%nat in Hio by lia.
    exact Hio. }
  specialize (Hload (or_intror (store_file_listed _ _ _))).
  match goal with
  | |- context [for_of ?names SessionManager.load_entry ?st0] =>
      change (for_of names SessionManager.load_entry st0)
        with (for_of (map fst d') SessionManager.load_entry st0) in *;
      destruct (for_of (map fst d') SessionManager.load_entry st0) as [r st2]
  end.
  simpl in Hr, Hload. subst r. destruct st2 as [[? ? ?] ? ?]. simpl in Hload.
  split; [reflexivity|exact Hload].
Qed.

End RoundTrip.

Lemma save_load_roundtrip_witness :
  let saved := SessionManager.saveSession "1001" shared_state in
  let loaded := SessionManager.initialize (restart (snd saved)) in
  fst saved = Ok tt /\
  record (world (snd saved)) (SessionManager.sessionFile "1001") = Some (JSON.stringify alice) /\
  fst loaded = Ok tt /\
  sessions (manager (snd loaded)) !! "1001" = Some alice.
Proof.
  apply (save_load_roundtrip shared_state "1001" alice
           [ ("notes.txt", "not a record"); ("2002.json", JSON.stringify bob) ]).
  - reflexivity.
  - reflexivity.
  - reflexivity.
  - intros k. reflexivity.
  - intros name text [H|[H|[]]] Hext Hne; inversion H; subst.
    + discriminate Hext.
    + exists bob. split; [vm_compute; reflexivity|discriminate].
Defined.

(** ** The session directory as a list of entries *)

Lemma lookup_file_None (name : string) (d : list (string * string)) :
  fs.lookup_file name d = None -> forall t, ~ In (name, t) d.
Proof.
  induction d as [|[m t'] d IH]; [intros _ t []|]. simpl.
  destruct (String.eqb_spec m name) as [->|Hne]; [discriminate|].
  intros H t [E|Hin]; [congruence|]. exact (IH H t Hin).
Qed.

Lemma lookup_file_Some_In (name text : string) (d : list (string * string)) :
  fs.lookup_file name d = Some text -> In (name, text) d.
Proof.
  induction d as [|[m t'] d IH]; [discriminate|]. simpl.
  destruct (String.eqb_spec m name) as [->|Hne].
  - intros [= ->]. left. reflexivity.
  - intros H. right. exact (IH H).
Qed.

Lemma In_store_file (name text : string) (d : list (string * string)) (n t : string) :
  In (n, t) (fs.store_file name text d) ->
  (n = name /\ t = text) \/ (n <> name /\ In (n, t) d).
Proof.
  unfold fs.store_file. destruct (fs.lookup_file name d) as [old|] eqn:Hl.
  - clear Hl. induction d as [|[m t'] d IH]; [intros []|]. simpl.
    destruct (String.eqb_spec m name) as [->|Hne]; intros [E|Hin].
    + left. inversion E. split; reflexivity.
    + destruct (IH Hin) as [H|[H1 H2]]; [left; exact H|right; auto].
    + inversion E; subst. right. split; [exact Hne|left; reflexivity].
    + destruct (IH Hin) as [H|[H1 H2]]; [left; exact H|right; auto].
  - rewrite in_app_iff. intros [Hin|[E|[]]].
    + right. split; [|exact Hin]. intros ->. exact (lookup_file_None _ _ Hl _ Hin).
    + inversion E. left. split; reflexivity.
Qed.

Lemma lookup_store_file_ne (n name text : string) (d : list (string * string)) :
  n <> name -> fs.lookup_file n (fs.store_file name text d) = fs.lookup_file n d.
Proof.
  intros Hne. unfold fs.store_file. destruct (fs.lookup_file name d) as [old|] eqn:Hl.
  - clear Hl. induction d as [|[m t] d IH]; [reflexivity|]. simpl.
    destruct (String.eqb_spec m name) as [->|Hm]; simpl.
    + destruct (String.eqb_spec name n) as [E|_]; [congruence|exact IH].
    + destruct (String.eqb m n); [reflexivity|exact IH].
  - induction d as [|[m t] d IH]; simpl.
    + destruct (String.eqb_spec name n) as [E|_]; [congruence|reflexivity].
    + simpl in Hl. destruct (String.eqb_spec m name) as [->|Hm]; [discriminate|].
      destruct (String.eqb m n); [reflexivity|exact (IH Hl)].
Qed.

Lemma In_remove_file (name : string) (d : list (string * string)) (n t : string) :
  In (n, t) (fs.remove_file name d) <-> n <> name /\ In (n, t) d.
Proof.
  unfold fs.remove_file. rewrite filter_In. simpl.
  destruct (String.eqb_spec n name) as [->|Hne]; simpl; split.
  - intros [_ H]. discriminate.
  - intros [H _]. contradiction.
  - intros [H _]. auto.
  - intros [_ H]. auto.
Qed.

Lemma lookup_remove_file_ne (n name : string) (d : list (string * string)) :
  n <> name -> fs.lookup_file n (fs.remove_file name d) = fs.lookup_file n d.
Proof.
  intros Hne. unfold fs.remove_file. induction d as [|[m t] d IH]; [reflexivity|]. simpl.
  destruct (String.eqb_spec m name) as [->|Hm]; simpl.
  - destruct (String.eqb_spec name n) as [E|_]; [congruence|exact IH].
  - destruct (String.eqb m n); [reflexivity|exact IH].
Qed.

Lemma string_app_inj_l (a b c : string) : a ++ c = b ++ c -> a = b.
Proof.
  revert b. induction a as [|x a IH]; intros [|y b] H.
  - reflexivity.
  - exfalso. apply (f_equal String.length) in H.
    rewrite !string_length_app in H. simpl in H. lia.
  - exfalso. apply (f_equal String.length) in H.
    rewrite !string_length_app in H. simpl in H. lia.
  - change (String x (a ++ c) = String y (b ++ c)) in H.
    injection H as -> H. f_equal. apply IH. exact H.
Qed.

Lemma sessionFile_inj (a b : string) :
  SessionManager.sessionFile a = SessionManager.sessionFile b -> a = b.
Proof. apply string_app_inj_l. Qed.

Lemma healthy_step (d d' : list (string * string)) (st st' : State) (n : nat) :
  healthy d st ->
  disk (world st') = Some d' ->
  io_fault (world st') = io_fault (world st) ->
  io_calls (world st') = (io_calls (world st) + n)%nat ->
  healthy d' st'.
Proof.
  intros [_ Hio] Hd Hf Hc. split; [exact Hd|]. intros k.
  rewrite Hf, Hc, <- Nat.add_assoc. apply Hio.
Qed.

(** ** Calls under a working storage *)

Lemma getSession_healthy (st : State) (uid : string) (d : list (string * string)) :
  healthy d st ->
  let st' := snd (SessionManager.getSession uid st) in
  exists s d',
    fst (SessionManager.getSession uid st) = Ok s /\
    sessions (manager st') = <[uid := s]> (sessions (manager st)) /\
    s = default (fresh_session uid (world st)) (sessions (manager st) !! uid) /\
    healthy d' st' /\
    d' = match sessions (manager st) !! uid with
         | Some _ => d
         | None => fs.store_file (SessionManager.sessionFile uid) (JSON.stringify s) d
         end /\
    same_objects st st'.
Proof.
  intros Hh st'. subst st'. pose proof Hh as [Hd Hio].
  pose proof (Hio 0%nat) as H0. rewrite Nat.add_0_r in H0.
  destruct (sessions (manager st) !! uid) as [s|] eqn:H.
  - rewrite (getSession_present _ _ _ H). exists s, d. simpl.
    split; [reflexivity|]. split; [symmetry; apply insert_id; exact H|].
    split; [reflexivity|]. split; [exact Hh|]. split; [reflexivity|].
    repeat split.
  - revert Hh. destruct_state st. simpl in *. subst d0. intros Hh.
    unfold SessionManager.getSession, SessionManager.saveSession, fresh_session.
    run_m. rewrite H, lookup_insert_eq, H0.
    eexists _, _. split; [reflexivity|]. split; [reflexivity|]. split; [reflexivity|].
    split; [|split; [reflexivity|repeat split]].
    eapply (healthy_step _ _ _ _ 1 Hh); simpl; [reflexivity|reflexivity|lia].
Qed.

Lemma addMessage_healthy (st : State) (uid : string) (r : Role) (c : string)
    (d : list (string * string)) :
  healthy d st ->
  let st' := snd (SessionManager.addMessage uid r c st) in
  exists s' d' t,
    fst (SessionManager.addMessage uid r c st) = Ok tt /\
    sessions (manager st') = <[uid := s']> (sessions (manager st)) /\
    userId s' = userId (default (fresh_session uid (world st)) (sessions (manager st) !! uid)) /\
    messages s'
    = truncate (maxMessagesPerSession (manager st))
        (stored st uid ++ [{| role := r; content := c; timestamp := t |}]) /\
    healthy d' st' /\
    d' = fs.store_file (SessionManager.sessionFile uid) (JSON.stringify s')
           match sessions (manager st) !! uid with
           | Some _ => d
           | None => fs.store_file (SessionManager.sessionFile uid)
                       (JSON.stringify (fresh_session uid (world st))) d
           end /\
    same_objects st st'.
Proof.
  intros Hh st'. subst st'. pose proof Hh as [Hd Hio].
  pose proof (Hio 0%nat) as H0. rewrite Nat.add_0_r in H0.
  pose proof (Hio 1%nat) as H1. rewrite Nat.add_1_r in H1.
  unfold stored.
  revert Hh. destruct_state st. simpl in *. subst d0. intros Hh.
  unfold SessionManager.addMessage, SessionManager.getSession,
    SessionManager.saveSession, fresh_session.
  run_m.
  destruct (ss !! uid) as [s|] eqn:H.
  - rewrite (alter_present _ _ _ _ H).
    destruct (_ <? _)%Z eqn:E.
    + rewrite (alter_present _ _ _ _ (lookup_insert_eq _ _ _)), insert_insert_eq.
      rewrite (alter_present _ _ _ _ (lookup_insert_eq _ _ _)), insert_insert_eq.
      rewrite lookup_insert_eq, H0.
      eexists _, _, (clk tk). split; [reflexivity|]. split; [reflexivity|].
      split; [reflexivity|]. split; [unfold truncate; rewrite E; reflexivity|].
      split; [|split; [reflexivity|repeat split]].
      eapply (healthy_step _ _ _ _ 1 Hh); simpl; [reflexivity|reflexivity|lia].
    + rewrite (alter_present _ _ _ _ (lookup_insert_eq _ _ _)), insert_insert_eq.
      rewrite lookup_insert_eq, H0.
      eexists _, _, (clk tk). split; [reflexivity|]. split; [reflexivity|].
      split; [reflexivity|]. split; [unfold truncate; rewrite E; reflexivity|].
      split; [|split; [reflexivity|repeat split]].
      eapply (healthy_step _ _ _ _ 1 Hh); simpl; [reflexivity|reflexivity|lia].
  - rewrite lookup_insert_eq, H0.
    rewrite (alter_present _ _ _ _ (lookup_insert_eq _ _ _)), insert_insert_eq.
    simpl List.length.
    destruct (_ <? _)%Z eqn:E.
    + rewrite (alter_present _ _ _ _ (lookup_insert_eq _ _ _)), insert_insert_eq.
      rewrite (alter_present _ _ _ _ (lookup_insert_eq _ _ _)), insert_insert_eq.
      rewrite lookup_insert_eq, H1.
      eexists _, _, (clk (S (S tk))). split; [reflexivity|]. split; [reflexivity|].
      split; [reflexivity|]. split; [simpl in E; unfold truncate; simpl; rewrite E; reflexivity|].
      split; [|split; [reflexivity|repeat split]].
      eapply (healthy_step _ _ _ _ 2 Hh); simpl; [reflexivity|reflexivity|lia].
    + rewrite (alter_present _ _ _ _ (lookup_insert_eq _ _ _)), insert_insert_eq.
      rewrite lookup_insert_eq, H1.
      eexists _, _, (clk (S (S tk))). split; [reflexivity|]. split; [reflexivity|].
      split; [reflexivity|]. split; [simpl in E; unfold truncate; simpl; rewrite E; reflexivity|].
      split; [|split; [reflexivity|repeat split]].
      eapply (healthy_step _ _ _ _ 2 Hh); simpl; [reflexivity|reflexivity|lia].
Qed.

Lemma represents_store (d : list (string * string)) (ss : gmap string Session)
    (uid : string) (s : Session) :
  represents d ss -> userId s = uid ->
  represents (fs.store_file (SessionManager.sessionFile uid) (JSON.stringify s) d)
             (<[uid := s]> ss).
Proof.
  intros [Hmem Hdisk] Hid. split.
  - intros k s0 Hk. destruct (decide (k = uid)) as [->|Hne].
    + rewrite lookup_insert_eq in Hk. injection Hk as <-. split; [exact Hid|].
      exists (JSON.stringify s). split; [apply lookup_store_file|apply decode_stringify].
    + rewrite lookup_insert_ne in Hk by congruence.
      destruct (Hmem k s0 Hk) as (Hu & text & Hl & Hdec). split; [exact Hu|].
      exists text. split; [|exact Hdec].
      rewrite lookup_store_file_ne; [exact Hl|].
      intros E. apply Hne. exact (sessionFile_inj _ _ E).
  - intros name text Hin Hext.
    destruct (In_store_file _ _ _ _ _ Hin) as [[-> ->]|[Hne Hin']].
    + exists uid, s. split; [reflexivity|]. split; [apply lookup_insert_eq|apply decode_stringify].
    + destruct (Hdisk name text Hin' Hext) as (k & s0 & -> & Hk & Hdec).
      exists k, s0. split; [reflexivity|]. split; [|exact Hdec].
      rewrite lookup_insert_ne; [exact Hk|]. intros ->. contradiction.
Qed.

Lemma represents_remove (d : list (string * string)) (ss : gmap string Session) (uid : string) :
  represents d ss ->
  represents (fs.remove_file (SessionManager.sessionFile uid) d) (delete uid ss).
Proof.
  intros [Hmem Hdisk]. split.
  - intros k s0 Hk. destruct (decide (k = uid)) as [->|Hne].
    + rewrite lookup_delete_eq in Hk. discriminate.
    + rewrite lookup_delete_ne in Hk by congruence.
      destruct (Hmem k s0 Hk) as (Hu & text & Hl & Hdec). split; [exact Hu|].
      exists text. split; [|exact Hdec].
      rewrite lookup_remove_file_ne; [exact Hl|].
      intros E. apply Hne. exact (sessionFile_inj _ _ E).
  - intros name text Hin Hext. apply In_remove_file in Hin as [Hne Hin].
    destruct (Hdisk name text Hin Hext) as (k & s0 & -> & Hk & Hdec).
    exists k, s0. split; [reflexivity|]. split; [|exact Hdec].
    rewrite lookup_delete_ne; [exact Hk|]. intros ->. contradiction.
Qed.

Lemma represents_absent (d : list (string * string)) (ss : gmap string Session) (uid : string) :
  represents d ss ->
  fs.lookup_file (SessionManager.sessionFile uid) d = None ->
  ss !! uid = None.
Proof.
  intros [Hmem _] Hl. destruct (ss !! uid) as [s|] eqn:E; [|reflexivity].
  destruct (Hmem uid s E) as (_ & text & Hl' & _). congruence.
Qed.

Lemma getHistory_state (st : State) (uid : string) (lastN : option Z) :
  snd (SessionManager.getHistory uid lastN st) = snd (SessionManager.getSession uid st).
Proof.
  unfold SessionManager.getHistory, bind.
  destruct (SessionManager.getSession uid st) as [[s| |] st'] eqn:G; [|reflexivity..].
  destruct lastN as [n|]; [|reflexivity].
  destruct (Js.truthy_number n); reflexivity.
Qed.

Lemma getConversationContext_state (st : State) (uid : string) (lastN : option Z) :
  snd (SessionManager.getConversationContext uid lastN st)
  = snd (SessionManager.getSession uid st).
Proof.
  unfold SessionManager.getConversationContext, SessionManager.getHistory, bind.
  destruct (SessionManager.getSession uid st) as [[s| |] st'] eqn:G; [|reflexivity..].
  destruct (Js.truthy_number _); simpl;
    destruct (List.length _ =? 0)%nat; reflexivity.
Qed.

Lemma clearSession_sessions (st : State) (uid : string) :
  let st' := snd (SessionManager.clearSession uid st) in
  sessions (manager st') = delete uid (sessions (manager st)) /\ same_objects st st'.
Proof.
  destruct_state st. unfold SessionManager.clearSession, same_objects. run_m.
  destruct (fault calls); [repeat split|].
  destruct d as [d|]; [|repeat split].
  destruct (fs.lookup_file _ d); repeat split.
Qed.

Lemma clearSession_healthy (st : State) (uid : string) (d : list (string * string)) :
  healthy d st ->
  healthy (fs.remove_file (SessionManager.sessionFile uid) d)
          (snd (SessionManager.clearSession uid st)).
Proof.
  intros Hh. pose proof Hh as [Hd Hio].
  pose proof (Hio 0%nat) as H0. rewrite Nat.add_0_r in H0.
  revert Hh. destruct_state st. simpl in *. subst d0. intros Hh.
  unfold SessionManager.clearSession. run_m. rewrite H0.
  destruct (fs.lookup_file _ d) eqn:E.
  - eapply (healthy_step _ _ _ _ 1 Hh); simpl; [reflexivity|reflexivity|lia].
  - eapply (healthy_step _ _ _ _ 1 Hh); simpl; [|reflexivity|lia].
    f_equal. unfold fs.remove_file. symmetry.
    clear -E. induction d as [|[m t] d IH]; [reflexivity|]. simpl in *.
    destruct (String.eqb m _); [discriminate|]. simpl. f_equal. exact (IH E).
Qed.

Section ExecuteQueryInvariant.

Variable P : State -> Prop.

Lemma executeQuery_inv (q uid : string) (st : State) :
  (forall a b, same_store a b -> P a -> P b) ->
  (forall a r c, P a -> P (snd (SessionManager.addMessage uid r c a))) ->
  P st -> P (snd (ClaudeExecutor.executeQuery q uid st)).
Proof.
  intros Hsame Hadd HP.
  assert (Hfrom : forall a b, P a -> same_store a b -> P b) by eauto.
  destruct_state st.
  unfold ClaudeExecutor.executeQuery, ClaudeExecutor.execCommand. run_m.
  repeat case_step.
  all: try (eapply Hsame; [|exact HP]; repeat split; fail).
  all: repeat match goal with
       | H : SessionManager.addMessage ?u ?r ?c ?a = (_, ?b) |- _ =>
           lazymatch goal with
           | K : P b |- _ => fail
           | _ =>
               assert (P b)
                 by (replace b with (snd (SessionManager.addMessage u r c a))
                       by (rewrite H; reflexivity);
                     apply Hadd;
                     first [assumption | apply (Hfrom _ _ HP); repeat split])
           end
       end.
  all: first [assumption
             | match goal with
               | K : P _ |- _ => apply (Hfrom _ _ K); solve [repeat split]
               end].
Qed.

End ExecuteQueryInvariant.

Lemma same_store_in_sync (a b : State) : same_store a b -> in_sync a -> in_sync b.
Proof.
  intros (Hm & Hd & _ & _ & Hf & Hc) (d & [Hdisk Hio] & Hrep).
  exists d. split; [split|].
  - rewrite Hd. exact Hdisk.
  - intros k. rewrite Hf, Hc. apply Hio.
  - rewrite Hm. exact Hrep.
Qed.

Lemma onClear_state (st : State) (uid : string) :
  same_store (snd (SessionManager.clearSession uid st)) (snd (RemoteAssistantBot.onClear uid st)).
Proof.
  destruct_state st.
  unfold RemoteAssistantBot.onClear, SessionManager.clearSession, ClaudeExecutor.clearSession,
    same_store.
  run_m.
  destruct (fault calls); [repeat split|].
  destruct d as [d|]; [|repeat split].
  destruct (fs.lookup_file _ d); repeat split.
Qed.

Lemma getSession_in_sync (st : State) (uid : string) :
  in_sync st -> in_sync (snd (SessionManager.getSession uid st)).
Proof.
  intros (d & Hh & Hrep).
  destruct (getSession_healthy st uid d Hh) as (s & d' & _ & Hs & Hdef & Hh' & Hd' & _).
  exists d'. split; [exact Hh'|]. rewrite Hs.
  destruct (sessions (manager st) !! uid) as [s0|] eqn:E; simpl in Hdef; subst.
  - rewrite insert_id by exact E. exact Hrep.
  - apply represents_store; [exact Hrep|reflexivity].
Qed.

Lemma addMessage_in_sync (st : State) (uid : string) (r : Role) (c : string) :
  in_sync st -> in_sync (snd (SessionManager.addMessage uid r c st)).
Proof.
  intros (d & Hh & Hrep).
  destruct (addMessage_healthy st uid r c d Hh)
    as (s' & d' & t & _ & Hs & Hid & _ & Hh' & Hd' & _).
  exists d'. split; [exact Hh'|]. rewrite Hs.
  destruct (sessions (manager st) !! uid) as [s0|] eqn:E; simpl in Hid; subst d'.
  - apply represents_store; [exact Hrep|].
    rewrite Hid. exact (proj1 (proj1 Hrep uid s0 E)).
  - rewrite <- (insert_insert_eq (sessions (manager st)) uid s' (fresh_session uid (world st))).
    apply represents_store; [|exact Hid].
    apply represents_store; [exact Hrep|reflexivity].
Qed.

Lemma clearSession_in_sync (st : State) (uid : string) :
  in_sync st -> in_sync (snd (SessionManager.clearSession uid st)).
Proof.
  intros (d & Hh & Hrep).
  exists (fs.remove_file (SessionManager.sessionFile uid) d).
  split; [apply clearSession_healthy; exact Hh|].
  rewrite (proj1 (clearSession_sessions st uid)).
  apply represents_remove. exact Hrep.
Qed.

Lemma load_all (d : list (string * string)) (M : gmap string Session) (names : list string) :
  represents d M ->
  (forall n, In n names -> In n (map fst d)) ->
  forall st : State,
    healthy d st ->
    (forall uid s, sessions (manager st) !! uid = Some s -> M !! uid = Some s) ->
    let r := for_of names SessionManager.load_entry st in
    fst r = Ok tt /\ healthy d (snd r) /\
    (forall uid s, sessions (manager (snd r)) !! uid = Some s -> M !! uid = Some s) /\
    (forall uid s, M !! uid = Some s ->
       sessions (manager st) !! uid = Some s \/ In (SessionManager.sessionFile uid) names ->
       sessions (manager (snd r)) !! uid = Some s).
Proof.
  intros Hrep. induction names as [|name names IH]; intros Hall st Hst Hsub.
  - simpl. split; [reflexivity|]. split; [exact Hst|]. split; [exact Hsub|].
    intros uid s _ [H|[]]. exact H.
  - assert (Hstep : exists st1,
              SessionManager.load_entry name st = (Ok tt, st1) /\ healthy d st1 /\
              (forall uid s, sessions (manager st1) !! uid = Some s -> M !! uid = Some s) /\
              (forall uid s, M !! uid = Some s ->
                 sessions (manager st) !! uid = Some s \/ name = SessionManager.sessionFile uid ->
                 sessions (manager st1) !! uid = Some s)).
    { unfold SessionManager.load_entry.
      destruct (Js.endsWith name ".json") eqn:E;
        [change (negb true) with false|change (negb false) with true]; cbv iota.
      - destruct (lookup_file_In name d (Hall name (or_introl eq_refl))) as (text & Hl & Hin).
        destruct (proj2 Hrep name text Hin E) as (k & s0 & -> & Hk & Hdec).
        pose proof (proj1 (proj1 Hrep k s0 Hk)) as Hid.
        destruct Hst as [Hdisk Hio].
        destruct_state st. simpl in Hdisk, Hio, Hsub. subst d0.
        pose proof (Hio 0%nat) as H0. rewrite Nat.add_0_r in H0.
        run_m. rewrite H0, Hl.
        rewrite (parse_session_decoded _ _ _ Hdec).
        eexists. split; [reflexivity|]. split; [|split].
        + split; [reflexivity|]. simpl. intros j.
          specialize (Hio (S j)). rewrite Nat.add_succ_r in Hio. exact Hio.
        + simpl. intros uid s. rewrite Hid.
          destruct (decide (uid = k)) as [->|Hne].
          * rewrite lookup_insert_eq. intros [= <-]. exact Hk.
          * rewrite lookup_insert_ne by congruence. apply Hsub.
        + simpl. intros uid s HM Hor. rewrite Hid.
          destruct (decide (uid = k)) as [->|Hne].
          * rewrite lookup_insert_eq. congruence.
          * rewrite lookup_insert_ne by congruence.
            destruct Hor as [H|H]; [exact H|].
            exfalso. apply Hne. symmetry. exact (sessionFile_inj _ _ H).
      - exists st. split; [reflexivity|]. split; [exact Hst|]. split; [exact Hsub|].
        intros uid s _ [H|H]; [exact H|].
        subst name. unfold SessionManager.sessionFile in E.
        rewrite endsWith_app in E. discriminate. }
    destruct Hstep as (st1 & Hrun & Hst1 & Hsub1 & Hs1).
    cbn [for_of]. unfold bind. rewrite Hrun.
    destruct (IH (fun n Hn => Hall n (or_intror Hn)) st1 Hst1 Hsub1) as (Hr & Hh & Hsub' & Hs).
    split; [exact Hr|]. split; [exact Hh|]. split; [exact Hsub'|].
    intros uid s HM [H|[H|H]]; apply (Hs uid s HM); auto.
Qed.

Lemma restart_loads (st : State) (d : list (string * string)) (M : gmap string Session) :
  healthy d st ->
  represents d M ->
  let loaded := SessionManager.initialize (restart st) in
  fst loaded = Ok tt /\ sessions (manager (snd loaded)) = M /\ healthy d (snd loaded).
Proof.
  intros [Hd Hio] Hrep.
  destruct_state st. simpl in Hd, Hio. subst d0.
  pose proof (Hio 0%nat) as H0. rewrite Nat.add_0_r in H0.
  pose proof (Hio 1%nat) as H1. rewrite Nat.add_1_r in H1.
  unfold SessionManager.initialize, SessionManager.loadSessions, restart, SessionManager.new,
    ClaudeExecutor.new.
  run_m. rewrite H0. run_m. rewrite H1. run_m.
  match goal with
  | |- context [for_of ?names SessionManager.load_entry ?st0] =>
      pose proof (load_all d M names Hrep (fun n H => H) st0) as Hloop
  end.
  destruct Hloop as (Hr & Hh & Hsub & Hload).
  { split; [reflexivity|]. simpl. intros k.
    specialize (Hio (2 + k)%nat).
    replace (calls + (2 + k))%nat with (S (S calls) + k)%nat in Hio by lia. exact Hio. }
  { simpl. intros uid s. rewrite lookup_empty. discriminate. }
  match goal with
  | |- context [for_of ?names SessionManager.load_entry ?st0] =>
      change (for_of names SessionManager.load_entry st0)
        with (for_of (map fst d) SessionManager.load_entry st0) in *;
      destruct (for_of (map fst d) SessionManager.load_entry st0) as [r st2] eqn:Hrun
  end.
  simpl in Hr, Hsub, Hload, Hh. subst r.
  destruct st2 as [[dir2 ss2 max2] ex2 [d2 ? ? ? ? ? ? ? ? ?]]. simpl in *.
  split; [reflexivity|]. split.
  - apply map_eq. intros k. destruct (M !! k) as [s|] eqn:E.
    + apply (Hload k s E). right.
      destruct (proj1 Hrep k s E) as (_ & text & Hl & _).
      apply in_map_iff. exists (SessionManager.sessionFile k, text).
      split; [reflexivity|]. apply lookup_file_Some_In. exact Hl.
    + destruct (ss2 !! k) as [s|] eqn:E2; [|reflexivity].
      rewrite (Hsub k s E2) in E. discriminate.
  - destruct Hh as [Hd2 Hio2]. split; [exact Hd2|exact Hio2].
Qed.

(** ** Isolation between users, invariants of the sessions *)

(** The session that a call for [uid] leaves in memory. *)
Lemma addMessage_sessions (st : State) (uid : string) (r : Role) (c : string) :
  let st' := snd (SessionManager.addMessage uid r c st) in
  exists s',
    sessions (manager st') = <[uid := s']> (sessions (manager st)) /\
    userId s' = userId (default (fresh_session uid (world st)) (sessions (manager st) !! uid)) /\
    (exists new, messages s' = truncate (maxMessagesPerSession (manager st)) (stored st uid ++ new)) /\
    maxMessagesPerSession (manager st') = maxMessagesPerSession (manager st).
Proof.
  intros st'. subst st'. unfold stored.
  destruct (sessions (manager st) !! uid) as [s|] eqn:H.
  - destruct (addMessage_present st uid r c s H) as [E Hmax].
    eexists. split; [exact E|]. split; [reflexivity|]. split; [|exact Hmax].
    eexists. reflexivity.
  - destruct (addMessage_absent st uid r c H) as [E Hmax].
    eexists. split; [exact E|]. split; [|split; [|exact Hmax]].
    + destruct (creation_fails st uid); reflexivity.
    + destruct (creation_fails st uid).
      * exists []. simpl. rewrite truncate_nil. reflexivity.
      * eexists. reflexivity.
Qed.

Lemma getSession_sessions (st : State) (uid : string) :
  sessions (manager (snd (SessionManager.getSession uid st)))
  = <[uid := default (fresh_session uid (world st)) (sessions (manager st) !! uid)]>
      (sessions (manager st)).
Proof.
  destruct (sessions (manager st) !! uid) as [s|] eqn:H.
  - rewrite (getSession_present _ _ _ H). simpl. symmetry. apply insert_id. exact H.
  - apply getSession_absent_sessions. exact H.
Qed.

(** Records under other names are not touched. *)
Lemma getSession_record (st : State) (uid name : string) :
  name <> SessionManager.sessionFile uid ->
  record (world (snd (SessionManager.getSession uid st))) name = record (world st) name.
Proof.
  intros Hne. destruct_state st.
  unfold SessionManager.getSession, SessionManager.saveSession, record.
  run_m. destruct (ss !! uid); [reflexivity|].
  rewrite lookup_insert_eq.
  destruct (fault calls).
  - destruct (cut calls); [|reflexivity]. destruct d as [d|]; [|reflexivity].
    apply lookup_store_file_ne. exact Hne.
  - destruct d as [d|]; [|reflexivity].
    apply lookup_store_file_ne. exact Hne.
Qed.

Lemma addMessage_record (st : State) (uid : string) (r : Role) (c : string) (name : string) :
  name <> SessionManager.sessionFile uid ->
  record (world (snd (SessionManager.addMessage uid r c st))) name = record (world st) name.
Proof.
  intros Hne. destruct_state st.
  unfold SessionManager.addMessage, SessionManager.getSession, SessionManager.saveSession, record.
  run_m. repeat case_step; try reflexivity.
  all: rewrite ?lookup_store_file_ne by exact Hne; try reflexivity.
  all: rewrite ?lookup_alter_eq, ?lookup_insert_eq in *; simpl in *; congruence.
Qed.

Lemma clearSession_record (st : State) (uid name : string) :
  name <> SessionManager.sessionFile uid ->
  record (world (snd (SessionManager.clearSession uid st))) name = record (world st) name.
Proof.
  intros Hne. destruct_state st.
  unfold SessionManager.clearSession, record. run_m.
  destruct (fault calls); [reflexivity|]. destruct d as [d|]; [|reflexivity].
  destruct (fs.lookup_file _ d); [|reflexivity].
  apply lookup_remove_file_ne. exact Hne.
Qed.

Lemma sessionFile_ne (a b : string) :
  a <> b -> SessionManager.sessionFile a <> SessionManager.sessionFile b.
Proof. intros Hne E. apply Hne. exact (sessionFile_inj _ _ E). Qed.

Lemma getSession_holding (st : State) (uid other : string) :
  other <> uid -> holding (snd (SessionManager.getSession uid st)) other = holding st other.
Proof.
  intros Hne. unfold holding.
  rewrite getSession_sessions, lookup_insert_ne by congruence.
  rewrite getSession_record by (apply sessionFile_ne; exact Hne).
  rewrite (proj2 (getSession_frame st uid)). reflexivity.
Qed.

Lemma addMessage_holding (st : State) (uid : string) (r : Role) (c : string) (other : string) :
  other <> uid -> holding (snd (SessionManager.addMessage uid r c st)) other = holding st other.
Proof.
  intros Hne. unfold holding.
  destruct (addMessage_sessions st uid r c) as (s' & -> & _).
  rewrite lookup_insert_ne by congruence.
  rewrite addMessage_record by (apply sessionFile_ne; exact Hne).
  rewrite (proj1 (addMessage_executor st uid r c)). reflexivity.
Qed.

Lemma clearSession_holding (st : State) (uid other : string) :
  other <> uid -> holding (snd (SessionManager.clearSession uid st)) other = holding st other.
Proof.
  intros Hne. unfold holding.
  destruct (clearSession_sessions st uid) as (-> & _ & _ & ->).
  rewrite lookup_delete_ne by congruence.
  rewrite clearSession_record by (apply sessionFile_ne; exact Hne).
  reflexivity.
Qed.

Lemma onClear_holding (st : State) (uid other : string) :
  other <> uid -> holding (snd (RemoteAssistantBot.onClear uid st)) other = holding st other.
Proof.
  intros Hne. rewrite <- (clearSession_holding st uid other Hne).
  destruct_state st.
  unfold RemoteAssistantBot.onClear, SessionManager.clearSession, ClaudeExecutor.clearSession,
    holding, record.
  run_m.
  destruct (fault calls); [rewrite !lookup_delete_ne by congruence; reflexivity|].
  destruct d as [d|]; [|rewrite !lookup_delete_ne by congruence; reflexivity].
  destruct (fs.lookup_file _ d); rewrite !lookup_delete_ne by congruence; reflexivity.
Qed.

Lemma executeQuery_holding (st : State) (q uid other : string) :
  other <> uid -> holding (snd (ClaudeExecutor.executeQuery q uid st)) other = holding st other.
Proof.
  intros Hne.
  destruct_state st.
  unfold ClaudeExecutor.executeQuery, ClaudeExecutor.execCommand. run_m.
  repeat case_step.
  all: repeat match goal with
       | H : SessionManager.addMessage ?u ?r ?c ?a = (_, ?b) |- _ =>
           let K := fresh "K" in
           pose proof (addMessage_holding a u r c other Hne) as K;
           rewrite H in K; simpl in K; clear H
       end.
  all: unfold holding, record in *; simpl in *;
       rewrite ?lookup_insert_ne in * by congruence; try congruence.
Qed.

Lemma perform_holding (c : Call) (st : State) (other : string) :
  subject c <> Some other -> holding (perform c st) other = holding st other.
Proof.
  intros H.
  destruct c as [uid|uid r c|uid n|uid n|uid| |q uid|uid]; simpl in *;
    try (assert (Hne : other <> uid) by congruence).
  - apply getSession_holding. exact Hne.
  - apply addMessage_holding. exact Hne.
  - rewrite getHistory_state. apply getSession_holding. exact Hne.
  - rewrite getConversationContext_state. apply getSession_holding. exact Hne.
  - apply clearSession_holding. exact Hne.
  - reflexivity.
  - apply executeQuery_holding. exact Hne.
  - apply onClear_holding. exact Hne.
Qed.

(** X1.  Calls made for some users leave every other user as they were:
    the same session in memory, the same record in the directory, the same
    external handle, whatever the storage and the processes do. *)
Theorem other_users_untouched (cs : list Call) (st : State) (other : string) :
  Forall (fun c => subject c <> Some other) cs ->
  holding (perform_all cs st) other = holding st other.
Proof.
  revert st. induction cs as [|c cs IH]; intros st H; [reflexivity|].
  inversion H as [|? ? Hc Hcs]; subst. simpl.
  rewrite (IH _ Hcs). apply perform_holding. exact Hc.
Qed.

Section CallInvariants.

Variable P : State -> Prop.

Hypothesis P_store : forall a b, same_store a b -> P a -> P b.

Hypothesis P_getSession : forall a uid, P a -> P (snd (SessionManager.getSession uid a)).

Hypothesis P_addMessage :
  forall a uid r c, P a -> P (snd (SessionManager.addMessage uid r c a)).

Hypothesis P_clearSession : forall a uid, P a -> P (snd (SessionManager.clearSession uid a)).

Lemma perform_inv (c : Call) (st : State) : P st -> P (perform c st).
Proof.
  intros H. destruct c as [uid|uid r c|uid n|uid n|uid| |q uid|uid]; simpl.
  - apply P_getSession. exact H.
  - apply P_addMessage. exact H.
  - rewrite getHistory_state. apply P_getSession. exact H.
  - rewrite getConversationContext_state. apply P_getSession. exact H.
  - apply P_clearSession. exact H.
  - exact H.
  - apply executeQuery_inv; [exact P_store| |exact H].
    intros a r c. apply P_addMessage.
  - eapply P_store; [apply onClear_state|].
    apply P_clearSession. exact H.
Qed.

Lemma perform_all_inv (cs : list Call) (st : State) : P st -> P (perform_all cs st).
Proof.
  revert st. induction cs as [|c cs IH]; intros st H; [exact H|].
  apply IH. apply perform_inv. exact H.
Qed.

End CallInvariants.

Lemma load_entry_keyed (name : string) (st : State) :
  keyed (sessions (manager st)) ->
  keyed (sessions (manager (snd (SessionManager.load_entry name st)))).
Proof.
  intros H. destruct_state st. simpl in H.
  unfold SessionManager.load_entry. destruct (negb _); [exact H|].
  run_m. destruct (fault calls); [exact H|].
  destruct d as [d|]; [|exact H].
  destruct (fs.lookup_file name d) as [text|]; [|exact H].
  unfold SessionManager.parse_session.
  destruct (JSON.parse text) as [j|]; [|exact H].
  destruct (JSON.as_session j) as [s|].
  - run_m. intros k s0. destruct (decide (k = userId s)) as [->|Hne].
    + rewrite lookup_insert_eq. intros [= <-]. reflexivity.
    + rewrite lookup_insert_ne by congruence. apply H.
  - destruct j; exact H.
Qed.

Lemma for_of_inv {A} (P : State -> Prop) (body : A -> M unit) (l : list A) :
  (forall x st, P st -> P (snd (body x st))) ->
  forall st, P st -> P (snd (for_of l body st)).
Proof.
  intros Hbody. induction l as [|x l IH]; intros st H; [exact H|].
  cbn [for_of]. unfold bind.
  pose proof (Hbody x st H) as Hx.
  destruct (body x st) as [[[]| |] st1]; simpl in Hx; [|exact Hx..].
  apply IH. exact Hx.
Qed.

Lemma initialize_keyed (st : State) :
  keyed (sessions (manager st)) ->
  keyed (sessions (manager (snd (SessionManager.initialize st)))).
Proof.
  intros H.
  assert (Hloop : forall names st0, keyed (sessions (manager st0)) ->
            keyed (sessions (manager (snd (for_of names SessionManager.load_entry st0))))).
  { intros names st0 H0.
    apply (for_of_inv (fun st => keyed (sessions (manager st)))); [|exact H0].
    intros x s Hs. apply load_entry_keyed. exact Hs. }
  destruct_state st. simpl in H.
  unfold SessionManager.initialize, SessionManager.loadSessions.
  destruct d as [d|]; run_m.
  - destruct (fault calls); [exact H|].
    destruct (fault (S calls)); [exact H|].
    match goal with
    | |- context [for_of ?names SessionManager.load_entry ?st0] =>
        specialize (Hloop names st0 H);
        destruct (for_of names SessionManager.load_entry st0) as [[[]| |] st1]
    end; destruct st1 as [[? ? ?] ? [? ? ? ? ? ? ? ? ? ? ?]]; exact Hloop.
  - destruct (fault calls); [exact H|].
    destruct (fault (S calls)); exact H.
Qed.

(** X2.  Every session in memory is held under its own [userId]: this
    holds after [initialize] and after every call that follows, whatever
    fails, for every run of [initialize] that does not end in [Unsound],
    that is, in which no record is reached that parses to something else
    than a session or [null].  Of the other runs nothing is stated. *)
Theorem sessions_keyed_by_user (cs : list Call) (st : State) :
  keyed (sessions (manager st)) ->
  fst (SessionManager.initialize st) <> Unsound ->
  keyed (sessions (manager (perform_all cs (snd (SessionManager.initialize st))))).
Proof.
  intros H _.
  apply (perform_all_inv (fun st => keyed (sessions (manager st)))).
  - intros a b (Hm & _) Ha. rewrite Hm. exact Ha.
  - intros a uid Ha. rewrite getSession_sessions.
    intros k s. destruct (decide (k = uid)) as [->|Hne].
    + rewrite lookup_insert_eq. intros [= <-].
      destruct (sessions (manager a) !! uid) as [s0|] eqn:E; [exact (Ha _ _ E)|reflexivity].
    + rewrite lookup_insert_ne by congruence. apply Ha.
  - intros a uid r c Ha.
    destruct (addMessage_sessions a uid r c) as (s' & -> & Hid & _).
    intros k s. destruct (decide (k = uid)) as [->|Hne].
    + rewrite lookup_insert_eq. intros [= <-]. rewrite Hid.
      destruct (sessions (manager a) !! uid) as [s0|] eqn:E; [exact (Ha _ _ E)|reflexivity].
    + rewrite lookup_insert_ne by congruence. apply Ha.
  - intros a uid Ha. rewrite (proj1 (clearSession_sessions a uid)).
    intros k s Hk. apply lookup_delete_Some in Hk as [_ Hk]. exact (Ha _ _ Hk).
  - apply initialize_keyed. exact H.
Qed.

Lemma truncate_length {A} (m : Z) (l : list A) :
  (0 < m)%Z -> (Z.of_nat (List.length (truncate m l)) <= m)%Z.
Proof.
  intros Hm. rewrite truncate_last_n by exact Hm.
  pose proof (last_n_length (Z.to_nat m) l). lia.
Qed.

Lemma perform_all_bounded (m : Z) (cs : list Call) (st : State) :
  (0 < m)%Z -> bounded m st -> bounded m (perform_all cs st).
Proof.
  intros Hm. apply (perform_all_inv (bounded m)).
  - intros a b (Hmg & _) Ha. unfold bounded. rewrite Hmg. exact Ha.
  - intros a uid [Hmax Ha]. split.
    + rewrite (proj1 (getSession_frame a uid)). exact Hmax.
    + rewrite getSession_sessions. intros k s.
      destruct (decide (k = uid)) as [->|Hne].
      * rewrite lookup_insert_eq. intros [= <-].
        destruct (sessions (manager a) !! uid) as [s0|] eqn:E; [exact (Ha _ _ E)|simpl; lia].
      * rewrite lookup_insert_ne by congruence. apply Ha.
  - intros a uid r c [Hmax Ha].
    destruct (addMessage_sessions a uid r c) as (s' & Hs & _ & [new Hmsg] & Hmax').
    split; [congruence|]. rewrite Hs. intros k s.
    destruct (decide (k = uid)) as [->|Hne].
    + rewrite lookup_insert_eq. intros [= <-]. rewrite Hmsg, Hmax.
      apply truncate_length. exact Hm.
    + rewrite lookup_insert_ne by congruence. apply Ha.
  - intros a uid [Hmax Ha].
    destruct (clearSession_sessions a uid) as (Hs & _ & Hmax' & _).
    split; [congruence|]. rewrite Hs.
    intros k s Hk. apply lookup_delete_Some in Hk as [_ Hk]. exact (Ha _ _ Hk).
Qed.

Lemma getStats_run (st : State) :
  SessionManager.getStats st
  = (Ok {| totalSessions := size (sessions (manager st));
           totalMessages := count_messages (sessions (manager st)) |}, st).
Proof. reflexivity. Qed.

Lemma count_messages_bound (m : Z) (ss : gmap string Session) :
  (forall uid s, ss !! uid = Some s -> (Z.of_nat (List.length (messages s)) <= m)%Z) ->
  (Z.of_nat (count_messages ss) <= Z.of_nat (size ss) * m)%Z.
Proof.
  unfold count_messages.
  apply (map_fold_weak_ind
           (fun (r : nat) (mm : gmap string Session) =>
              (forall uid s, mm !! uid = Some s -> (Z.of_nat (List.length (messages s)) <= m)%Z) ->
              (Z.of_nat r <= Z.of_nat (size mm) * m)%Z)).
  - intros _. rewrite map_size_empty. lia.
  - intros i x mm r Hi IH Hall.
    rewrite map_size_insert_None by exact Hi.
    assert (Hx : (Z.of_nat (List.length (messages x)) <= m)%Z).
    { apply (Hall i). apply lookup_insert_eq. }
    assert (Hr : (Z.of_nat r <= Z.of_nat (size mm) * m)%Z).
    { apply IH. intros uid s Hs. apply (Hall uid).
      rewrite lookup_insert_ne; [exact Hs|]. intros ->. congruence. }
    lia.
Qed.

Lemma count_messages_delete (ss : gmap string Session) (uid : string) (s : Session) :
  ss !! uid = Some s ->
  count_messages ss = (count_messages (delete uid ss) + List.length (messages s))%nat.
Proof.
  intros H. unfold count_messages.
  apply (map_fold_delete_L (fun _ session total => (total + List.length (messages session))%nat)).
  - intros. lia.
  - exact H.
Qed.

(** X3.  With a positive [maxMessagesPerSession], once no session in
    memory exceeds the bound none ever does, whatever calls are made and
    whatever the storage and the processes do; the bound itself is not
    changed, and [getStats] reports at most [totalSessions] times the bound
    as [totalMessages]. *)
Theorem sessions_stay_bounded (cs : list Call) (st : State) :
  (0 < maxMessagesPerSession (manager st))%Z ->
  (forall uid s, sessions (manager st) !! uid = Some s ->
     (Z.of_nat (List.length (messages s)) <= maxMessagesPerSession (manager st))%Z) ->
  let st' := perform_all cs st in
  let max := maxMessagesPerSession (manager st) in
  maxMessagesPerSession (manager st') = max /\
  (forall uid, (Z.of_nat (List.length (stored st' uid)) <= max)%Z) /\
  exists stats,
    SessionManager.getStats st' = (Ok stats, st') /\
    (Z.of_nat (totalMessages stats) <= Z.of_nat (totalSessions stats) * max)%Z.
Proof.
  intros Hmax Hall st' max.
  destruct (perform_all_bounded max cs st Hmax) as [Hm Hb]; [split; [reflexivity|exact Hall]|].
  fold st' in Hm, Hb. split; [exact Hm|]. split.
  - intros uid. unfold stored. destruct (sessions (manager st') !! uid) as [s|] eqn:E.
    + exact (Hb _ _ E).
    + simpl. lia.
  - eexists. split; [apply getStats_run|]. simpl. apply count_messages_bound. exact Hb.
Qed.

(** X4.  [getStats] before and after [clearSession]: clearing a user who
    has a session takes one from [totalSessions] and the number of the
    user's messages from [totalMessages]; clearing a user without a session
    changes neither.  [getStats] itself leaves the state as it is. *)
Theorem clearSession_stats (st : State) (uid : string) :
  let st' := snd (SessionManager.clearSession uid st) in
  exists before after,
    SessionManager.getStats st = (Ok before, st) /\
    SessionManager.getStats st' = (Ok after, st') /\
    match sessions (manager st) !! uid with
    | Some s =>
        totalSessions before = S (totalSessions after) /\
        totalMessages before = (totalMessages after + List.length (messages s))%nat
    | None => after = before
    end.
Proof.
  intros st'. eexists _, _. split; [apply getStats_run|]. split; [apply getStats_run|].
  subst st'. rewrite (proj1 (clearSession_sessions st uid)).
  destruct (sessions (manager st) !! uid) as [s|] eqn:E; simpl.
  - split.
    + rewrite map_size_delete, E.
      pose proof (map_size_non_empty_iff (sessions (manager st))) as Hne.
      destruct (size (sessions (manager st))) eqn:Hsz; [|reflexivity].
      apply map_size_empty_iff in Hsz. rewrite Hsz, lookup_empty in E. discriminate.
    + apply count_messages_delete. exact E.
  - rewrite delete_id by exact E. reflexivity.
Qed.

(** ** Commands and responses of the executor *)

Lemma replaceAll_app (c : ascii) (r a b : string) :
  Js.replaceAll c r (a ++ b) = Js.replaceAll c r a ++ Js.replaceAll c r b.
Proof.
  induction a as [|x a IH]; [reflexivity|].
  change (String x a ++ b) with (String x (a ++ b)). simpl Js.replaceAll.
  rewrite IH, string_app_assoc. reflexivity.
Qed.

Lemma escapeQuery_char (c : ascii) :
  ClaudeExecutor.escapeQuery (String c EmptyString)
  = if special c then String JSON.backslash (String c EmptyString) else String c EmptyString.
Proof.
  unfold ClaudeExecutor.escapeQuery, special.
  destruct (Ascii.eqb_spec c JSON.dquote) as [->|H1]; [reflexivity|].
  destruct (Ascii.eqb_spec c "`"%char) as [->|H2]; [reflexivity|].
  destruct (Ascii.eqb_spec c "$"%char) as [->|H3]; [reflexivity|].
  cbn [Js.replaceAll orb].
  rewrite (proj2 (Ascii.eqb_neq JSON.dquote c)) by congruence.
  change (String c EmptyString ++ EmptyString) with (String c EmptyString).
  cbn [Js.replaceAll].
  rewrite (proj2 (Ascii.eqb_neq "`" c)) by congruence.
  change (String c EmptyString ++ EmptyString) with (String c EmptyString).
  cbn [Js.replaceAll].
  rewrite (proj2 (Ascii.eqb_neq "$" c)) by congruence.
  reflexivity.
Qed.

Lemma escapeQuery_app (a b : string) :
  ClaudeExecutor.escapeQuery (a ++ b)
  = ClaudeExecutor.escapeQuery a ++ ClaudeExecutor.escapeQuery b.
Proof. unfold ClaudeExecutor.escapeQuery. rewrite !replaceAll_app. reflexivity. Qed.

Lemma escapeQuery_escape_specials (q : string) :
  ClaudeExecutor.escapeQuery q = escape_specials q.
Proof.
  induction q as [|c q IH]; [reflexivity|].
  change (String c q) with (String c EmptyString ++ q).
  rewrite escapeQuery_app, escapeQuery_char, IH.
  change (String c EmptyString ++ q) with (String c q). simpl escape_specials.
  destruct (special c); reflexivity.
Qed.

Lemma special_backslash : special JSON.backslash = false.
Proof. reflexivity. Qed.

Lemma guarded_escape_specials (prev : ascii) (q : string) :
  guarded_after prev (escape_specials q) = true.
Proof.
  revert prev. induction q as [|c q IH]; intros prev; [reflexivity|].
  simpl escape_specials. destruct (special c) eqn:E.
  - cbn [guarded_after]. rewrite special_backslash, E, Ascii.eqb_refl, IH. reflexivity.
  - cbn [guarded_after]. rewrite E, IH. reflexivity.
Qed.

Lemma length_escape_specials (q : string) :
  String.length (escape_specials q) = (String.length q + count_special q)%nat.
Proof.
  induction q as [|c q IH]; [reflexivity|].
  simpl. destruct (special c); simpl; rewrite IH; lia.
Qed.

Lemma escape_specials_plain (q : string) :
  count_special q = 0%nat -> escape_specials q = q.
Proof.
  induction q as [|c q IH]; [reflexivity|].
  simpl. destruct (special c); [discriminate|]. simpl. intros H. rewrite IH by exact H.
  reflexivity.
Qed.

(** X5.  [escapeQuery] puts a backslash before every double quote,
    backquote and dollar sign, and changes nothing else: its result is the
    one of a single pass over the query that copies each character and
    writes a backslash before each of these three.  So in its result each
    of these characters follows a backslash, the result is longer than the
    query by the number of these characters, and a query without them is
    returned as it is. *)
Theorem escapeQuery_guards_specials (q : string) :
  ClaudeExecutor.escapeQuery q = escape_specials q /\
  guarded (ClaudeExecutor.escapeQuery q) = true /\
  String.length (ClaudeExecutor.escapeQuery q) = (String.length q + count_special q)%nat /\
  (count_special q = 0%nat -> ClaudeExecutor.escapeQuery q = q).
Proof.
  rewrite escapeQuery_escape_specials. split; [reflexivity|].
  split; [apply guarded_escape_specials|].
  split; [apply length_escape_specials|apply escape_specials_plain].
Qed.

Lemma sh_dquoted_escape (a r : string) :
  has_backslash a = false ->
  sh_dquoted (escape_specials a ++ r) = (fun t => a ++ t) <$> sh_dquoted r.
Proof.
  induction a as [|c a IH]; intros H.
  - change (escape_specials EmptyString ++ r) with r.
    destruct (sh_dquoted r); reflexivity.
  - simpl in H. apply orb_false_elim in H as [Hc Ha].
    simpl escape_specials. destruct (special c) eqn:E.
    + change (sh_dquoted (String JSON.backslash (String c (escape_specials a ++ r)))
              = (fun t => String c a ++ t) <$> sh_dquoted r).
      cbn [sh_dquoted]. rewrite Ascii.eqb_refl, E. cbn [orb].
      rewrite (IH Ha). destruct (sh_dquoted r); reflexivity.
    + change (sh_dquoted (String c (escape_specials a ++ r))
              = (fun t => String c a ++ t) <$> sh_dquoted r).
      cbn [sh_dquoted]. rewrite Hc, E.
      rewrite (IH Ha). destruct (sh_dquoted r); reflexivity.
Qed.

(** X6.  A query without backslashes is read back by the shell as it
    was written: between double quotes, the escaped text has no active
    character and stands for the query. *)
Theorem escapeQuery_read_back (q : string) :
  has_backslash q = false ->
  sh_dquoted (ClaudeExecutor.escapeQuery q) = Some q.
Proof.
  intros H. rewrite escapeQuery_escape_specials.
  rewrite <- (string_app_nil_r (escape_specials q)).
  rewrite (sh_dquoted_escape q EmptyString H). simpl. rewrite string_app_nil_r. reflexivity.
Qed.

(** X7.  [escapeQuery] leaves backslashes as they are.  In a query
    whose first backslash precedes a double quote, a backquote or a dollar
    sign, or ends the query, the backslash that [escapeQuery] adds is
    itself quoted by the one of the query: the shell finds an active
    character in the escaped text. *)
Theorem escapeQuery_leaves_backslashes (a b : string) (x : ascii) :
  has_backslash a = false ->
  special x = true ->
  sh_dquoted (ClaudeExecutor.escapeQuery (a ++ String JSON.backslash (String x b))) = None /\
  sh_dquoted (ClaudeExecutor.escapeQuery (a ++ String JSON.backslash EmptyString)) = None.
Proof.
  intros Ha Hx. rewrite !escapeQuery_app, !escapeQuery_escape_specials.
  rewrite !(sh_dquoted_escape a _ Ha). split.
  - cbn [escape_specials]. rewrite special_backslash, Hx.
    cbn [sh_dquoted]. rewrite Ascii.eqb_refl, special_backslash. cbn [orb].
    destruct (Ascii.eqb_spec x JSON.backslash) as [->|_]; [discriminate Hx|].
    rewrite Hx. reflexivity.
  - reflexivity.
Qed.

Lemma escapeQuery_read_back_witness :
  sh_dquoted (ClaudeExecutor.escapeQuery "echo $HOME") = Some "echo $HOME".
Proof. apply (escapeQuery_read_back "echo $HOME"). reflexivity. Defined.

Lemma escapeQuery_leaves_backslashes_witness :
  sh_dquoted (ClaudeExecutor.escapeQuery ("say " ++ String JSON.backslash (String "$" "(id)"))) = None /\
  sh_dquoted (ClaudeExecutor.escapeQuery ("say " ++ String JSON.backslash EmptyString)) = None.
Proof.
  apply (escapeQuery_leaves_backslashes "say " "(id)" "$"); reflexivity.
Defined.

Lemma or_string_nonempty (a b : string) : b <> EmptyString -> Js.or_string a b <> EmptyString.
Proof. unfold Js.or_string. destruct a; [auto|discriminate]. Qed.

Lemma addMessage_raises (st : State) (uid : string) (r : Role) (c : string) (e : Error) :
  fst (SessionManager.addMessage uid r c st) = Raise e -> stdout e = None.
Proof.
  destruct_state st.
  unfold SessionManager.addMessage, SessionManager.getSession, SessionManager.saveSession.
  run_m. repeat case_step; intros [= <-]; reflexivity.
Qed.

(** X8.  [executeQuery] always returns a response, of one of two
    shapes: a success with a non-empty output and no error, or a failure
    with an empty output and a non-empty error description.  A failure never
    carries output: what a process wrote before it ran into the timeout is
    dropped. *)
Theorem executeQuery_response (st : State) (q uid : string) :
  exists (resp : ClaudeResponse) (st' : State),
    ClaudeExecutor.executeQuery q uid st = (Ok resp, st') /\ well_formed resp.
Proof.
  destruct_state st.
  unfold ClaudeExecutor.executeQuery, ClaudeExecutor.execCommand, well_formed. run_m.
  repeat case_step.
  all: repeat match goal with
       | H : SessionManager.addMessage ?u ?r ?c ?a = (Raise ?e, _) |- _ =>
           let K := fresh "K" in
           pose proof (addMessage_raises a u r c e) as K;
           rewrite H in K; specialize (K eq_refl); clear H
       | H : SessionManager.addMessage ?u ?r ?c ?a = (Unsound, _) |- _ =>
           exfalso; apply (proj2 (addMessage_executor a u r c)); rewrite H; reflexivity
       | H : SessionManager.addMessage ?u ?r ?c ?a = (Ok _, _) |- _ => clear H
       end.
  all: repeat match goal with
       | H : (_ || _)%bool = false |- _ => apply orb_false_elim in H as [? ?]
       | H : Js.truthy_string ?o = false |- _ => destruct o; [clear H|discriminate H]
       end.
  all: eexists _, _; (split; [reflexivity|]); simpl.
  all: try (split; [repeat apply or_string_nonempty; discriminate|reflexivity]).
  all: try rewrite K; simpl; split; try reflexivity.
  all: eexists; (split; [reflexivity|]); apply or_string_nonempty; discriminate.
Qed.

Lemma untouched_trans (a b c : State) : untouched a b -> untouched b c -> untouched a c.
Proof.
  unfold untouched, same_store.
  intros ((?&?&?&?&?&?)&?&?&?&?) ((?&?&?&?&?&?)&?&?&?&?).
  repeat split; congruence.
Qed.

Lemma executeBashCommand_run (st : State) (command : string) :
  exists (resp : ClaudeResponse) (st' : State),
    ClaudeExecutor.executeBashCommand command st = (Ok resp, st') /\
    untouched st st' /\ spawns (world st') = S (spawns (world st)) /\
    success resp = resolves (shell (world st) (spawns (world st)) command) /\
    well_formed resp.
Proof.
  destruct_state st.
  unfold ClaudeExecutor.executeBashCommand, ClaudeExecutor.execCommand, untouched, same_store,
    well_formed, resolves.
  run_m. repeat case_step.
  all: repeat match goal with
       | H : (_ || _)%bool = false |- _ => apply orb_false_elim in H as [? ?]
       | H : Js.truthy_string ?o = false |- _ => destruct o; [clear H|discriminate H]
       end.
  all: eexists _, _; (split; [reflexivity|]); simpl.
  all: (split; [repeat split|]); (split; [reflexivity|]).
  all: try (split; [congruence|]).
  all: try (split; [repeat apply or_string_nonempty; discriminate|reflexivity]).
  all: split; try reflexivity.
  all: eexists; (split; [reflexivity|]); apply or_string_nonempty; discriminate.
Qed.

Lemma executeBashCommand_untouched (st : State) (command : string) :
  exists (resp : ClaudeResponse) (st' : State),
    ClaudeExecutor.executeBashCommand command st = (Ok resp, st') /\
    untouched st st' /\ spawns (world st') = S (spawns (world st)).
Proof.
  destruct (executeBashCommand_run st command) as (resp & st' & H & Hu & Hs & _).
  eauto.
Qed.

(** X9.  [executeBashCommand] always returns a response; it reports a
    success exactly when the process closes with exit code 0 or with some
    output, and the response has one of the two shapes: a success with a
    non-empty output, or a failure with an empty output and an error
    description. *)
Theorem executeBashCommand_response (st : State) (command : string) :
  exists (resp : ClaudeResponse) (st' : State),
    ClaudeExecutor.executeBashCommand command st = (Ok resp, st') /\
    success resp = resolves (shell (world st) (spawns (world st)) command) /\
    well_formed resp.
Proof.
  destruct (executeBashCommand_run st command) as (resp & st' & H & _ & _ & Hs & Hw).
  eauto.
Qed.

(** X10.  [checkClaudeAvailability] never raises and touches nothing of
    the sessions; it answers [true] exactly when the process is not
    rejected, so also when the process wrote to its standard error and
    exited with whatever code, as a shell does that does not find the
    command. *)
Theorem checkClaudeAvailability_resolves (st : State) :
  exists st',
    ClaudeExecutor.checkClaudeAvailability st
    = (Ok (resolves (shell (world st) (spawns (world st)) "claude --version")), st') /\
    untouched st st' /\
    forall code out err,
      shell (world st) (spawns (world st)) "claude --version" = Closed code out err ->
      err <> EmptyString ->
      fst (ClaudeExecutor.checkClaudeAvailability st) = Ok true.
Proof.
  destruct_state st.
  unfold ClaudeExecutor.checkClaudeAvailability, ClaudeExecutor.execCommand, untouched,
    same_store, resolves.
  run_m.
  destruct (sh nsp "claude --version") as [msg|out err|code out err] eqn:E; run_m.
  - eexists. split; [reflexivity|]. split; [repeat split|]. discriminate.
  - eexists. split; [reflexivity|]. split; [repeat split|]. discriminate.
  - destruct (_ || _)%bool eqn:B; run_m.
    + eexists. split; [reflexivity|]. split; [repeat split|]. reflexivity.
    + eexists. split; [reflexivity|]. split; [repeat split|].
      intros code' out' err' [= <- <- <-] Herr.
      apply orb_false_elim in B as [_ B]. destruct err; [contradiction|discriminate].
Qed.

Ltac run_bash st cmd resp st1 H Hu :=
  destruct (executeBashCommand_untouched st cmd) as (resp & st1 & H & Hu & _);
  rewrite H.

(** X11.  The utilities [getTrainingLogs], [getTmuxLogs] and
    [checkProcesses] always return a text and carry no session state:
    sessions, records, handles, clock and storage are untouched, whatever
    the processes do.  The texts of the first two are never empty. *)
Theorem utilities_keep_session_state (st : State) (name : string) (lines : option Z) :
  (exists text st', ClaudeExecutor.getTrainingLogs name lines st = (Ok text, st') /\
                    untouched st st' /\ text <> EmptyString) /\
  (exists text st', ClaudeExecutor.getTmuxLogs name lines st = (Ok text, st') /\
                    untouched st st' /\ text <> EmptyString) /\
  (exists text st', ClaudeExecutor.checkProcesses name st = (Ok text, st') /\
                    untouched st st').
Proof.
  split; [|split].
  - unfold ClaudeExecutor.getTrainingLogs, bind.
    match goal with
    | |- context [ClaudeExecutor.executeBashCommand ?cmd st] => run_bash st cmd resp st1 H Hu
    end.
    eexists _, _. split; [reflexivity|]. split; [exact Hu|].
    apply or_string_nonempty. discriminate.
  - unfold ClaudeExecutor.getTmuxLogs, bind.
    match goal with
    | |- context [ClaudeExecutor.executeBashCommand ?cmd st] => run_bash st cmd resp st1 H Hu
    end.
    destruct (String.eqb _ _).
    + match goal with
      | |- context [ClaudeExecutor.executeBashCommand ?cmd st1] =>
          run_bash st1 cmd resp2 st2 H2 Hu2
      end.
      eexists _, _. split; [reflexivity|]. split; [exact (untouched_trans _ _ _ Hu Hu2)|].
      discriminate.
    + match goal with
      | |- context [ClaudeExecutor.executeBashCommand ?cmd st1] =>
          run_bash st1 cmd resp2 st2 H2 Hu2
      end.
      eexists _, _. split; [reflexivity|]. split; [exact (untouched_trans _ _ _ Hu Hu2)|].
      apply or_string_nonempty. discriminate.
  - unfold ClaudeExecutor.checkProcesses, bind.
    match goal with
    | |- context [ClaudeExecutor.executeBashCommand ?cmd st] => run_bash st cmd resp st1 H Hu
    end.
    eexists _, _. split; [reflexivity|]. exact Hu.
Qed.

(** X12.  [checkProcesses] returns the empty text exactly when its
    process is rejected (spawn error, timeout, or a non-zero exit without
    output); [sendLongMessage] then hands that empty text on as a single
    message. *)
Theorem checkProcesses_empty (st : State) (processName : string) :
  let command := "ps aux | grep " ++ ClaudeExecutor.quoted processName
                 ++ " | grep -v grep || echo " ++ ClaudeExecutor.quoted "No processes found" in
  exists text st',
    ClaudeExecutor.checkProcesses processName st = (Ok text, st') /\
    (text = EmptyString <-> resolves (shell (world st) (spawns (world st)) command) = false) /\
    (text = EmptyString -> RemoteAssistantBot.sendLongMessage text = [(None, EmptyString)]).
Proof.
  intros command. unfold ClaudeExecutor.checkProcesses, bind. fold command.
  destruct (executeBashCommand_run st command) as (resp & st' & H & _ & _ & Hs & Hw).
  rewrite H. eexists _, _. split; [reflexivity|]. split.
  - rewrite <- Hs. unfold well_formed in Hw.
    destruct (success resp); destruct Hw as [Ho _]; split; congruence.
  - intros ->. reflexivity.
Qed.

Lemma last_n_two {A} (n : nat) (l : list A) (a b : A) :
  last_n n (last_n n (l ++ [a]) ++ [b]) = last_n n (l ++ [a; b]).
Proof. rewrite last_n_app, <- app_assoc. reflexivity. Qed.

(** X13.  When the process closes with exit code 0 or with some output,
    the storage works and the bound is positive, [executeQuery] reports a
    success whose output is the trimmed standard output (the trimmed
    standard error when that is empty), and the history of the user ends
    with the query as a [user] turn followed by that text as an [assistant]
    turn, cut to the bound; the record of the user is the one of the session
    in memory. *)
Theorem executeQuery_appends_turns (st : State) (q uid : string)
    (d : list (string * string)) (code : option Z) (out err : string) :
  sessionManager (executor st) = true ->
  healthy d st ->
  (0 < maxMessagesPerSession (manager st))%Z ->
  shell (world st) (spawns (world st)) (query_command st q uid) = Closed code out err ->
  resolves (Closed code out err) = true ->
  let answer := Js.or_string (Js.trim out) (Js.trim err) in
  exists (st' : State) (t1 t2 : Z) (s' : Session),
    ClaudeExecutor.executeQuery q uid st
    = (Ok {| success := true;
             output := Js.or_string answer
                         (Js.or_string err "Command executed successfully (no output)");
             error := None |}, st') /\
    sessions (manager st') !! uid = Some s' /\
    messages s'
    = last_n (Z.to_nat (maxMessagesPerSession (manager st)))
        (stored st uid ++ [ {| role := user; content := q; timestamp := t1 |};
                            {| role := assistant; content := answer; timestamp := t2 |} ]) /\
    record (world st') (SessionManager.sessionFile uid) = Some (JSON.stringify s').
Proof.
  intros Hmgr Hh Hmax Hsh Hres answer.
  assert (Hstep : forall a r c d0, healthy d0 a ->
            (0 < maxMessagesPerSession (manager a))%Z ->
            exists a' s' t d',
              SessionManager.addMessage uid r c a = (Ok tt, a') /\
              sessions (manager a') !! uid = Some s' /\
              messages s' = last_n (Z.to_nat (maxMessagesPerSession (manager a)))
                              (stored a uid ++ [{| role := r; content := c; timestamp := t |}]) /\
              healthy d' a' /\
              record (world a') (SessionManager.sessionFile uid) = Some (JSON.stringify s') /\
              maxMessagesPerSession (manager a') = maxMessagesPerSession (manager a)).
  { intros a r c d0 Ha Hm.
    destruct (addMessage_healthy a uid r c d0 Ha)
      as (s' & d' & t & Hr & Hs & _ & Hmsg & Hh' & Hd' & (_ & Hmax' & _)).
    destruct (SessionManager.addMessage uid r c a) as [res a'] eqn:E. simpl in *. subst res.
    exists a', s', t, d'. split; [reflexivity|]. split; [rewrite Hs; apply lookup_insert_eq|].
    split; [rewrite Hmsg; apply truncate_last_n; exact Hm|]. split; [exact Hh'|].
    split; [|exact Hmax'].
    unfold record. rewrite (proj1 Hh'), Hd'. apply lookup_store_file. }
  revert Hh Hsh Hstep. unfold query_command, stored, resolves in *.
  destruct_state st. simpl in Hmgr, Hmax, Hres. subst mgr. simpl. intros Hh Hsh Hstep.
  unfold ClaudeExecutor.executeQuery, ClaudeExecutor.execCommand. run_m.
  destruct (ClaudeExecutor.existing (ids !! uid)) as [h|] eqn:He; run_m;
    rewrite Hsh; run_m; rewrite Hres; run_m.
  all: match goal with
       | |- context [SessionManager.addMessage _ user _ ?a] =>
           destruct (Hstep a user q d) as (a1 & s1 & t1 & d1 & E1 & Hs1 & Hm1 & Hh1 & _ & Hx1);
             [destruct Hh as [Hd Hio]; split; [exact Hd|exact Hio]|exact Hmax|];
           rewrite E1; run_m
       end.
  all: destruct (Hstep a1 assistant answer d1 Hh1) as (a2 & s2 & t2 & d2 & E2 & Hs2 & Hm2 & _ & Hr2 & _);
         [rewrite Hx1; exact Hmax|].
  all: fold answer; rewrite E2; run_m.
  all: exists a2, t1, t2, s2; split; [destruct a2 as [[? ? ?] ? ?]; reflexivity|].
  all: split; [exact Hs2|]; split; [|exact Hr2].
  all: rewrite Hm2, Hx1; unfold stored; rewrite Hs1, Hm1; simpl; apply last_n_two.
Qed.

Lemma executeQuery_ids (st : State) (q uid : string) :
  let st' := snd (ClaudeExecutor.executeQuery q uid st) in
  userSessionIds (executor st') = handles_after st uid /\
  uuids (world st')
  = match ClaudeExecutor.existing (userSessionIds (executor st) !! uid) with
    | Some _ => uuids (world st)
    | None => S (uuids (world st))
    end.
Proof.
  assert (Hw : forall a r c,
            uuids (world (snd (SessionManager.addMessage uid r c a))) = uuids (world a)).
  { intros a r c. destruct_state a.
    unfold SessionManager.addMessage, SessionManager.getSession, SessionManager.saveSession.
    run_m. repeat case_step; reflexivity. }
  destruct_state st.
  unfold handles_after, ClaudeExecutor.executeQuery, ClaudeExecutor.execCommand. run_m.
  repeat case_step.
  all: repeat match goal with
       | H : SessionManager.addMessage ?u ?r ?c ?a = (_, ?b) |- _ =>
           let K := fresh "K" in
           let F := fresh "F" in
           pose proof (Hw a r c) as K;
           pose proof (proj1 (addMessage_executor a u r c)) as F;
           rewrite H in K, F; simpl in K, F; clear H
       end.
  all: simpl in *; subst; split; congruence.
Qed.

(** X14.  Conversational continuity: once a first query has left a
    non-empty handle for the user, the next query of that user runs the
    [--resume] command line with that handle and the escaped query.  Its
    response follows the process that the environment starts for that very
    command line: the failure response when [execCommand] rejects it, and
    the answer of that process when the response reports a success.  The
    query draws no new UUID and leaves the handles as they are. *)
Theorem executeQuery_resumes (st : State) (q1 q2 uid h : string) :
  ClaudeExecutor.existing (handles_after st uid !! uid) = Some h ->
  let st1 := snd (ClaudeExecutor.executeQuery q1 uid st) in
  let run := ClaudeExecutor.executeQuery q2 uid st1 in
  let o := shell (world st1) (spawns (world st1))
             ("claude --resume " ++ ClaudeExecutor.quoted h
              ++ " -p " ++ ClaudeExecutor.quoted (ClaudeExecutor.escapeQuery q2)) in
  userSessionIds (executor st1) !! uid = Some h /\
  (exists resp : ClaudeResponse,
     fst run = Ok resp /\
     (resolves o = false -> resp = failure_response o) /\
     (success resp = true -> resolves o = true /\ output resp = answer_of o)) /\
  userSessionIds (executor (snd run)) = userSessionIds (executor st1) /\
  uuids (world (snd run)) = uuids (world st1).
Proof.
  intros Hh st1 run o.
  destruct (executeQuery_ids st q1 uid) as [H1 _]. fold st1 in H1.
  destruct (executeQuery_ids st1 q2 uid) as [H2 U2]. fold run in H2, U2.
  destruct (executeQuery_outcome st1 q2 uid) as (resp & st2 & Hrun & Hrej & Hacc).
  fold run in Hrun.
  unfold handles_after in H2. unfold query_command in Hrej, Hacc.
  rewrite H1 in *. rewrite Hh in *. fold o in Hrej, Hacc.
  split; [|split; [|split; [exact H2|exact U2]]].
  - unfold ClaudeExecutor.existing in Hh.
    destruct (handles_after st uid !! uid) as [h'|]; [|discriminate].
    destruct (Js.truthy_string h'); congruence.
  - exists resp. rewrite Hrun. split; [reflexivity|].
    split; [intros Ho; apply (Hrej Ho)|exact Hacc].
Qed.

(** X15.  After [/clear] the next query of the user starts a new
    external session: it runs the [--session-id] command line with the next
    UUID and the escaped query, and stores that UUID as the handle of the
    user.  Its response follows the process that the environment starts
    for that very command line: the failure response when [execCommand]
    rejects it, and the answer of that process when the response reports a
    success. *)
Theorem query_after_clear_starts_anew (st : State) (q uid : string) :
  let st1 := snd (RemoteAssistantBot.onClear uid st) in
  let run := ClaudeExecutor.executeQuery q uid st1 in
  let fresh := uuid (world st) (uuids (world st)) in
  let o := shell (world st1) (spawns (world st1))
             ("claude --session-id " ++ ClaudeExecutor.quoted fresh
              ++ " -p " ++ ClaudeExecutor.quoted (ClaudeExecutor.escapeQuery q)) in
  (exists resp : ClaudeResponse,
     fst run = Ok resp /\
     (resolves o = false -> resp = failure_response o) /\
     (success resp = true -> resolves o = true /\ output resp = answer_of o)) /\
  userSessionIds (executor (snd run)) !! uid = Some fresh /\
  uuids (world (snd run)) = S (uuids (world st)).
Proof.
  intros st1 run fresh o.
  assert (H1 : userSessionIds (executor st1) !! uid = None /\
               uuids (world st1) = uuids (world st) /\ uuid (world st1) = uuid (world st)).
  { subst o run st1. destruct_state st.
    unfold RemoteAssistantBot.onClear, SessionManager.clearSession, ClaudeExecutor.clearSession.
    run_m.
    destruct (fault calls); [split; [apply lookup_delete_eq|split; reflexivity]|].
    destruct d as [d|]; [|split; [apply lookup_delete_eq|split; reflexivity]].
    destruct (fs.lookup_file _ d); (split; [apply lookup_delete_eq|split; reflexivity]). }
  destruct H1 as (Hnone & Hu & Hf).
  destruct (executeQuery_ids st1 q uid) as [H2 U2]. fold run in H2, U2.
  destruct (executeQuery_outcome st1 q uid) as (resp & st2 & Hrun & Hrej & Hacc).
  fold run in Hrun.
  unfold handles_after in H2. unfold query_command in Hrej, Hacc.
  rewrite Hnone in *. simpl in H2, U2, Hrej, Hacc. rewrite Hu, Hf in *.
  fold fresh in H2, Hrej, Hacc. fold o in Hrej, Hacc.
  split; [|split; [rewrite H2; apply lookup_insert_eq|exact U2]].
  exists resp. rewrite Hrun. split; [reflexivity|].
  split; [intros Ho; apply (Hrej Ho)|exact Hacc].
Qed.

(** ** Long messages *)









Lemma chunk_step_sizes (acc : list string * string) (line : string) :
  (String.length line < RemoteAssistantBot.MAX_LENGTH)%nat ->
  Forall fits (fst acc) ->
  (String.length (snd acc) <= RemoteAssistantBot.MAX_LENGTH)%nat ->
  Forall fits (fst (RemoteAssistantBot.chunk_step acc line)) /\
  (String.length (snd (RemoteAssistantBot.chunk_step acc line))
   <= RemoteAssistantBot.MAX_LENGTH)%nat.
Proof.
  destruct acc as [chunks cur]. unfold RemoteAssistantBot.chunk_step, fits. simpl.
  generalize RemoteAssistantBot.MAX_LENGTH. intros M Hline Hchunks Hcur.
  destruct (Nat.ltb_spec M (String.length (cur ++ line ++ JSON.newline))) as [Hlt|Hge]; simpl.
  - rewrite !string_length_app in *. simpl in *. split; [|lia].
    apply Forall_app. split; [exact Hchunks|]. constructor; [|constructor].
    destruct cur; simpl in *; lia.
  - split; [exact Hchunks|exact Hge].
Qed.

Lemma fold_chunks_sizes (lines : list string) (acc : list string * string) :
  Forall (fun line => (String.length line < RemoteAssistantBot.MAX_LENGTH)%nat) lines ->
  Forall fits (fst acc) ->
  (String.length (snd acc) <= RemoteAssistantBot.MAX_LENGTH)%nat ->
  Forall fits (fst (fold_left RemoteAssistantBot.chunk_step lines acc)) /\
  (String.length (snd (fold_left RemoteAssistantBot.chunk_step lines acc))
   <= RemoteAssistantBot.MAX_LENGTH)%nat.
Proof.
  revert acc. induction lines as [|line lines IH]; intros acc Hlines Hc Hcur.
  - split; assumption.
  - inversion Hlines as [|? ? Hl Hls]; subst. simpl fold_left.
    destruct (chunk_step_sizes acc line Hl Hc Hcur) as [Hc' Hcur'].
    apply IH; assumption.
Qed.

Lemma chunks_of_sizes (text : string) :
  lines_fit text = true -> Forall fits (RemoteAssistantBot.chunks_of text).
Proof.
  intros H. unfold lines_fit in H. rewrite forallb_forall in H.
  unfold RemoteAssistantBot.chunks_of.
  destruct (fold_chunks_sizes (Js.split "010"%char text) ([], EmptyString)) as [Hc Hcur].
  - apply List.Forall_forall. intros line Hin. apply Nat.ltb_lt. apply H. exact Hin.
  - constructor.
  - simpl. lia.
  - destruct (fold_left _ _ _) as [chunks cur]. simpl in *.
    destruct cur as [|c cur]; simpl; [exact Hc|].
    apply Forall_app. split; [exact Hc|]. constructor; [|constructor].
    unfold fits. simpl in *. lia.
Qed.

Lemma Forall_imap_snd {A B} (P : A -> Prop) (f : nat -> A -> B) (l : list A) :
  Forall P l -> Forall (fun m => P (snd m)) (imap (fun i x => (f i x, x)) l).
Proof.
  revert f. induction l as [|x l IH]; intros f H; [constructor|].
  inversion H; subst. simpl. constructor; [assumption|].
  apply (IH (fun i => f (S i))). assumption.
Qed.

(** X17.  When every line of a non-empty text is shorter than 4000
    characters, every message of [sendLongMessage] carries between 1 and
    4000 characters of the text. *)
Theorem sendLongMessage_chunk_sizes (text : string) :
  lines_fit text = true ->
  text <> EmptyString ->
  Forall (fun m => (1 <= String.length (snd m) <= RemoteAssistantBot.MAX_LENGTH)%nat)
         (RemoteAssistantBot.sendLongMessage text).
Proof.
  intros Hfit Hne. unfold RemoteAssistantBot.sendLongMessage.
  destruct (Nat.leb_spec (String.length text) RemoteAssistantBot.MAX_LENGTH) as [Hle|Hgt].
  - constructor; [|constructor]. simpl. split; [|exact Hle].
    destruct text; [contradiction|simpl; lia].
  - apply (Forall_imap_snd fits
             (fun i _ => if (i =? 0)%nat then None
                         else Some ((i + 1)%nat, List.length (RemoteAssistantBot.chunks_of text)))).
    apply chunks_of_sizes. exact Hfit.
Qed.

Lemma fold_chunks_prefix (lines : list string) (acc : list string * string) :
  exists more, fst (fold_left RemoteAssistantBot.chunk_step lines acc) = (fst acc ++ more)%list.
Proof.
  revert acc. induction lines as [|line lines IH]; intros acc.
  - exists []. simpl. rewrite app_nil_r. reflexivity.
  - simpl fold_left. destruct (IH (RemoteAssistantBot.chunk_step acc line)) as [more H].
    rewrite H. destruct acc as [chunks cur]. unfold RemoteAssistantBot.chunk_step.
    destruct (_ <? _)%nat; simpl.
    + exists (cur :: more). rewrite <- app_assoc. reflexivity.
    + exists more. reflexivity.
Qed.

(** X18.  When the first line of a text of more than 4000 characters
    has 4000 characters or more, the first message of [sendLongMessage] is
    empty: the empty [currentChunk] is pushed before the line. *)
Theorem sendLongMessage_empty_first_chunk (text line : string) (lines : list string) :
  Js.split "010"%char text = line :: lines ->
  (RemoteAssistantBot.MAX_LENGTH <= String.length line)%nat ->
  (RemoteAssistantBot.MAX_LENGTH < String.length text)%nat ->
  exists more, RemoteAssistantBot.sendLongMessage text = (None, EmptyString) :: more.
Proof.
  intros Hsplit Hline Htext.
  unfold RemoteAssistantBot.sendLongMessage, RemoteAssistantBot.chunks_of.
  destruct (Nat.leb_spec (String.length text) RemoteAssistantBot.MAX_LENGTH) as [Hle|_]; [lia|].
  rewrite Hsplit. cbn [fold_left].
  assert (Hstep : RemoteAssistantBot.chunk_step ([], EmptyString) line
                  = ([EmptyString], line ++ JSON.newline)).
  { unfold RemoteAssistantBot.chunk_step.
    change (EmptyString ++ line ++ JSON.newline) with (line ++ JSON.newline).
    destruct (Nat.ltb_spec RemoteAssistantBot.MAX_LENGTH (String.length (line ++ JSON.newline)))
      as [_|Hge]; [reflexivity|].
    rewrite string_length_app in Hge. simpl in Hge. lia. }
  rewrite Hstep.
  destruct (fold_chunks_prefix lines ([EmptyString], line ++ JSON.newline)) as [more Hmore].
  destruct (fold_left _ _ _) as [chunks cur]. simpl in Hmore. subst chunks.
  destruct (Js.truthy_string cur); simpl; eexists; reflexivity.
Qed.

(** ** Persistence across restarts, selection, start-up *)

(** X19.  While the storage does not fail, the directory follows the
    memory: if the directory holds a record for each session in memory, and
    no other [.json] entry, then it still does after every call. *)
Theorem records_follow_memory (cs : list Call) (st : State) :
  in_sync st -> in_sync (perform_all cs st).
Proof.
  apply (perform_all_inv in_sync).
  - apply same_store_in_sync.
  - intros a uid. apply getSession_in_sync.
  - intros a uid r c. apply addMessage_in_sync.
  - intros a uid. apply clearSession_in_sync.
Qed.

(** X20.  When the directory holds the sessions in memory, a restart
    ([initialize] on new objects over the same directory) returns and
    restores the whole map: the same users with the same sessions, and no
    others.  The directory holds them still. *)
Theorem restart_restores_sessions (st : State) :
  in_sync st ->
  let loaded := SessionManager.initialize (restart st) in
  fst loaded = Ok tt /\
  sessions (manager (snd loaded)) = sessions (manager st) /\
  in_sync (snd loaded).
Proof.
  intros (d & Hh & Hrep) loaded.
  destruct (restart_loads st d _ Hh Hrep) as (Hr & Hs & Hh').
  fold loaded in Hr, Hs, Hh'.
  split; [exact Hr|]. split; [exact Hs|].
  exists d. split; [exact Hh'|]. rewrite Hs. exact Hrep.
Qed.

(** X21.  A conversation cleared with [/clear] does not come back: when
    the directory held the sessions in memory and the storage does not fail,
    the record of the user is gone after [/clear], and a restart restores
    every session but that one. *)
Theorem cleared_session_stays_cleared (st : State) (uid : string) :
  in_sync st ->
  let cleared := snd (RemoteAssistantBot.onClear uid st) in
  let loaded := SessionManager.initialize (restart cleared) in
  record (world cleared) (SessionManager.sessionFile uid) = None /\
  fst loaded = Ok tt /\
  sessions (manager (snd loaded)) = delete uid (sessions (manager st)).
Proof.
  intros Hsync cleared loaded.
  assert (Hc : in_sync (snd (SessionManager.clearSession uid st)))
    by (apply clearSession_in_sync; exact Hsync).
  pose proof (onClear_state st uid) as Hsame. fold cleared in Hsame.
  pose proof (same_store_in_sync _ _ Hsame Hc) as (d & Hh & Hrep).
  destruct (restart_loads cleared d _ Hh Hrep) as (Hr & Hs & _).
  fold loaded in Hr, Hs.
  assert (Hdel : sessions (manager cleared) = delete uid (sessions (manager st))).
  { destruct Hsame as (-> & _). apply (proj1 (clearSession_sessions st uid)). }
  split; [|split; [exact Hr|congruence]].
  unfold record. rewrite (proj1 Hh).
  destruct (fs.lookup_file (SessionManager.sessionFile uid) d) as [text|] eqn:E; [|reflexivity].
  apply lookup_file_Some_In in E.
  destruct (proj2 Hrep _ _ E (endsWith_app _ _)) as (k & s & Hk & Hs' & _).
  apply sessionFile_inj in Hk. subst k.
  rewrite Hdel, lookup_delete_eq in Hs'. discriminate.
Qed.

(** X22.  A [clearSession] whose [unlink] the environment fails returns
    all the same and removes the session from memory, but the record stays:
    a restart brings the session back as it was. *)
Theorem failed_unlink_brings_session_back (st : State) (uid msg : string) (s : Session)
    (d : list (string * string)) :
  disk (world st) = Some d ->
  represents d (sessions (manager st)) ->
  sessions (manager st) !! uid = Some s ->
  io_fault (world st) (io_calls (world st)) = Some msg ->
  (forall k, io_fault (world st) (S (io_calls (world st)) + k) = None) ->
  let cleared := snd (SessionManager.clearSession uid st) in
  let loaded := SessionManager.initialize (restart cleared) in
  fst (SessionManager.clearSession uid st) = Ok tt /\
  sessions (manager cleared) !! uid = None /\
  fst loaded = Ok tt /\
  sessions (manager (snd loaded)) !! uid = Some s.
Proof.
  intros Hd Hrep Hs Hfault Hlater cleared loaded.
  destruct (clearSession_returns st uid) as [Hret _].
  split; [exact Hret|].
  split; [unfold cleared; rewrite (proj1 (clearSession_sessions st uid)); apply lookup_delete_eq|].
  assert (Hh : healthy d cleared).
  { subst cleared. clear Hrep Hs. destruct_state st. simpl in *. subst d0.
    unfold SessionManager.clearSession. run_m. rewrite Hfault.
    split; [reflexivity|]. simpl. exact Hlater. }
  destruct (restart_loads cleared d _ Hh Hrep) as (Hr & Hl & _).
  fold loaded in Hr, Hl. split; [exact Hr|]. rewrite Hl. exact Hs.
Qed.

(** X23.  For a session in memory and a [lastN] other than 0, [getHistory]
    returns a suffix of the stored messages and leaves the state as it is:
    for a positive [lastN] the last [lastN] messages in their order, that is
    [min(lastN, count)] of them, and all of them when there are no more than
    [lastN]; for a negative [lastN] the messages that follow the first
    [-lastN]. *)
Theorem getHistory_selection (st : State) (uid : string) (n : Z) (s : Session) :
  sessions (manager st) !! uid = Some s ->
  n <> 0%Z ->
  let selected :=
    if (0 <? n)%Z then last_n (Z.to_nat n) (messages s)
    else drop (Z.to_nat (- n)) (messages s) in
  SessionManager.getHistory uid (Some n) st = (Ok selected, st) /\
  (exists older, messages s = (older ++ selected)%list) /\
  ((Z.of_nat (List.length (messages s)) <= n)%Z -> selected = messages s) /\
  ((0 < n)%Z -> List.length selected = Nat.min (Z.to_nat n) (List.length (messages s))).
Proof.
  intros H Hn selected.
  assert (Hsel : Js.slice (- n) (messages s) = selected).
  { subst selected. destruct (Z.ltb_spec 0 n) as [Hpos|Hneg].
    - apply slice_last_n. exact Hpos.
    - unfold Js.slice. destruct (Z.ltb_spec (- n) 0) as [?|_]; [lia|].
      destruct (Z.min_spec (- n) (Z.of_nat (List.length (messages s)))) as [[_ ->]|[Hle ->]].
      + reflexivity.
      + rewrite Nat2Z.id. rewrite !drop_ge by lia. reflexivity. }
  split; [|split; [|split]].
  - rewrite (getHistory_present _ _ _ _ H).
    destruct (Z.eqb_spec n 0) as [|_]; [contradiction|]. rewrite Hsel. reflexivity.
  - subst selected. destruct (0 <? n)%Z.
    + exists (take (List.length (messages s) - Z.to_nat n) (messages s)).
      unfold last_n. symmetry. apply take_drop.
    + exists (take (Z.to_nat (- n)) (messages s)). symmetry. apply take_drop.
  - intros Hall. subst selected. destruct (Z.ltb_spec 0 n) as [Hpos|Hneg].
    + apply last_n_all. lia.
    + assert (messages s = []) as -> by (destruct (messages s); [reflexivity|simpl in Hall; lia]).
      apply drop_nil.
  - intros Hpos. subst selected. destruct (Z.ltb_spec 0 n) as [_|?]; [|lia].
    unfold last_n. rewrite length_drop. lia.
Qed.

Lemma load_entry_disk (name : string) (st : State) :
  disk (world (snd (SessionManager.load_entry name st))) = disk (world st).
Proof.
  destruct_state st. unfold SessionManager.load_entry. destruct (negb _); [reflexivity|].
  run_m. destruct (fault calls); [reflexivity|].
  destruct d as [d|]; [|reflexivity].
  destruct (fs.lookup_file name d) as [text|]; [|reflexivity].
  unfold SessionManager.parse_session.
  destruct (JSON.parse text) as [j|]; [|reflexivity].
  destruct (JSON.as_session j) as [s|]; [reflexivity|].
  destruct j; reflexivity.
Qed.

Lemma loadSessions_disk (st : State) :
  disk (world (snd (SessionManager.loadSessions st))) = disk (world st).
Proof.
  assert (Hloop : forall names st0,
            disk (world (snd (for_of names SessionManager.load_entry st0))) = disk (world st0)).
  { intros names st0.
    apply (for_of_inv (fun a => disk (world a) = disk (world st0))); [|reflexivity].
    intros x a Ha. rewrite load_entry_disk. exact Ha. }
  destruct_state st. unfold SessionManager.loadSessions. run_m.
  destruct (fault calls); [reflexivity|].
  destruct d as [d|]; [|reflexivity]. run_m.
  match goal with
  | |- context [for_of ?names SessionManager.load_entry ?st0] =>
      specialize (Hloop names st0);
      destruct (for_of names SessionManager.load_entry st0) as [[[]| |] st1]
  end; destruct st1 as [[? ? ?] ? [? ? ? ? ? ? ? ? ? ? ?]]; exact Hloop.
Qed.

(** X24.  Start-up of the bot.  The executor's [initialize] always
    returns: a failure to create the directory is written to the console.
    The bot's [initialize] raises exactly when the environment fails the
    second [mkdir], the one of the session manager, with the error of that
    call and without having loaded any session; otherwise it does not raise,
    and the directory exists afterwards. *)
Theorem start_up_failures (st : State) :
  let run := RemoteAssistantBot.initialize st in
  fst (ClaudeExecutor.initialize st) = Ok tt /\
  match io_fault (world st) (S (io_calls (world st))) with
  | Some msg =>
      fst run = Raise (mkError msg) /\
      sessions (manager (snd run)) = sessions (manager st)
  | None =>
      (forall e, fst run <> Raise e) /\ is_Some (disk (world (snd run)))
  end.
Proof.
  intros run. subst run. split.
  - destruct_state st. unfold ClaudeExecutor.initialize. run_m.
    destruct (fault calls); [reflexivity|]. destruct d; reflexivity.
  - destruct_state st.
    unfold RemoteAssistantBot.initialize, ClaudeExecutor.initialize, SessionManager.initialize.
    destruct d as [d|]; run_m.
    + destruct (fault calls); run_m; destruct (fault (S calls)); run_m;
        try (split; reflexivity).
      all: match goal with
           | |- context [SessionManager.loadSessions ?a] =>
               pose proof (loadSessions_never_raises a) as Hnr;
               pose proof (loadSessions_disk a) as Hdisk;
               destruct (SessionManager.loadSessions a) as [[[]|e'|] a']
           end; destruct a' as [[? ? ?] ? [? ? ? ? ? ? ? ? ? ? ?]]; simpl in *.
      all: split; [intros e; try discriminate; exact (Hnr e)|].
      all: rewrite Hdisk; eauto.
    + destruct (fault calls); run_m; destruct (fault (S calls)); run_m;
        try (split; reflexivity).
      all: match goal with
           | |- context [SessionManager.loadSessions ?a] =>
               pose proof (loadSessions_never_raises a) as Hnr;
               pose proof (loadSessions_disk a) as Hdisk;
               destruct (SessionManager.loadSessions a) as [[[]|e'|] a']
           end; destruct a' as [[? ? ?] ? [? ? ? ? ? ? ? ? ? ? ?]]; simpl in *.
      all: split; [intros e; try discriminate; exact (Hnr e)|].
      all: rewrite Hdisk; eauto.
Qed.

(** ** Storage faults and unusual bounds *)

(** X25.  With a [maxMessagesPerSession] that is not positive [addMessage]
    does not keep the most recent messages: the test on the length always
    holds and [slice(-max)] drops the first [-max] messages.  With a bound of
    0 nothing is dropped, the history grows with every call. *)
Theorem bound_not_positive (st : State) (uid : string) (r : Role) (c : string) (s : Session) :
  sessions (manager st) !! uid = Some s ->
  (maxMessagesPerSession (manager st) <= 0)%Z ->
  let max := maxMessagesPerSession (manager st) in
  exists t,
    stored (snd (SessionManager.addMessage uid r c st)) uid
    = drop (Z.to_nat (- max)) (messages s ++ [{| role := r; content := c; timestamp := t |}]).
Proof.
  intros H Hmax max.
  destruct (addMessage_present st uid r c s H) as [E _].
  unfold stored. rewrite E, lookup_insert_eq. simpl. eexists.
  unfold truncate, Js.slice. fold max.
  rewrite length_app. simpl List.length.
  destruct (Z.ltb_spec max (Z.of_nat (List.length (messages s) + 1))) as [_|?]; [|lia].
  destruct (Z.ltb_spec (- max) 0) as [?|_]; [lia|].
  destruct (Z.min_spec (- max) (Z.of_nat (List.length (messages s) + 1))) as [[_ ->]|[Hle ->]].
  - reflexivity.
  - rewrite Nat2Z.id. rewrite !drop_ge by (rewrite length_app; simpl; lia). reflexivity.
Qed.

(** X26.  An executor built without a session manager, as [index.ts]
    builds one to look for the CLI, keeps no history: [executeQuery] leaves
    the sessions, the directory, the clock and the storage untouched. *)
Theorem executeQuery_without_manager (st : State) (q uid : string) :
  sessionManager (executor st) = false ->
  same_store st (snd (ClaudeExecutor.executeQuery q uid st)).
Proof.
  destruct_state st. simpl. intros ->.
  unfold ClaudeExecutor.executeQuery, ClaudeExecutor.execCommand, same_store. run_m.
  repeat case_step; repeat split.
Qed.

(** X27.  When the process succeeds but the environment fails the write
    of [addMessage] for the query, [executeQuery] reports a failure with the
    error of the storage; the answer of the process is lost.  The history
    in memory is the one held before with the [user] turn appended,
    truncated as [addMessage] does, without an [assistant] turn.  The
    directory is as the failed write left it: as it was when the write
    failed before it opened the file, and else with the record of the user
    cut short to a prefix of the new text. *)
Theorem executeQuery_storage_fault (st : State) (q uid msg : string) (s : Session)
    (code : option Z) (out err : string) :
  sessionManager (executor st) = true ->
  sessions (manager st) !! uid = Some s ->
  shell (world st) (spawns (world st)) (query_command st q uid) = Closed code out err ->
  resolves (Closed code out err) = true ->
  io_fault (world st) (io_calls (world st)) = Some msg ->
  exists (st' : State) (s' : Session) (t : Z),
    ClaudeExecutor.executeQuery q uid st
    = (Ok {| success := false; output := EmptyString;
             error := Some (Js.or_string msg "Unknown error occurred") |}, st') /\
    sessions (manager st') !! uid = Some s' /\
    messages s'
    = truncate (maxMessagesPerSession (manager st))
        (messages s ++ [{| role := user; content := q; timestamp := t |}]) /\
    disk (world st')
    = failed_write (world st) (SessionManager.sessionFile uid) (JSON.stringify s').
Proof.
  intros Hmgr Hs Hsh Hres Hfault.
  assert (Hstep : forall a, sessions (manager a) = sessions (manager st) ->
            maxMessagesPerSession (manager a) = maxMessagesPerSession (manager st) ->
            io_fault (world a) (io_calls (world a)) = Some msg ->
            exists a' s' t,
              SessionManager.addMessage uid user q a = (Raise (mkError msg), a') /\
              sessions (manager a') !! uid = Some s' /\
              messages s'
              = truncate (maxMessagesPerSession (manager st))
                  (messages s ++ [{| role := user; content := q; timestamp := t |}]) /\
              disk (world a')
              = failed_write (world a) (SessionManager.sessionFile uid) (JSON.stringify s')).
  { intros a Hsa Hma Hfa.
    assert (Ha : sessions (manager a) !! uid = Some s) by (rewrite Hsa; exact Hs).
    destruct (addMessage_present a uid user q s Ha) as [E _].
    pose proof (addMessage_present_result a uid user q s Ha) as R. rewrite Hfa in R.
    assert (D : exists s', sessions (manager (snd (SessionManager.addMessage uid user q a))) !! uid
                           = Some s' /\
                disk (world (snd (SessionManager.addMessage uid user q a)))
                = failed_write (world a) (SessionManager.sessionFile uid) (JSON.stringify s')).
    { clear E R. destruct_state a. simpl in Ha, Hfa.
      unfold SessionManager.addMessage, SessionManager.getSession, SessionManager.saveSession,
        failed_write.
      run_m. rewrite Ha. rewrite (alter_present _ _ _ _ Ha).
      destruct (_ <? _)%Z.
      - rewrite (alter_present _ _ _ _ (lookup_insert_eq _ _ _)), insert_insert_eq.
        rewrite (alter_present _ _ _ _ (lookup_insert_eq _ _ _)), insert_insert_eq.
        rewrite lookup_insert_eq, Hfa.
        destruct (cut calls); [destruct d|]; (eexists; split; [apply lookup_insert_eq|reflexivity]).
      - rewrite (alter_present _ _ _ _ (lookup_insert_eq _ _ _)), insert_insert_eq.
        rewrite lookup_insert_eq, Hfa.
        destruct (cut calls); [destruct d|]; (eexists; split; [apply lookup_insert_eq|reflexivity]). }
    destruct D as (s' & Hs' & D).
    destruct (SessionManager.addMessage uid user q a) as [res a']. simpl in *. subst res.
    rewrite E, lookup_insert_eq in Hs'. injection Hs' as <-.
    eexists _, _, _. split; [reflexivity|]. split; [rewrite E; apply lookup_insert_eq|].
    split; [simpl; rewrite Hma; reflexivity|exact D]. }
  revert Hsh Hstep. unfold query_command, resolves in *.
  destruct_state st. simpl in Hmgr, Hres, Hfault, Hs. subst mgr. simpl. intros Hsh Hstep.
  unfold ClaudeExecutor.executeQuery, ClaudeExecutor.execCommand. run_m.
  destruct (ClaudeExecutor.existing (ids !! uid)) as [h|] eqn:He; run_m;
    rewrite Hsh; run_m; rewrite Hres; run_m.
  all: match goal with
       | |- context [SessionManager.addMessage _ user _ ?a] =>
           destruct (Hstep a eq_refl eq_refl Hfault) as (a1 & s1 & t1 & E1 & Hs1 & Hm1 & Hd);
           rewrite E1; run_m
       end.
  all: destruct a1 as [[? ? ?] ? [? ? ? ? ? ? ? ? ? ? ?]]; simpl in *.
  all: eexists _, s1, t1; split; [reflexivity|]; split; [exact Hs1|]; split; [exact Hm1|exact Hd].
Qed.

(** ** Chronological histories *)

Lemma StronglySorted_snoc (l : list Z) (x : Z) :
  StronglySorted Z.le l -> Forall (fun y => (y <= x)%Z) l -> StronglySorted Z.le (l ++ [x]).
Proof.
  induction l as [|y l IH]; intros Hs Hall; simpl.
  - constructor; constructor.
  - inversion Hs; subst. inversion Hall; subst.
    constructor; [apply IH; assumption|].
    apply Forall_app. split; [assumption|]. constructor; [assumption|constructor].
Qed.

Lemma StronglySorted_drop (k : nat) (l : list Z) :
  StronglySorted Z.le l -> StronglySorted Z.le (drop k l).
Proof.
  revert l. induction k as [|k IH]; intros l Hs; [exact Hs|].
  destruct l as [|y l]; [exact Hs|]. simpl. apply IH. inversion Hs; assumption.
Qed.

Lemma Forall_drop_keep {A} (P : A -> Prop) (k : nat) (l : list A) :
  Forall P l -> Forall P (drop k l).
Proof.
  revert l. induction k as [|k IH]; intros l H; [exact H|].
  destruct l as [|y l]; [exact H|]. simpl. apply IH. inversion H; assumption.
Qed.

Lemma map_drop {A B} (f : A -> B) (k : nat) (l : list A) :
  map f (drop k l) = drop k (map f l).
Proof. apply fmap_drop. Qed.

Lemma truncate_drop {A} (max : Z) (l : list A) : exists k, truncate max l = drop k l.
Proof.
  unfold truncate, Js.slice. destruct (_ <? _)%Z; [eexists; reflexivity|].
  exists 0%nat. reflexivity.
Qed.

(** The session that [addMessage] leaves for a user who had one, and the
    clock afterwards. *)
Lemma addMessage_clock (st : State) (uid : string) (r : Role) (c : string) :
  let st' := snd (SessionManager.addMessage uid r c st) in
  clock (world st') = clock (world st) /\
  ticks (world st')
  = match sessions (manager st) !! uid with
    | Some _ => S (S (ticks (world st)))
    | None => if creation_fails st uid then S (S (ticks (world st)))
              else S (S (S (S (ticks (world st)))))
    end.
Proof.
  destruct_state st.
  unfold creation_fails, SessionManager.addMessage, SessionManager.getSession,
    SessionManager.saveSession.
  run_m. destruct (ss !! uid) as [s|] eqn:H.
  - repeat case_step; split; reflexivity.
  - rewrite lookup_insert_eq.
    destruct (fault calls); [destruct (cut calls); [destruct d|]; split; reflexivity|].
    destruct d as [d|]; [|split; reflexivity].
    repeat case_step; split; reflexivity.
Qed.

Lemma getSession_clock (st : State) (uid : string) :
  let st' := snd (SessionManager.getSession uid st) in
  clock (world st') = clock (world st) /\
  ticks (world st')
  = match sessions (manager st) !! uid with
    | Some _ => ticks (world st)
    | None => S (S (ticks (world st)))
    end.
Proof.
  destruct_state st.
  unfold SessionManager.getSession, SessionManager.saveSession.
  run_m. destruct (ss !! uid) as [s|] eqn:H; [split; reflexivity|].
  rewrite lookup_insert_eq.
  destruct (fault calls); [destruct (cut calls); [destruct d|]; split; reflexivity|].
  destruct d as [d|]; split; reflexivity.
Qed.

Lemma clearSession_clock (st : State) (uid : string) :
  let st' := snd (SessionManager.clearSession uid st) in
  clock (world st') = clock (world st) /\ ticks (world st') = ticks (world st).
Proof.
  destruct_state st. unfold SessionManager.clearSession. run_m.
  destruct (fault calls); [split; reflexivity|].
  destruct d as [d|]; [|split; reflexivity].
  destruct (fs.lookup_file _ d); split; reflexivity.
Qed.

Lemma fresh_chronological (uid : string) (w : World) :
  (forall i j, (i <= j)%nat -> (clock w i <= clock w j)%Z) ->
  chronological (fresh_session uid w).
Proof.
  intros Hmono. unfold chronological, fresh_session. simpl.
  split; [apply Hmono; lia|]. split; constructor.
Qed.

Lemma timely_other (st st' : State) (uid : string) (s' : Session) :
  timely st ->
  clock (world st') = clock (world st) ->
  (ticks (world st) <= ticks (world st'))%nat ->
  sessions (manager st') = <[uid := s']> (sessions (manager st)) ->
  chronological s' ->
  (lastActivityAt s' <= clock (world st) (ticks (world st')))%Z ->
  timely st'.
Proof.
  intros [Hmono Hall] Hc Ht Hs Hch Hlast. split.
  - rewrite Hc. exact Hmono.
  - rewrite Hs, Hc. intros k s. destruct (decide (k = uid)) as [->|Hne].
    + rewrite lookup_insert_eq. intros [= <-]. split; assumption.
    + rewrite lookup_insert_ne by congruence. intros Hk.
      destruct (Hall k s Hk) as [Hk1 Hk2]. split; [exact Hk1|].
      etransitivity; [exact Hk2|]. apply Hmono. exact Ht.
Qed.

Lemma getSession_timely (st : State) (uid : string) :
  timely st -> timely (snd (SessionManager.getSession uid st)).
Proof.
  intros Ht. pose proof Ht as [Hmono Hall].
  destruct (getSession_clock st uid) as [Hc Htk].
  pose proof (getSession_sessions st uid) as Hs.
  destruct (sessions (manager st) !! uid) as [s|] eqn:E; simpl in Hs.
  - destruct (Hall uid s E) as [H1 H2].
    apply (timely_other st _ uid s Ht Hc); [lia|exact Hs|exact H1|rewrite Htk; exact H2].
  - eapply (timely_other st _ uid _ Ht Hc); [lia|exact Hs| |].
    + apply fresh_chronological. exact Hmono.
    + rewrite Htk. simpl. apply Hmono. lia.
Qed.

Lemma addMessage_timely (st : State) (uid : string) (r : Role) (c : string) :
  timely st -> timely (snd (SessionManager.addMessage uid r c st)).
Proof.
  intros Ht. pose proof Ht as [Hmono Hall].
  destruct (addMessage_clock st uid r c) as [Hc Htk].
  destruct (sessions (manager st) !! uid) as [s|] eqn:E.
  - destruct (addMessage_present st uid r c s E) as [Hs _].
    destruct (Hall uid s E) as [(H1 & H2 & H3) H4].
    assert (Hnow : (lastActivityAt s <= clock (world st) (S (ticks (world st))))%Z).
    { etransitivity; [exact H4|]. apply Hmono. lia. }
    eapply (timely_other st _ uid _ Ht Hc); [lia|exact Hs| |].
    + unfold chronological. simpl.
      destruct (truncate_drop (maxMessagesPerSession (manager st))
                  (messages s ++ [{| role := r; content := c;
                                     timestamp := clock (world st) (ticks (world st)) |}]))
        as [k ->].
      split; [lia|]. split.
      * rewrite map_drop. apply StronglySorted_drop.
        rewrite map_app. simpl. apply StronglySorted_snoc; [exact H2|].
        apply Forall_map. eapply Forall_impl; [exact H3|]. simpl. intros m Hm. lia.
      * apply Forall_drop_keep. apply Forall_app. split.
        -- eapply Forall_impl; [exact H3|]. simpl. intros m Hm. lia.
        -- constructor; [|constructor]. simpl.
           assert ((clock (world st) (ticks (world st)) <= clock (world st) (S (ticks (world st))))%Z)
             by (apply Hmono; lia).
           lia.
    + rewrite Htk. simpl. apply Hmono. lia.
  - destruct (addMessage_absent st uid r c E) as [Hs _].
    destruct (creation_fails st uid).
    + eapply (timely_other st _ uid _ Ht Hc); [lia|exact Hs| |].
      * apply fresh_chronological. exact Hmono.
      * rewrite Htk. simpl. apply Hmono. lia.
    + eapply (timely_other st _ uid _ Ht Hc); [lia|exact Hs| |].
      * unfold chronological. simpl.
        destruct (truncate_drop (maxMessagesPerSession (manager st))
                    [{| role := r; content := c;
                        timestamp := clock (world st) (S (S (ticks (world st)))) |}])
          as [k ->].
        assert (H02 : (clock (world st) (ticks (world st))
                       <= clock (world st) (S (S (ticks (world st)))))%Z) by (apply Hmono; lia).
        assert (H23 : (clock (world st) (S (S (ticks (world st))))
                       <= clock (world st) (S (S (S (ticks (world st))))))%Z) by (apply Hmono; lia).
        split; [lia|]. split.
        -- rewrite map_drop. apply StronglySorted_drop. simpl.
           constructor; constructor.
        -- apply Forall_drop_keep. constructor; [|constructor]. simpl. lia.
      * rewrite Htk. simpl. apply Hmono. lia.
Qed.

Lemma clearSession_timely (st : State) (uid : string) :
  timely st -> timely (snd (SessionManager.clearSession uid st)).
Proof.
  intros [Hmono Hall].
  destruct (clearSession_clock st uid) as [Hc Htk].
  destruct (clearSession_sessions st uid) as [Hs _].
  split.
  - rewrite Hc. exact Hmono.
  - rewrite Hs, Hc, Htk. intros k s Hk.
    apply lookup_delete_Some in Hk as [_ Hk]. exact (Hall k s Hk).
Qed.

(** X28.  With a clock that never goes back, sessions whose stamps are
    in order stay so under every call: the messages of a history are in
    the order of their timestamps, and all of them lie between [createdAt]
    and [lastActivityAt]. *)
Theorem histories_stay_chronological (cs : list Call) (st : State) :
  timely st ->
  forall uid s, sessions (manager (perform_all cs st)) !! uid = Some s -> chronological s.
Proof.
  intros Ht uid s Hs.
  assert (H : timely (perform_all cs st)).
  { apply (perform_all_inv timely).
    - intros a b (Hm & _ & Hc & Htk & _) [Hmono Hall]. split.
      + rewrite Hc. exact Hmono.
      + rewrite Hm, Hc, Htk. exact Hall.
    - intros a u. apply getSession_timely.
    - intros a u r c. apply addMessage_timely.
    - intros a u. apply clearSession_timely.
    - exact Ht. }
  exact (proj1 (proj2 H uid s Hs)).
Qed.

(** ** Instances of the further properties *)

Lemma synced_disk_represents :
  represents synced_disk {[ "1001" := alice; "2002" := bob ]}.
Proof.
  split.
  - intros uid s H.
    destruct (decide (uid = "1001")) as [->|H1].
    + rewrite lookup_insert_eq in H. injection H as <-. split; [reflexivity|].
      exists (JSON.stringify alice). split; [reflexivity|apply decode_stringify].
    + rewrite lookup_insert_ne in H by congruence.
      apply lookup_singleton_Some in H as [<- <-]. split; [reflexivity|].
      exists (JSON.stringify bob). split; [reflexivity|apply decode_stringify].
  - intros name text [H|[H|[H|[]]]] Hext; inversion H; subst.
    + discriminate Hext.
    + exists "1001", alice. split; [reflexivity|]. split; [reflexivity|apply decode_stringify].
    + exists "2002", bob. split; [reflexivity|]. split; [reflexivity|apply decode_stringify].
Qed.

Lemma getHistory_selection_witness :
  SessionManager.getHistory "1001" (Some 1%Z) alice_state
  = (Ok [ {| role := assistant; content := "87%"; timestamp := 1704067203000 |} ], alice_state).
Proof.
  apply (getHistory_selection alice_state "1001" 1 alice).
  - reflexivity.
  - discriminate.
Defined.

Lemma bound_not_positive_witness :
  exists t,
    stored (snd (SessionManager.addMessage "1001" user "more" (alice_bounded 0))) "1001"
    = drop 0 (messages alice ++ [{| role := user; content := "more"; timestamp := t |}]).
Proof.
  apply (bound_not_positive (alice_bounded 0) "1001" user "more" alice).
  - reflexivity.
  - simpl. lia.
Defined.

Lemma sessions_stay_bounded_witness :
  let st' := perform_all [AddMessage "42" user "a"; ExecuteQuery "b" "42";
                          AddMessage "42" user "c"] (boot 3 quiet_world) in
  maxMessagesPerSession (manager st') = 3%Z /\
  (forall uid, (Z.of_nat (List.length (stored st' uid)) <= 3)%Z) /\
  exists stats,
    SessionManager.getStats st' = (Ok stats, st') /\
    (Z.of_nat (totalMessages stats) <= Z.of_nat (totalSessions stats) * 3)%Z.
Proof.
  apply (sessions_stay_bounded
           [AddMessage "42" user "a"; ExecuteQuery "b" "42"; AddMessage "42" user "c"]
           (boot 3 quiet_world)).
  - reflexivity.
  - intros uid s H. discriminate H.
Defined.

Lemma sessions_keyed_by_user_witness :
  let st := boot 50 (with_disk (Some synced_disk) quiet_world) in
  let st' := perform_all [AddMessage "42" user "a"; OnClear "2002"]
               (snd (SessionManager.initialize st)) in
  fst (SessionManager.initialize st) = Ok tt /\
  sessions (manager (snd (SessionManager.initialize st)))
  = {[ "1001" := alice; "2002" := bob ]} /\
  userId <$> sessions (manager st') = {[ "1001" := "1001"; "42" := "42" ]} /\
  keyed (sessions (manager st')).
Proof.
  split; [vm_compute; reflexivity|]. split; [vm_compute; reflexivity|].
  split; [vm_compute; reflexivity|].
  apply (sessions_keyed_by_user [AddMessage "42" user "a"; OnClear "2002"]
           (boot 50 (with_disk (Some synced_disk) quiet_world))).
  - intros uid s H. discriminate H.
  - vm_compute. discriminate.
Defined.

Lemma other_users_untouched_witness :
  holding (perform_all [AddMessage "2002" user "hello"; OnClear "2002"; GetStats]
             (synced_state quiet_world)) "1001"
  = holding (synced_state quiet_world) "1001".
Proof.
  apply (other_users_untouched [AddMessage "2002" user "hello"; OnClear "2002"; GetStats]
           (synced_state quiet_world) "1001").
  repeat constructor; discriminate.
Defined.

Lemma histories_stay_chronological_witness :
  chronological
    {| userId := "42";
       messages := [ {| role := user; content := "a"; timestamp := 1704067200002 |} ];
       createdAt := 1704067200000; lastActivityAt := 1704067200003 |}.
Proof.
  apply (histories_stay_chronological [AddMessage "42" user "a"] (boot 50 quiet_world))
    with (uid := "42").
  - split.
    + intros i j H. unfold boot, quiet_world. cbn [world clock]. lia.
    + intros uid s H. discriminate H.
  - reflexivity.
Defined.

Lemma records_follow_memory_witness :
  in_sync (perform_all [AddMessage "1001" user "and now?"; ClearSession "2002"]
             (synced_state quiet_world)).
Proof.
  apply (records_follow_memory [AddMessage "1001" user "and now?"; ClearSession "2002"]
           (synced_state quiet_world)).
  exists synced_disk. split; [split; [reflexivity|intros k; reflexivity]|].
  exact synced_disk_represents.
Defined.

Lemma restart_restores_sessions_witness :
  sessions (manager (snd (SessionManager.initialize (restart (synced_state quiet_world)))))
  = sessions (manager (synced_state quiet_world)).
Proof.
  apply (restart_restores_sessions (synced_state quiet_world)).
  exists synced_disk. split; [split; [reflexivity|intros k; reflexivity]|].
  exact synced_disk_represents.
Defined.

Lemma cleared_session_stays_cleared_witness :
  let cleared := snd (RemoteAssistantBot.onClear "1001" (synced_state quiet_world)) in
  sessions (manager (snd (SessionManager.initialize (restart cleared))))
  = delete "1001" (sessions (manager (synced_state quiet_world))).
Proof.
  apply (cleared_session_stays_cleared (synced_state quiet_world) "1001").
  exists synced_disk. split; [split; [reflexivity|intros k; reflexivity]|].
  exact synced_disk_represents.
Defined.

Lemma failed_unlink_brings_session_back_witness :
  let cleared := snd (SessionManager.clearSession "1001" (synced_state unlink_fails_once)) in
  sessions (manager cleared) !! "1001" = None /\
  fst (SessionManager.initialize (restart cleared)) = Ok tt /\
  sessions (manager (snd (SessionManager.initialize (restart cleared)))) !! "1001" = Some alice.
Proof.
  apply (failed_unlink_brings_session_back (synced_state unlink_fails_once) "1001"
           "EACCES: permission denied" alice synced_disk).
  - reflexivity.
  - exact synced_disk_represents.
  - reflexivity.
  - reflexivity.
  - intros k. reflexivity.
Defined.

Lemma executeQuery_appends_turns_witness :
  exists (st' : State) (t1 t2 : Z) (s' : Session),
    ClaudeExecutor.executeQuery "status?" "42" (boot 50 quiet_world)
    = (Ok {| success := true; output := "ok"; error := None |}, st') /\
    sessions (manager st') !! "42" = Some s' /\
    messages s'
    = last_n 50 [ {| role := user; content := "status?"; timestamp := t1 |};
                  {| role := assistant; content := "ok"; timestamp := t2 |} ] /\
    record (world st') (SessionManager.sessionFile "42") = Some (JSON.stringify s').
Proof.
  apply (executeQuery_appends_turns (boot 50 quiet_world) "status?" "42" []
           (Some 0%Z) "ok" EmptyString).
  - reflexivity.
  - split; [reflexivity|intros k; reflexivity].
  - reflexivity.
  - reflexivity.
  - reflexivity.
Defined.

Lemma executeQuery_storage_fault_witness :
  exists (st' : State) (s' : Session) (t : Z),
    ClaudeExecutor.executeQuery "status?" "1001" alice_disk_fills
    = (Ok {| success := false; output := EmptyString;
             error := Some "ENOSPC: no space left on device" |}, st') /\
    sessions (manager st') !! "1001" = Some s' /\
    messages s'
    = truncate 50 (messages alice ++ [{| role := user; content := "status?"; timestamp := t |}]) /\
    disk (world st') = Some [ ("1001.json", EmptyString) ].
Proof.
  apply (executeQuery_storage_fault alice_disk_fills "status?" "1001"
           "ENOSPC: no space left on device" alice (Some 0%Z) "ok" EmptyString).
  - reflexivity.
  - reflexivity.
  - reflexivity.
  - reflexivity.
  - reflexivity.
Defined.

Lemma executeQuery_resumes_witness :
  let st := boot 50 (with_shell echo_shell quiet_world) in
  let st1 := snd (ClaudeExecutor.executeQuery "status?" "42" st) in
  let run := ClaudeExecutor.executeQuery "and now?" "42" st1 in
  let command := "claude --resume " ++ ClaudeExecutor.quoted "uuid-0"
                 ++ " -p " ++ ClaudeExecutor.quoted (ClaudeExecutor.escapeQuery "and now?") in
  let o := shell (world st1) (spawns (world st1)) command in
  fst run = Ok {| success := true; output := command; error := None |} /\
  userSessionIds (executor st1) !! "42" = Some "uuid-0" /\
  (exists resp : ClaudeResponse,
     fst run = Ok resp /\
     (resolves o = false -> resp = failure_response o) /\
     (success resp = true -> resolves o = true /\ output resp = answer_of o)) /\
  userSessionIds (executor (snd run)) = userSessionIds (executor st1) /\
  uuids (world (snd run)) = uuids (world st1).
Proof.
  split; [vm_compute; reflexivity|].
  apply (executeQuery_resumes (boot 50 (with_shell echo_shell quiet_world))
           "status?" "and now?" "42" "uuid-0").
  vm_compute. reflexivity.
Defined.

Lemma executeQuery_without_manager_witness :
  same_store availability_probe
    (snd (ClaudeExecutor.executeQuery "status?" "42" availability_probe)).
Proof.
  apply (executeQuery_without_manager availability_probe "status?" "42"). reflexivity.
Defined.

Lemma sendLongMessage_chunk_sizes_witness :
  Forall (fun m => (1 <= String.length (snd m) <= RemoteAssistantBot.MAX_LENGTH)%nat)
         (RemoteAssistantBot.sendLongMessage (copies 500 ("step done" ++ JSON.newline))).
Proof.
  apply (sendLongMessage_chunk_sizes (copies 500 ("step done" ++ JSON.newline))).
  - vm_compute. reflexivity.
  - intros H. vm_compute in H. discriminate H.
Defined.

Lemma sendLongMessage_empty_first_chunk_witness :
  exists more,
    RemoteAssistantBot.sendLongMessage (copies 4001 "a") = (None, EmptyString) :: more.
Proof.
  apply (sendLongMessage_empty_first_chunk (copies 4001 "a") (copies 4001 "a") []).
  - vm_compute. reflexivity.
  - apply Nat.leb_le. vm_compute. reflexivity.
  - apply Nat.ltb_lt. vm_compute. reflexivity.
Defined.
